(** * The AJAX request manager of the crowdfunding front end

    A shallow embedding of [static/js/modules/ajax.js] (class
    [AjaxManager]) and of the helpers it imports from
    [static/js/utils/helpers.js] ([request], [showLoading],
    [hideLoading]); the other helpers of that file and the rest of the
    manager follow the dispatcher.

    JavaScript objects become records, the [Map] of pending requests a
    [gmap], exceptions and the shared mutable manager a state-and-error
    monad over a [World]; what the browser and the server do (fresh ids,
    DOM lookups, what a [fetch] settles with and what else runs while it
    is in flight) is an explicit environment. *)

From Stdlib Require Import ZArith String Ascii List Bool Lia.
From stdpp Require Import base gmap strings list fin_maps pretty.

Local Open Scope string_scope.
Local Open Scope Z_scope.

(** ** Values *)

(** JSON values, as [response.json()] yields them; a text body is a [JStr]. *)
Local Unset Elimination Schemes.
Inductive Json :=
| JNull
| JBool (b : bool)
| JNum (n : Z)
| JStr (s : string)
| JArr (items : list Json)
| JObj (fields : list (string * Json)).
Local Set Elimination Schemes.

(** An error object: [error.name] and [error.message]. *)
Record JsError := { name : string; message : string }.

(** [new Error(msg)] *)
Definition Error (msg : string) : JsError := {| name := "Error"; message := msg |}.

(** The [DOMException] a [fetch] rejects with once its signal is aborted. *)
Definition AbortError : JsError :=
  {| name := "AbortError"; message := "The operation was aborted." |}.

(** The [TypeError] of a property read on [null]. *)
Definition NullPropertyError (prop : string) : JsError :=
  {| name := "TypeError";
     message := "Cannot read properties of null (reading '" +:+ prop +:+ "')" |}.

(** JavaScript truthiness of a value that may be [undefined] ([None]). *)
Definition truthy (v : option Json) : bool :=
  match v with
  | None => false
  | Some JNull => false
  | Some (JBool b) => b
  | Some (JNum n) => negb (n =? 0)
  | Some (JStr s) => negb (String.eqb s "")
  | Some (JArr _) => true
  | Some (JObj _) => true
  end.

(** [v !== false] *)
Definition not_false (v : option Json) : bool :=
  match v with
  | Some (JBool false) => false
  | _ => true
  end.

(** [`${v}`], where the conversion is a matter of the value alone: an
    integer is printed in decimal, as JavaScript prints the integers below
    10^21 that a double holds exactly, and an object as one without a
    [toString] of its own. *)
Fixpoint js_string (v : Json) : string :=
  match v with
  | JNull => "null"
  | JBool true => "true"
  | JBool false => "false"
  | JNum n => pretty n
  | JStr s => s
  | JArr items =>
      String.concat ","
        (map (λ i, match i with JNull => "" | _ => js_string i end) items)
  | JObj _ => "[object Object]"
  end.

Fixpoint assoc (k : string) (fields : list (string * Json)) : option Json :=
  match fields with
  | [] => None
  | (k', v) :: rest => if String.eqb k k' then Some v else assoc k rest
  end.

(** [s.includes(needle)] *)
Fixpoint includes (needle s : string) : bool :=
  String.prefix needle s ||
  match s with
  | EmptyString => false
  | String _ rest => includes needle rest
  end.

(** The white space and the line terminators of JavaScript among the code
    units of a byte: tab to carriage return, the space and the no-break
    space. *)
Definition is_whitespace (c : ascii) : bool :=
  let n := N_of_ascii c in
  ((9 <=? n) && (n <=? 13) || (n =? 32) || (n =? 160))%N.

Fixpoint trimStart (s : list ascii) : list ascii :=
  match s with
  | c :: rest => if is_whitespace c then trimStart rest else s
  | [] => []
  end.

(** [s.trim()], on a string whose code units fit a byte *)
Definition trim (s : string) : string :=
  string_of_list_ascii
    (rev (trimStart (rev (trimStart (list_ascii_of_string s))))).

(** A DOM element, by identity. *)
Definition Element := nat.

(** The entries of a [FormData]. *)
Definition FormData := list (string * string).

(** [config.data]: a [FormData] or a JSON-encodable value. *)
Inductive RequestData :=
| DataForm (fd : FormData)
| DataJson (j : Json).

(** [config.loadingElement]: a selector string or an element. *)
Inductive LoadingTarget :=
| BySelector (sel : string)
| ByElement (el : Element).

(** What a user callback does when it is called: it returns ([None]) or
    throws an error object ([Some e]). *)
Definition Callback := option JsError.

Definition throws (cb : option Callback) : bool :=
  match cb with
  | Some (Some _) => true
  | _ => false
  end.

(** [requestOptions.body]: the [FormData] itself or [JSON.stringify(data)]. *)
Inductive Body :=
| BodyForm (fd : FormData)
| BodyJson (j : Json).

(** The second argument of [fetch]. *)
Record RequestOptions := {
  ro_method : string;
  ro_headers : gmap string string;
  ro_body : option Body;
  ro_signal : option nat
}.

(** A [Response]: status line, [content-type] header and what [text()] and
    [json()] give ([json()] throws on a body that does not parse). *)
Record Response := {
  status : Z;
  statusText : string;
  contentType : option string;
  text : string;
  json : JsError + Json
}.

(** [response.ok] *)
Definition ok (r : Response) : bool := (200 <=? status r) && (status r <=? 299).

(** ** Options and configuration *)

(** The options object of [makeRequest], [submitForm] and [loadContent]:
    every field may be absent. *)
Record Options := {
  timeout : option Z;
  retries : option Z;
  retryDelay : option Z;
  showLoading : option bool;
  showErrors : option bool;
  cancelPending : option Json;
  method : option string;
  headers : option (gmap string string);
  data : option RequestData;
  loadingElement : option LoadingTarget;
  loadingText : option string;
  successCallback : option Callback;
  errorCallback : option Callback;
  opt_url : option string;
  resetForm : option Json
}.

(** [{}] *)
Definition no_options : Options :=
  {| timeout := None; retries := None; retryDelay := None;
     showLoading := None; showErrors := None; cancelPending := None;
     method := None; headers := None; data := None; loadingElement := None;
     loadingText := None; successCallback := None; errorCallback := None;
     opt_url := None; resetForm := None |}.

(** [this.defaultConfig] *)
Definition defaultConfig : Options :=
  {| timeout := Some 30000; retries := Some 3; retryDelay := Some 1000;
     showLoading := Some true; showErrors := Some true; cancelPending := None;
     method := None; headers := None; data := None; loadingElement := None;
     loadingText := None; successCallback := None; errorCallback := None;
     opt_url := None; resetForm := None |}.

(** One key of [{...a, ...b}]. *)
Definition override {A} (a b : option A) : option A :=
  match b with
  | Some v => Some v
  | None => a
  end.

(** [{...a, ...b}] *)
Definition spread (a b : Options) : Options :=
  {| timeout := override (timeout a) (timeout b);
     retries := override (retries a) (retries b);
     retryDelay := override (retryDelay a) (retryDelay b);
     showLoading := override (showLoading a) (showLoading b);
     showErrors := override (showErrors a) (showErrors b);
     cancelPending := override (cancelPending a) (cancelPending b);
     method := override (method a) (method b);
     headers := override (headers a) (headers b);
     data := override (data a) (data b);
     loadingElement := override (loadingElement a) (loadingElement b);
     loadingText := override (loadingText a) (loadingText b);
     successCallback := override (successCallback a) (successCallback b);
     errorCallback := override (errorCallback a) (errorCallback b);
     opt_url := override (opt_url a) (opt_url b);
     resetForm := override (resetForm a) (resetForm b) |}.

(** [{...config, retries: n}] *)
Definition with_retries (config : Options) (n : Z) : Options :=
  spread config
    {| timeout := None; retries := Some n; retryDelay := None;
       showLoading := None; showErrors := None; cancelPending := None;
       method := None; headers := None; data := None; loadingElement := None;
       loadingText := None; successCallback := None; errorCallback := None;
       opt_url := None; resetForm := None |}.

(** What [makeRequest] resolves with: [{ success: true, data, response }] or
    [{ success: false, error }]. *)
Record Result := {
  success : bool;
  result_data : option Json;
  result_response : option Response;
  error : option string
}.

Definition success_result (d : Json) (r : Response) : Result :=
  {| success := true; result_data := Some d; result_response := Some r;
     error := None |}.

Definition failure_result (msg : string) : Result :=
  {| success := false; result_data := None; result_response := None;
     error := Some msg |}.

(** The spec's [Failure.cancelled] flag: the code marks a cancelled request
    by the fixed error text of its abort branch. *)
Definition cancelled (r : Result) : bool :=
  negb (success r) &&
  match error r with
  | Some msg => String.eqb msg "Request cancelled"
  | None => false
  end.

(** ** The world: the manager and the browser around it *)

(** An entry of [this.pendingRequests]. *)
Record PendingRequest := {
  pr_controller : nat;
  pr_url : string;
  pr_timeoutId : nat;
  pr_loadingElement : option Element
}.

(** What the code does to the outside. Loading-indicator events carry the id
    of the request they are done for, so that the effects of one call can be
    told from those on the entries it supersedes. *)
Inductive Event :=
| EFetch (url : string) (ro : RequestOptions)
| EShowLoading (requestId : string) (el : Element) (text : string)
| EHideLoading (requestId : string) (el : Element)
| ESetTimeout (t : nat) (ms : option Z)
| EClearTimeout (t : nat)
| EAbort (c : nat)
| EDelay (ms : option Z)
| EConsole (level msg : string)
| ENotify (kind msg : string)
| ESuccessCallback
| EErrorCallback
| ENavigate (target : Json)
| EFormReset
| EReportValidity
| EDispatchEvent (type : string)
| ESetInnerHTML (container : Element) (html : string)
| ERenderResults (container : Element) (results : Json).

Record World := {
  pendingRequests : gmap string PendingRequest;
  (** every [AbortController] created, with [signal.aborted] *)
  controllers : gmap nat bool;
  (** the armed timeout timers, with the controller each one aborts *)
  timers : gmap nat nat;
  (** next fresh object handle (controllers and timers) *)
  next_handle : nat;
  (** request ids generated so far *)
  ids_drawn : nat;
  (** everything done so far, oldest first *)
  trace : list Event
}.

Definition initial_world : World :=
  {| pendingRequests := ∅; controllers := ∅; timers := ∅;
     next_handle := 0%nat; ids_drawn := 0%nat; trace := [] |}.

Definition emit (e : Event) (w : World) : World :=
  {| pendingRequests := pendingRequests w; controllers := controllers w;
     timers := timers w; next_handle := next_handle w;
     ids_drawn := ids_drawn w; trace := trace w ++ [e] |}.

Definition set_pending (m : gmap string PendingRequest) (w : World) : World :=
  {| pendingRequests := m; controllers := controllers w;
     timers := timers w; next_handle := next_handle w;
     ids_drawn := ids_drawn w; trace := trace w |}.

Definition set_controllers (m : gmap nat bool) (w : World) : World :=
  {| pendingRequests := pendingRequests w; controllers := m;
     timers := timers w; next_handle := next_handle w;
     ids_drawn := ids_drawn w; trace := trace w |}.

Definition set_timers (m : gmap nat nat) (w : World) : World :=
  {| pendingRequests := pendingRequests w; controllers := controllers w;
     timers := m; next_handle := next_handle w;
     ids_drawn := ids_drawn w; trace := trace w |}.

Definition bump_handle (w : World) : World :=
  {| pendingRequests := pendingRequests w; controllers := controllers w;
     timers := timers w; next_handle := S (next_handle w);
     ids_drawn := ids_drawn w; trace := trace w |}.

Definition bump_ids (w : World) : World :=
  {| pendingRequests := pendingRequests w; controllers := controllers w;
     timers := timers w; next_handle := next_handle w;
     ids_drawn := S (ids_drawn w); trace := trace w |}.

(** How many events of a kind have happened. *)
Definition count (p : Event → bool) (w : World) : nat :=
  length (filter (λ e, p e = true) (trace w)).

Definition is_fetch (e : Event) : bool :=
  match e with EFetch _ _ => true | _ => false end.

Definition is_show (requestId : string) (e : Event) : bool :=
  match e with EShowLoading r _ _ => String.eqb r requestId | _ => false end.

Definition is_hide (requestId : string) (e : Event) : bool :=
  match e with EHideLoading r _ => String.eqb r requestId | _ => false end.

Definition is_delay (e : Event) : bool :=
  match e with EDelay _ => true | _ => false end.

Definition is_reset (e : Event) : bool :=
  match e with EFormReset => true | _ => false end.

Definition is_navigate (e : Event) : bool :=
  match e with ENavigate _ => true | _ => false end.

(** Network calls made so far. *)
Definition fetches (w : World) : nat := count is_fetch w.

(** ** The monad of the asynchronous code

    A computation runs on the world and returns, throws, or gives up when
    the recursion budget of the model is spent. *)
Inductive Completion (A : Type) :=
| Return (a : A)
| Throw (e : JsError)
| OutOfFuel.
Arguments Return {A} a.
Arguments Throw {A} e.
Arguments OutOfFuel {A}.

Definition M (A : Type) : Type := World → Completion A * World.

Definition ret {A} (a : A) : M A := λ w, (Return a, w).

Definition throw {A} (e : JsError) : M A := λ w, (Throw e, w).

Definition bind {A B} (m : M A) (k : A → M B) : M B :=
  λ w,
    match m w with
    | (Return a, w') => k a w'
    | (Throw e, w') => (Throw e, w')
    | (OutOfFuel, w') => (OutOfFuel, w')
    end.

(** [try { body } catch (error) { handler }] *)
Definition try_catch {A} (body : M A) (handler : JsError → M A) : M A :=
  λ w,
    match body w with
    | (Return a, w') => (Return a, w')
    | (Throw e, w') => handler e w'
    | (OutOfFuel, w') => (OutOfFuel, w')
    end.

(** A statement that cannot throw. *)
Definition act (f : World → World) : M unit := λ w, (Return tt, f w).

Definition when (b : bool) (m : M unit) : M unit := if b then m else ret tt.

Declare Scope js_scope.
Delimit Scope js_scope with js.
Notation "x <- m ;; k" := (bind m (λ x, k))
  (at level 100, m at next level, right associativity) : js_scope.
Notation "m ;;; k" := (bind m (λ _, k))
  (at level 100, right associativity) : js_scope.
Local Open Scope js_scope.

(** ** The environment

    While a [fetch] is in flight other code of the page runs: the timeout
    timer of a request may fire, and somebody may cancel requests. *)
Inductive Interference :=
| TimerFires (t : nat)
| CancelPending (target : string)
| CancelAll.

(** How the network settles a [fetch] that nobody aborted. *)
Inductive Settlement :=
| Resolves (r : Response)
| Rejects (e : JsError).

Record Exchange := {
  during : list Interference;
  settles : Settlement
}.

Record Env := {
  (** what [generateRequestId] returns, call after call *)
  idgen : nat → string;
  (** what happens to the k-th [fetch] of the page *)
  network : nat → Exchange;
  (** [document.querySelector], on the selectors that are valid (on
      another one it throws) *)
  querySelector : string → option Element;
  (** [getCSRFToken() || getCSRFTokenFromCookie()] *)
  csrfToken : string;
  (** [window.location.href] *)
  locationHref : string;
  (** [new URL(url, origin)] with parameter [q] set, as a string, for a
      URL that parses *)
  searchUrl : string → string → string
}.

(** ** helpers.js: the loading indicator

    What the two helpers do to the element (disable it and swap its text,
    and back) is one event each. *)

Module helpers.

(** [showLoading(element, text = "Loading...")] *)
Definition showLoading (requestId : string) (el : Element)
    (text : option string) (w : World) : World :=
  emit (EShowLoading requestId el (default "Loading..." text)) w.

(** [hideLoading(element)] *)
Definition hideLoading (requestId : string) (el : Element) (w : World) : World :=
  emit (EHideLoading requestId el) w.

End helpers.

(** ** Controllers, timers and the registry *)

(** [new AbortController()] *)
Definition new_AbortController : M nat :=
  λ w,
    let c := next_handle w in
    (Return c, bump_handle (set_controllers (<[c := false]> (controllers w)) w)).

(** [controller.abort()] *)
Definition abort (c : nat) (w : World) : World :=
  emit (EAbort c) (set_controllers (<[c := true]> (controllers w)) w).

(** [setTimeout(() => controller.abort(), ms)] *)
Definition setTimeout_abort (c : nat) (ms : option Z) : M nat :=
  λ w,
    let t := next_handle w in
    (Return t,
     emit (ESetTimeout t ms) (bump_handle (set_timers (<[t := c]> (timers w)) w))).

(** [clearTimeout(t)] *)
Definition clearTimeout (t : nat) (w : World) : World :=
  emit (EClearTimeout t) (set_timers (delete t (timers w)) w).

(** [this.pendingRequests.set(requestId, entry)] *)
Definition pending_set (requestId : string) (entry : PendingRequest)
    (w : World) : World :=
  set_pending (<[requestId := entry]> (pendingRequests w)) w.

(** [this.pendingRequests.delete(requestId)] *)
Definition pending_delete (requestId : string) (w : World) : World :=
  set_pending (delete requestId (pendingRequests w)) w.

(** The three statements both cancel loops run on an entry. *)
Definition cancel_entry (requestId : string) (request : PendingRequest)
    (w : World) : World :=
  let w := abort (pr_controller request) w in
  let w := clearTimeout (pr_timeoutId request) w in
  match pr_loadingElement request with
  | Some el => helpers.hideLoading requestId el w
  | None => w
  end.

(** [request.url === url || requestId === url] *)
Definition targets (url : string) (requestId : string)
    (request : PendingRequest) : bool :=
  String.eqb (pr_url request) url || String.eqb requestId url.

Definition cancel_step (url : string) (w : World)
    (kv : string * PendingRequest) : World :=
  if targets url kv.1 kv.2
  then pending_delete kv.1 (cancel_entry kv.1 kv.2 w)
  else w.

(** [cancelPendingRequest(url)]: the loop over the entries of the map. (A
    JavaScript [Map] is walked in insertion order, the [gmap] in key order;
    the entries cancelled and what is done to each are the same.) *)
Definition cancelPendingRequest (url : string) (w : World) : World :=
  foldl (cancel_step url) w (map_to_list (pendingRequests w)).

Definition cancel_all_step (w : World) (kv : string * PendingRequest) : World :=
  cancel_entry kv.1 kv.2 w.

(** [cancelAllRequests()]: the loop, then [pendingRequests.clear()]. *)
Definition cancelAllRequests (w : World) : World :=
  set_pending ∅
    (foldl cancel_all_step w (map_to_list (pendingRequests w))).

(** What one interfering piece of code does. A timer that was cleared does
    not fire. *)
Definition interfere (w : World) (i : Interference) : World :=
  match i with
  | TimerFires t =>
      match timers w !! t with
      | Some c => abort c (set_timers (delete t (timers w)) w)
      | None => w
      end
  | CancelPending target => cancelPendingRequest target w
  | CancelAll => cancelAllRequests w
  end.

Definition signal_aborted (ro : RequestOptions) (w : World) : bool :=
  match ro_signal ro with
  | Some c =>
      match controllers w !! c with
      | Some b => b
      | None => false
      end
  | None => false
  end.

Section Manager.

Variable env : Env.

(** [fetch(url, config)]: the call goes out, the page goes on running, and
    the promise rejects with an [AbortError] when the signal was aborted
    meanwhile, and settles as the network says otherwise. *)
Definition fetch (url : string) (ro : RequestOptions) : M Response :=
  λ w,
    let x := network env (fetches w) in
    let w' := foldl interfere (emit (EFetch url ro) w) (during x) in
    if signal_aborted ro w' then (Throw AbortError, w')
    else
      match settles x with
      | Resolves r => (Return r, w')
      | Rejects e => (Throw e, w')
      end.

(** [request(url, options)] of helpers.js *)
Definition request (url : string) (options : RequestOptions) : M Response :=
  let config :=
    {| ro_method := ro_method options;
       ro_headers :=
         ro_headers options ∪
         {[ "Content-Type" := "application/json";
            "X-CSRFToken" := csrfToken env ]};
       ro_body := ro_body options;
       ro_signal := ro_signal options |} in
  try_catch
    (response <- fetch url config ;;
     if negb (ok response)
     then throw (Error ("HTTP error! status: " +:+ pretty (status response)))
     else ret response)
    (λ error,
       act (emit (EConsole "error" ("Request failed: " +:+ message error))) ;;;
       throw error).

(** ** AjaxManager.makeRequest *)

(** [generateRequestId()] *)
Definition generateRequestId : M string :=
  λ w, (Return (idgen env (ids_drawn w)), bump_ids w).

(** [config.cancelPending !== false] *)
Definition cancels_pending (config : Options) : bool :=
  not_false (cancelPending config).

Definition data_truthy (d : RequestData) : bool :=
  match d with
  | DataForm _ => true
  | DataJson j => truthy (Some j)
  end.

Definition target_truthy (t : LoadingTarget) : bool :=
  match t with
  | BySelector sel => negb (String.eqb sel "")
  | ByElement _ => true
  end.

(** [x || fallback] on strings *)
Definition or_else (x : option string) (fallback : string) : string :=
  match x with
  | Some s => if String.eqb s "" then fallback else s
  | None => fallback
  end.

(** Lines 96-117: method, headers and body of the request. *)
Definition requestOptions_of (config : Options) : RequestOptions :=
  let method := or_else (method config) "GET" in
  let headers : gmap string string :=
    default ∅ (headers config) ∪
    {[ "Content-Type" := "application/json";
       "X-Requested-With" := "XMLHttpRequest" ]} in
  let plain :=
    {| ro_method := method; ro_headers := headers; ro_body := None;
       ro_signal := None |} in
  match data config with
  | Some d =>
      if data_truthy d &&
         existsb (String.eqb method) ["POST"; "PUT"; "PATCH"]
      then
        match d with
        | DataForm fd =>
            {| ro_method := method;
               ro_headers := delete "Content-Type" headers;
               ro_body := Some (BodyForm fd); ro_signal := None |}
        | DataJson j =>
            {| ro_method := method; ro_headers := headers;
               ro_body := Some (BodyJson j); ro_signal := None |}
        end
      else plain
  | None => plain
  end.

Definition with_signal (ro : RequestOptions) (c : nat) : RequestOptions :=
  {| ro_method := ro_method ro; ro_headers := ro_headers ro;
     ro_body := ro_body ro; ro_signal := Some c |}.

(** Lines 120-126: the element [loadingElement] ends up naming. *)
Definition resolve_loading (config : Options) : option Element :=
  match showLoading config, loadingElement config with
  | Some true, Some target =>
      if target_truthy target then
        match target with
        | BySelector sel => querySelector env sel
        | ByElement el => Some el
        end
      else None
  | _, _ => None
  end.

(** Lines 119-130: resolve and activate the loading indicator. *)
Definition setup_loading (requestId : string) (config : Options)
    : M (option Element) :=
  let loadingElement := resolve_loading config in
  match loadingElement with
  | Some el => act (helpers.showLoading requestId el (loadingText config))
  | None => ret tt
  end ;;;
  ret loadingElement.

(** Lines 90-145: everything [makeRequest] does before it awaits the
    response. Returns the request options, the timer and the element. *)
Definition makeRequest_begin (requestId url : string) (config : Options)
    : M (RequestOptions * nat * option Element) :=
  when (cancels_pending config) (act (cancelPendingRequest url)) ;;;
  let requestOptions := requestOptions_of config in
  loadingElement <- setup_loading requestId config ;;
  controller <- new_AbortController ;;
  let requestOptions := with_signal requestOptions controller in
  timeoutId <- setTimeout_abort controller (timeout config) ;;
  act (pending_set requestId
         {| pr_controller := controller; pr_url := url;
            pr_timeoutId := timeoutId;
            pr_loadingElement := loadingElement |}) ;;;
  ret (requestOptions, timeoutId, loadingElement).

(** What [response.json()] or [response.text()] gives, by content type. *)
Definition body_of (response : Response) : JsError + Json :=
  match contentType response with
  | Some ct =>
      if includes "application/json" ct then json response
      else inr (JStr (text response))
  | None => inr (JStr (text response))
  end.

(** Lines 161-169: parse the response body. *)
Definition parse_body (response : Response) : M Json :=
  match body_of response with
  | inr v => ret v
  | inl e => throw e
  end.

Definition call_callback (cb : option Callback) (e : Event) : M unit :=
  match cb with
  | Some behaviour =>
      act (emit e) ;;;
      match behaviour with
      | Some thrown => throw thrown
      | None => ret tt
      end
  | None => ret tt
  end.

(** Lines 89-179: the [try] block. *)
Definition makeRequest_try (requestId url : string) (config : Options)
    : M Result :=
  started <- makeRequest_begin requestId url config ;;
  let '(requestOptions, timeoutId, loadingElement) := started in
  response <- request url requestOptions ;;
  act (clearTimeout timeoutId) ;;;
  act (pending_delete requestId) ;;;
  match loadingElement with
  | Some el => act (helpers.hideLoading requestId el)
  | None => ret tt
  end ;;;
  data <- parse_body response ;;
  if ok response then
    call_callback (successCallback config) ESuccessCallback ;;;
    ret (success_result data response)
  else
    throw (Error ("HTTP " +:+ pretty (status response) +:+ ": "
                  +:+ statusText response)).

(** Lines 181-189: release what the failed attempt still holds. *)
Definition makeRequest_cleanup (requestId : string) (w : World) : World :=
  match pendingRequests w !! requestId with
  | Some pendingRequest =>
      let w := clearTimeout (pr_timeoutId pendingRequest) w in
      let w :=
        match pr_loadingElement pendingRequest with
        | Some el => helpers.hideLoading requestId el w
        | None => w
        end in
      pending_delete requestId w
  | None => w
  end.

Definition toUpperCase (s : string) : string :=
  string_of_list_ascii
    (map (λ c,
            let n := N_of_ascii c in
            if ((97 <=? n) && (n <=? 122))%N then ascii_of_N (n - 32) else c)
         (list_ascii_of_string s)).

(** [showNotification(message, type)] *)
Definition showNotification (message kind : string) : M unit :=
  match querySelector env ".messages" with
  | Some _ => act (emit (ENotify kind message))
  | None => act (emit (EConsole "log" (toUpperCase kind +:+ ": " +:+ message)))
  end.

Definition showSuccess (message : string) : M unit :=
  showNotification message "success".

Definition showError (message : string) : M unit :=
  showNotification message "danger".

(** [delay(ms)], awaited *)
Definition delay (ms : option Z) : M unit := act (emit (EDelay ms)).

(** [config.retries > 0 && !error.message.includes("4")] *)
Definition should_retry (config : Options) (error : JsError) : bool :=
  match retries config with
  | Some n => (n >? 0) && negb (includes "4" (message error))
  | None => false
  end.

(** Lines 191-216: the [catch] block after its clean-up, the retry being
    the call [again]. *)
Definition makeRequest_catch (again : Options → M Result) (config : Options)
    (error : JsError) : M Result :=
  if String.eqb (name error) "AbortError" then
    act (emit (EConsole "log" "Request was aborted")) ;;;
    ret (failure_result "Request cancelled")
  else if should_retry config error then
    act (emit (EConsole "log"
                 ("Retrying request. Attempts left: " +:+
                  pretty (default 0 (retries config) - 1)))) ;;;
    delay (retryDelay config) ;;;
    again (with_retries config (default 0 (retries config) - 1))
  else
    when (default false (showErrors config)) (showError (message error)) ;;;
    call_callback (errorCallback config) EErrorCallback ;;;
    ret (failure_result (message error)).

(** [makeRequest(url, options)], with the depth of the retry recursion
    bounded by [fuel]. *)
Fixpoint makeRequest_fuel (fuel : nat) (url : string) (options : Options)
    : M Result :=
  match fuel with
  | O => λ w, (OutOfFuel, w)
  | S fuel =>
      let config := spread defaultConfig options in
      requestId <- generateRequestId ;;
      try_catch (makeRequest_try requestId url config)
        (λ error,
           act (makeRequest_cleanup requestId) ;;;
           makeRequest_catch (makeRequest_fuel fuel url) config error)
  end.

(** The retry budget of a call. *)
Definition budget (options : Options) : Z :=
  default 0 (retries (spread defaultConfig options)).

(** [makeRequest(url, options)]: the recursion is at most one deeper than
    the retry budget. *)
Definition makeRequest (url : string) (options : Options) : M Result :=
  makeRequest_fuel (S (Z.to_nat (budget options))) url options.

(** ** AjaxManager.submitForm *)

(** What [submitForm] reads off a form element. *)
Record Form := {
  (** [form.method] *)
  form_method : string;
  (** [form.action] *)
  form_action : string;
  (** [new FormData(form)] *)
  form_data : FormData;
  (** [form.querySelector('[type="submit"]')] *)
  submitButton : option Element;
  (** [form.hasAttribute("data-validate")] *)
  data_validate : bool;
  (** [form.checkValidity()] *)
  checkValidity : bool
}.

(** [value.prop] *)
Definition property (value : Json) (prop : string) : M (option Json) :=
  match value with
  | JNull => throw (NullPropertyError prop)
  | JObj fields => ret (assoc prop fields)
  | _ => ret None
  end.

(** [validateForm(form)] *)
Definition validateForm (form : Form) : M bool :=
  if negb (checkValidity form) then
    act (emit EReportValidity) ;;; ret false
  else ret true.

(** Lines 229-235: the configuration [submitForm] passes on. *)
Definition submit_config (form : Form) (options : Options) : Options :=
  spread
    {| timeout := None; retries := None; retryDelay := None;
       showLoading := None; showErrors := None; cancelPending := None;
       method := Some (or_else (Some (form_method form)) "POST");
       headers := None;
       data := Some (DataForm (form_data form));
       loadingElement := option_map ByElement (submitButton form);
       loadingText := Some "Submitting...";
       successCallback := None; errorCallback := None;
       opt_url := None; resetForm := None |}
    options.

(** [options.url || form.action || window.location.href] *)
Definition submit_url (form : Form) (options : Options) : string :=
  or_else (opt_url options)
    (or_else (Some (form_action form)) (locationHref env)).

(** Lines 250-276: what [submitForm] does with the result. *)
Definition submit_done (options : Options) (result : Result) : M unit :=
  if success result then
    let data := default JNull (result_data result) in
    redirect <- property data "redirect" ;;
    (if truthy redirect then
       act (emit (ENavigate (default JNull redirect)))
     else
       message <- property data "message" ;;
       if truthy message then showSuccess (js_string (default JNull message))
       else ret tt) ;;;
    when (not_false (resetForm options)) (act (emit EFormReset)) ;;;
    act (emit (EDispatchEvent "ajaxSuccess"))
  else
    act (emit (EDispatchEvent "ajaxError")).

(** [submitForm(form, options)] *)
Definition submitForm (form : Form) (options : Options) : M Result :=
  let config := submit_config form options in
  let url := submit_url form options in
  isValid <- (if data_validate form then validateForm form else ret true) ;;
  if negb isValid then ret (failure_result "Form validation failed")
  else
    result <- makeRequest url config ;;
    submit_done options result ;;;
    ret result.

(** ** AjaxManager.handleSearch and the debounced input *)

(** What [handleSearch] reads off a search form. *)
Record SearchForm := {
  (** [form.action] *)
  search_action : string;
  (** [form.getAttribute("data-search-url")] *)
  data_search_url : option string;
  (** [form.getAttribute("data-result-container")] *)
  data_result_container : option string
}.

Definition search_config : Options :=
  {| timeout := None; retries := None; retryDelay := None;
     showLoading := Some false; showErrors := Some false;
     cancelPending := None; method := Some "GET"; headers := None;
     data := None; loadingElement := None; loadingText := None;
     successCallback := None; errorCallback := None; opt_url := None;
     resetForm := None |}.

(** [handleSearch(form, query)] *)
Definition handleSearch (form : SearchForm) (query : string) : M unit :=
  let url := or_else (Some (search_action form)) (default "" (data_search_url form)) in
  let resultContainer :=
    querySelector env (default "null" (data_result_container form)) in
  match resultContainer with
  | None => ret tt
  | Some resultContainer =>
      if String.eqb url "" then ret tt
      else if String.eqb (trim query) "" then
        act (emit (ESetInnerHTML resultContainer ""))
      else
        result <- makeRequest (searchUrl env url query) search_config ;;
        if success result then
          let data := default JNull (result_data result) in
          match data with
          | JStr html => act (emit (ESetInnerHTML resultContainer html))
          | _ =>
              html <- property data "html" ;;
              if truthy html then
                act (emit (ESetInnerHTML resultContainer
                             (js_string (default JNull html))))
              else
                results <- property data "results" ;;
                if truthy results then
                  act (emit (ERenderResults resultContainer
                               (default JNull results)))
                else ret tt
          end ;;;
          act (emit (EDispatchEvent "searchComplete"))
        else ret tt
  end.

(** Runs the searches the debounce timer has released, one after the other. *)
Fixpoint run_searches (form : SearchForm) (queries : list string) : M unit :=
  match queries with
  | [] => ret tt
  | q :: rest => handleSearch form q ;;; run_searches form rest
  end.

End Manager.

(** ** The debounced search input ([setupSearchHandlers])

    The listener keeps one timer per input. Time is in milliseconds. *)
Record Debounce := {
  (** [e.target.value], read when the timer fires *)
  input_value : string;
  (** deadline of the timer [debounceTimer] names, while it is armed *)
  debounceTimer : option Z;
  (** armed timers that [clearTimeout] stopped *)
  timers_cancelled : nat;
  (** the [handleSearch(form, value)] calls made so far *)
  searches : list string
}.

Definition debounce_start : Debounce :=
  {| input_value := ""; debounceTimer := None; timers_cancelled := 0%nat;
     searches := [] |}.

(** The timer callback runs once its 300 ms are over. *)
Definition fire_due (now : Z) (d : Debounce) : Debounce :=
  match debounceTimer d with
  | Some deadline =>
      if deadline <=? now then
        {| input_value := input_value d; debounceTimer := None;
           timers_cancelled := timers_cancelled d;
           searches := searches d ++ [input_value d] |}
      else d
  | None => d
  end.

(** An [input] event at time [key.1] that leaves [key.2] in the field:
    [clearTimeout(debounceTimer)], then a new timer of 300 ms. *)
Definition on_input (d : Debounce) (key : Z * string) : Debounce :=
  let d := fire_due key.1 d in
  {| input_value := key.2;
     debounceTimer := Some (key.1 + 300);
     timers_cancelled :=
       match debounceTimer d with
       | Some _ => S (timers_cancelled d)
       | None => timers_cancelled d
       end;
     searches := searches d |}.

(** No more input: the armed timer fires. *)
Definition quiesce (d : Debounce) : Debounce :=
  match debounceTimer d with
  | Some deadline => fire_due deadline d
  | None => d
  end.

(** The searches a sequence of keystrokes sets off. *)
Definition typed (keys : list (Z * string)) : Debounce :=
  quiesce (foldl on_input debounce_start keys).

(** A search field: the keystrokes are debounced and the released queries
    are searched. *)
Definition search_session (env : Env) (form : SearchForm)
    (keys : list (Z * string)) : M unit :=
  run_searches env form (searches (typed keys)).

(** ** The registry under every mutation the manager makes *)

(** The statements of ajax.js that change [pendingRequests]: the prefix of
    [makeRequest] (line 140), the [delete] after a response (line 154), the
    clean-up of the [catch] block (line 188) and the two cancel methods. *)
Inductive RegistryOp :=
| OpBegin (requestId url : string) (config : Options)
| OpSettled (requestId : string)
| OpCleanup (requestId : string)
| OpCancelPending (target : string)
| OpCancelAll.

Definition apply_op (env : Env) (w : World) (op : RegistryOp) : World :=
  match op with
  | OpBegin requestId url config => (makeRequest_begin env requestId url config w).2
  | OpSettled requestId => pending_delete requestId w
  | OpCleanup requestId => makeRequest_cleanup requestId w
  | OpCancelPending target => cancelPendingRequest target w
  | OpCancelAll => cancelAllRequests w
  end.

Definition op_cancels (op : RegistryOp) : bool :=
  match op with
  | OpBegin _ _ config => cancels_pending config
  | _ => true
  end.

(** The entries of the registry recorded for a URL. *)
Definition entries_for (url : string) (w : World) : nat :=
  size (filter (λ kv, pr_url kv.2 = url) (pendingRequests w)).

(** * Vocabulary of the specification *)

(** ** Kinds of events *)

(** A kind of event that bookkeeping (timers, aborts, logging,
    notifications, callbacks) never produces. *)
Definition plain (p : Event → bool) : Prop :=
  ∀ e,
    match e with
    | EAbort _ | EClearTimeout _ | ESetTimeout _ _ | EConsole _ _
    | ENotify _ _ | ESuccessCallback | EErrorCallback => p e = false
    | _ => True
    end.

(** A plain kind that is no hiding of a loading indicator either. *)
Definition quiet (p : Event → bool) : Prop :=
  plain p ∧ ∀ k el, p (EHideLoading k el) = false.

(** A kind of event that only network calls, delays and page updates
    produce. *)
Definition calm (p : Event → bool) : Prop :=
  quiet p ∧ ∀ k el t, p (EShowLoading k el t) = false.

Definition has_loading (r : PendingRequest) : bool :=
  match pr_loadingElement r with Some _ => true | None => false end.

(** [signal.aborted] of a controller. *)
Definition aborted (c : nat) (w : World) : bool :=
  default false (controllers w !! c).

(** An interference that cancels the request [requestId] names. *)
Definition cancels (requestId : string) (entry : PendingRequest)
    (i : Interference) : bool :=
  match i with
  | TimerFires _ => false
  | CancelPending target => targets target requestId entry
  | CancelAll => true
  end.

(** No entry of the registry has the timer [t]. *)
Definition timer_unused (t : nat) (w : World) : Prop :=
  ∀ k r, pendingRequests w !! k = Some r → pr_timeoutId r ≠ t.

(** The request [requestId] names is in the registry with its timer armed,
    a timer no other entry has. *)
Definition armed (requestId : string) (entry : PendingRequest) (w : World)
    : Prop :=
  pendingRequests w !! requestId = Some entry ∧
  timers w !! pr_timeoutId entry = Some (pr_controller entry) ∧
  ∀ k r, k ≠ requestId → pendingRequests w !! k = Some r →
         pr_timeoutId r ≠ pr_timeoutId entry.

(** The request a call issues from [w] is cancelled while it is in flight:
    its timeout timer fires (the handle the timer gets being new to the
    registry), or one of the cancel methods reaches it. *)
Definition cancelled_in_flight (w : World) (requestId url : string)
    (during : list Interference) : Prop :=
  (timer_unused (S (next_handle w)) w ∧
   TimerFires (S (next_handle w)) ∈ during) ∨
  CancelPending url ∈ during ∨ CancelPending requestId ∈ during ∨
  CancelAll ∈ during.

(** The shape of a result object. *)
Definition well_formed_result (r : Result) : Prop :=
  if success r then is_Some (result_data r) ∧ is_Some (result_response r)
  else is_Some (error r).

(** The error text of a failure that is not retried. *)
Definition final_message (e : JsError) : string :=
  if String.eqb (name e) "AbortError" then "Request cancelled" else message e.

(** ** The stages of one attempt *)

Section Stages.

Variable env : Env.

(** The world after line 92. *)
Definition after_cancel (url : string) (config : Options) (w : World) : World :=
  if cancels_pending config then cancelPendingRequest url w else w.

(** The entry line 140 stores. *)
Definition entry_of (url : string) (config : Options) (w : World) : PendingRequest :=
  {| pr_controller := next_handle w; pr_url := url;
     pr_timeoutId := S (next_handle w);
     pr_loadingElement := resolve_loading env config |}.

(** The world when [makeRequest] reaches its [await]. *)
Definition begun (requestId url : string) (config : Options) (w : World) : World :=
  (makeRequest_begin env requestId url config w).2.

(** The world after lines 119-130. *)
Definition shown (requestId : string) (config : Options) (w : World) : World :=
  match resolve_loading env config with
  | Some el => helpers.showLoading requestId el (loadingText config) w
  | None => w
  end.

(** What [request] hands to [fetch]. *)
Definition sent (config : Options) (w : World) : RequestOptions :=
  let ro := with_signal (requestOptions_of config) (next_handle w) in
  {| ro_method := ro_method ro;
     ro_headers :=
       ro_headers ro ∪
       {[ "Content-Type" := "application/json";
          "X-CSRFToken" := csrfToken env ]};
     ro_body := ro_body ro;
     ro_signal := ro_signal ro |}.

(** The world when the [fetch] of the attempt settles. *)
Definition in_flight (requestId url : string) (config : Options) (w : World)
    : World :=
  foldl interfere
    (emit (EFetch url (sent config w)) (begun requestId url config w))
    (during (network env (fetches w))).

(** How [request] ends when the [fetch] fails or the status is not ok. *)
Definition request_failed (e : JsError) (w : World) : Completion Result * World :=
  (Throw e, emit (EConsole "error" ("Request failed: " +:+ message e)) w).

(** Lines 150-179, once a response with [ok] has arrived. *)
Definition finish (requestId : string) (config : Options) (t : nat)
    (response : Response) : M Result :=
  act (clearTimeout t) ;;;
  act (pending_delete requestId) ;;;
  match resolve_loading env config with
  | Some el => act (helpers.hideLoading requestId el)
  | None => ret tt
  end ;;;
  data <- parse_body response ;;
  call_callback (successCallback config) ESuccessCallback ;;;
  ret (success_result data response).

(** 1 when the call shows a loading indicator, 0 otherwise. *)
Definition shows_one (config : Options) : nat :=
  match resolve_loading env config with Some _ => 1%nat | None => 0%nat end.

End Stages.

(** ** Entries, indicators and the debounced input *)

(** An entry is held until some interference releases it, hiding its
    indicator and aborting its controller on the way. *)
Definition held (k : string) (entry : PendingRequest) (h : nat) (w : World)
    : Prop :=
  pendingRequests w !! k = Some entry ∧ count (is_hide k) w = h.

(** The entry was cancelled: see [held]. *)
Definition released (k : string) (entry : PendingRequest) (h : nat) (w : World)
    : Prop :=
  pendingRequests w !! k = None ∧
  aborted (pr_controller entry) w = true ∧
  count (is_hide k) w = (h + if has_loading entry then 1 else 0)%nat.

(** A key the call leaves alone. *)
Definition untouched (k : string) (w w' : World) : Prop :=
  pendingRequests w' !! k = None ∧
  count (is_hide k) w' = count (is_hide k) w ∧
  count (is_show k) w' = count (is_show k) w.

(** The request has let go of everything: its entry is gone and its
    indicator, if it showed one, was hidden once. *)
Definition settled (k : string) (n : nat) (w w' : World) : Prop :=
  pendingRequests w' !! k = None ∧
  count (is_hide k) w' = (count (is_hide k) w + n)%nat ∧
  count (is_show k) w' = (count (is_show k) w + n)%nat.

(** No two entries of the registry are for the same URL. *)
Definition one_per_url (w : World) : Prop :=
  ∀ k1 k2 r1 r2,
    pendingRequests w !! k1 = Some r1 →
    pendingRequests w !! k2 = Some r2 →
    pr_url r1 = pr_url r2 → k1 = k2.

(** The registry of [w'] has no entry that [w] has not. *)
Definition shrinks (w w' : World) : Prop :=
  ∀ k r, pendingRequests w' !! k = Some r → pendingRequests w !! k = Some r.

(** Every keystroke arrives before the timer of the one before it is due. *)
Fixpoint rapid (keys : list (Z * string)) : Prop :=
  match keys with
  | k1 :: (k2 :: _) as rest => k1.1 ≤ k2.1 < k1.1 + 300 ∧ rapid rest
  | _ => True
  end.

(** The value the last keystroke leaves in the field. *)
Definition final_query (keys : list (Z * string)) : string :=
  default "" (snd <$> last keys).

(** Only network calls are of this kind. *)
Definition network_only (p : Event → bool) : Prop :=
  ∀ e, p e = true → is_fetch e = true.

(** A network call to a given URL. *)
Definition is_fetch_of (url : string) (e : Event) : bool :=
  match e with EFetch u _ => String.eqb u url | _ => false end.

(** * Pages to run the manager on *)

(** Request ids, one per call. *)
Definition request_ids (k : nat) : string := "req_" +:+ pretty k.

(** A response with a status and no body to speak of. *)
Definition status_response (s : Z) : Response :=
  {| status := s; statusText := ""; contentType := Some "text/html";
     text := ""; json := inl (Error "Unexpected end of JSON input") |}.

(** A 200 response with a JSON body. *)
Definition json_response (v : Json) : Response :=
  {| status := 200; statusText := "OK";
     contentType := Some "application/json"; text := ""; json := inr v |}.

(** A network that answers every call the same way, undisturbed. *)
Definition always (r : Response) (k : nat) : Exchange :=
  {| during := []; settles := Resolves r |}.

(** A network on which somebody cancels another URL and then the timeout
    timer of the first request fires. *)
Definition first_times_out (k : nat) : Exchange :=
  {| during := [CancelPending "/api/other/"; TimerFires 1];
     settles := Resolves (status_response 200) |}.

(** A network that answers 500 twice and then 200 with a JSON body. *)
Definition recovers (v : Json) (k : nat) : Exchange :=
  {| during := [];
     settles :=
       Resolves (if (k <? 2)%nat then status_response 500 else json_response v) |}.

(** [{ retries: 2, timeout: 5000 }] *)
Definition two_retries : Options :=
  {| timeout := Some 5000; retries := Some 2; retryDelay := None;
     showLoading := None; showErrors := None; cancelPending := None;
     method := None; headers := None; data := None; loadingElement := None;
     loadingText := None; successCallback := None; errorCallback := None;
     opt_url := None; resetForm := None |}.

(** A network on which everything is cancelled while the first request is
    in flight. *)
Definition first_is_cancelled (k : nat) : Exchange :=
  {| during := [CancelAll]; settles := Resolves (status_response 200) |}.

(** A page with a results container and no message container. *)
Definition page (net : nat → Exchange) : Env :=
  {| idgen := request_ids;
     network := net;
     querySelector := λ sel, if String.eqb sel "#results" then Some 1%nat else None;
     csrfToken := "csrf";
     locationHref := "https://crowdfunding.example/projects/";
     searchUrl := λ url q, url +:+ "?q=" +:+ q |}.

(** A project form with a submit button and one required field. *)
Definition project_form (validate valid : bool) : Form :=
  {| form_method := "post"; form_action := "/projects/create/";
     form_data := [("title", "")]; submitButton := Some 2%nat;
     data_validate := validate; checkValidity := valid |}.

(** The search form of the project list. *)
Definition project_search : SearchForm :=
  {| search_action := "/projects/search/"; data_search_url := None;
     data_result_container := Some "#results" |}.

(** Three keystrokes within 300 ms. *)
Definition typing_cat : list (Z * string) :=
  [(0, "c"); (100, "ca"); (200, "cat")].

(** Options that put a loading indicator on an element. *)
Definition with_indicator (el : Element) : Options :=
  {| timeout := None; retries := None; retryDelay := None;
     showLoading := None; showErrors := None; cancelPending := None;
     method := None; headers := None; data := None;
     loadingElement := Some (ByElement el); loadingText := None;
     successCallback := None; errorCallback := None; opt_url := None;
     resetForm := None |}.

(** The payload of a response that redirects to the thanks page. *)
Definition thanks : list (string * Json) := [("redirect", JStr "/thanks/")].

(** * The rest of the manager and of helpers.js

    What the dispatcher above does not need: the other methods of
    [AjaxManager] ([loadContent], [renderSearchResults], [destroy]) and
    the helpers of [static/js/utils/helpers.js] that work on strings,
    timers, elements and the local storage.

    A [string] is a sequence of code units; the string functions below
    are those of JavaScript on strings whose code units fit a byte. *)

(** The double quote and the line feed of a template literal. *)
Definition dq : string := String (ascii_of_nat 34) "".
Definition nl : string := String (ascii_of_nat 10) "".

Fixpoint spaces (n : nat) : string :=
  match n with
  | O => ""
  | S n => String " " (spaces n)
  end.

(** [`${v}`] of a value that may be [undefined]. *)
Definition template (v : option Json) : string :=
  match v with
  | Some j => js_string j
  | None => "undefined"
  end.

(** [value.prop] of a value that is not [null]. *)
Definition field_of (value : Json) (prop : string) : option Json :=
  match value with
  | JObj fields => assoc prop fields
  | _ => None
  end.

(** The [TypeError] of a call of something that is no function. *)
Definition NotAFunction (what : string) : JsError :=
  {| name := "TypeError"; message := what +:+ " is not a function" |}.

Definition is_inner_html (container : Element) (e : Event) : bool :=
  match e with
  | ESetInnerHTML c _ => Nat.eqb c container
  | _ => false
  end.

Definition is_dispatch (type : string) (e : Event) : bool :=
  match e with
  | EDispatchEvent t => String.eqb t type
  | _ => false
  end.

(** [array.map(f)] with an [f] that may throw. *)
Fixpoint mapM {A B} (f : A → M B) (l : list A) : M (list B) :=
  match l with
  | [] => ret []
  | x :: rest =>
      y <- f x ;;
      ys <- mapM f rest ;;
      ret (y :: ys)
  end.

Section Content.

Variable env : Env.

(** ** AjaxManager.loadContent *)

(** [typeof target === "string" ? document.querySelector(target) : target];
    a [null] target is [None]. *)
Definition resolve_target (target : option LoadingTarget) : option Element :=
  match target with
  | Some (BySelector sel) => querySelector env sel
  | Some (ByElement el) => Some el
  | None => None
  end.

(** Lines 376-380: the configuration [loadContent] passes on. *)
Definition content_config (targetElement : Element) (options : Options)
    : Options :=
  spread
    {| timeout := None; retries := None; retryDelay := None;
       showLoading := None; showErrors := None; cancelPending := None;
       method := None; headers := None; data := None;
       loadingElement := Some (ByElement targetElement);
       loadingText := Some "Loading...";
       successCallback := None; errorCallback := None;
       opt_url := None; resetForm := None |}
    options.

(** Lines 384-397: what [loadContent] does with the result. *)
Definition content_done (targetElement : Element) (url : string)
    (result : Result) : M unit :=
  if success result then
    let data := default JNull (result_data result) in
    match data with
    | JStr html => act (emit (ESetInnerHTML targetElement html))
    | _ =>
        html <- property data "html" ;;
        if truthy html then
          act (emit (ESetInnerHTML targetElement
                       (js_string (default JNull html))))
        else ret tt
    end ;;;
    act (emit (EDispatchEvent "contentLoaded"))
  else ret tt.

(** [loadContent(url, target, options)] *)
Definition loadContent (url : string) (target : option LoadingTarget)
    (options : Options) : M Result :=
  match resolve_target target with
  | None =>
      act (emit (EConsole "error" "Target element not found")) ;;;
      ret (failure_result "Target element not found")
  | Some targetElement =>
      let config := content_config targetElement options in
      result <- makeRequest env url config ;;
      content_done targetElement url result ;;;
      ret result
  end.

(** ** AjaxManager.renderSearchResults *)

(** ['<div class="alert alert-info">No results found.</div>'] *)
Definition no_results : string :=
  "<div class=" +:+ dq +:+ "alert alert-info" +:+ dq
  +:+ ">No results found.</div>".

(** Lines 344-354: the template of one result, filled in. *)
Definition result_html (url title description meta : option Json) : string :=
  nl +:+ spaces 12 +:+ "<div class=" +:+ dq +:+ "search-result" +:+ dq
  +:+ ">" +:+ nl +:+ spaces 16 +:+ "<h5><a href=" +:+ dq
  +:+ (if truthy url then template url else "#")
  +:+ dq +:+ ">" +:+ template title +:+ "</a></h5>"
  +:+ nl +:+ spaces 16
  +:+ (if truthy description
       then "<p>" +:+ template description +:+ "</p>" else "")
  +:+ nl +:+ spaces 16
  +:+ (if truthy meta
       then "<small class=" +:+ dq +:+ "text-muted" +:+ dq +:+ ">"
            +:+ template meta +:+ "</small>"
       else "")
  +:+ nl +:+ spaces 12 +:+ "</div>" +:+ nl +:+ spaces 8.

(** The arrow function [map] is given. *)
Definition render_result (result : Json) : M string :=
  url <- property result "url" ;;
  title <- property result "title" ;;
  description <- property result "description" ;;
  meta <- property result "meta" ;;
  ret (result_html url title description meta).

(** [results.length === 0] *)
Definition length_is_zero (results : Json) : M bool :=
  match results with
  | JArr items => ret (Nat.eqb (length items) 0)
  | JStr s => ret (String.eqb s "")
  | JNull => throw (NullPropertyError "length")
  | JObj fields =>
      ret match assoc "length" fields with
          | Some (JNum 0) => true
          | _ => false
          end
  | _ => ret false
  end.

(** [renderSearchResults(container, results)]: only an array has a [map]
    to call. *)
Definition renderSearchResults (container : Element) (results : Json)
    : M unit :=
  empty <- length_is_zero results ;;
  if empty then act (emit (ESetInnerHTML container no_results))
  else
    match results with
    | JArr items =>
        rendered <- mapM render_result items ;;
        act (emit (ESetInnerHTML container (String.concat "" rendered)))
    | _ => throw (NotAFunction "results.map")
    end.

End Content.

(** A result as the search view sends it: an object whose [url], [title],
    [description] and [meta] are texts where it has them. (The template
    prints a text as it is; what it makes of a number or of an object is
    the conversion of JavaScript, which [js_string] follows for the
    integers that a double holds exactly and for objects without a
    [toString] of their own only.) *)
Definition is_text (v : option Json) : bool :=
  match v with
  | None | Some (JStr _) => true
  | _ => false
  end.

Definition textual (item : Json) : bool :=
  match item with
  | JObj fields =>
      forallb (λ prop, is_text (assoc prop fields))
        ["url"; "title"; "description"; "meta"]
  | _ => false
  end.

(** ** AjaxManager.destroy *)

(** [destroy()] *)
Definition destroy (w : World) : World := cancelAllRequests w.

(** A network call that carries a [FormData] body under another content
    type than the one [request] puts on every call. *)
Definition mislabelled_form (e : Event) : bool :=
  match e with
  | EFetch _ ro =>
      match ro_body ro with
      | Some (BodyForm _) =>
          negb (bool_decide
                  (ro_headers ro !! "Content-Type" = Some "application/json"))
      | _ => false
      end
  | _ => false
  end.

(** A network call with a body. *)
Definition carries_body (e : Event) : bool :=
  match e with
  | EFetch _ ro =>
      match ro_body ro with
      | Some _ => true
      | None => false
      end
  | _ => false
  end.

(** What [submitForm], [loadContent] and [handleSearch] do around
    their call of [makeRequest]: a navigation, a form reset, a validity
    report, a DOM event, a result written into an element. ([makeRequest]
    changes the page too, through the loading indicator and through the
    notification of an error: these are the events [EShowLoading],
    [EHideLoading] and [ENotify], which are not of this kind.) *)
Definition handles_result (e : Event) : bool :=
  match e with
  | ENavigate _ | EFormReset | EReportValidity | EDispatchEvent _
  | ESetInnerHTML _ _ | ERenderResults _ _ => true
  | _ => false
  end.

(** A network call that does not carry the header [h] with the value
    [v]. *)
Definition lacks_header (h v : string) (e : Event) : bool :=
  match e with
  | EFetch _ ro => negb (bool_decide (ro_headers ro !! h = Some v))
  | _ => false
  end.

(** A network call that is not tied to an abort controller. *)
Definition lacks_signal (e : Event) : bool :=
  match e with
  | EFetch _ ro => match ro_signal ro with Some _ => false | None => true end
  | _ => false
  end.

(** ** The loading indicator of an element *)

(** The indicator of the element is shown, or hidden, for whatever
    request. *)
Definition is_show_on (el : Element) (e : Event) : bool :=
  match e with
  | EShowLoading _ el' _ => Nat.eqb el' el
  | _ => false
  end.

Definition is_hide_on (el : Element) (e : Event) : bool :=
  match e with
  | EHideLoading _ el' => Nat.eqb el' el
  | _ => false
  end.

(** The indicator of the element is hidden for another request than
    [k]. *)
Definition is_hide_for_other (k : string) (el : Element) (e : Event) : bool :=
  match e with
  | EHideLoading k' el' => Nat.eqb el' el && negb (String.eqb k' k)
  | _ => false
  end.

(** The indicator of another element is hidden for the request [k]. *)
Definition is_hide_elsewhere (k : string) (el : Element) (e : Event) : bool :=
  match e with
  | EHideLoading k' el' => String.eqb k' k && negb (Nat.eqb el' el)
  | _ => false
  end.

(** No pending request has its indicator on the element. *)
Definition indicator_free (el : Element) (w : World) : Prop :=
  ∀ k r, pendingRequests w !! k = Some r → pr_loadingElement r ≠ Some el.

(** A kind of event that hiding the indicator of a pending request is
    not. *)
Definition spares (p : Event → bool) (w : World) : Prop :=
  ∀ k r el,
    pendingRequests w !! k = Some r → pr_loadingElement r = Some el →
    p (EHideLoading k el) = false.

(** The request ids the page hands out from now on are new to the
    registry and differ from each other. *)
Definition fresh_ids (env : Env) (w : World) : Prop :=
  (∀ j, (ids_drawn w ≤ j)%nat → pendingRequests w !! idgen env j = None) ∧
  (∀ i j, (ids_drawn w ≤ i)%nat → (ids_drawn w ≤ j)%nat →
          idgen env i = idgen env j → i = j).

(** What has happened in [w'] since [w]. *)
Definition since (w w' : World) : list Event :=
  drop (length (trace w)) (trace w').

(** [w'] is a later state of the page than [w]: nothing that has happened
    is forgotten. *)
Definition extends (w w' : World) : Prop :=
  trace w' = (trace w ++ since w w')%list.

(** A retry delay of another length than [ms]. *)
Definition is_delay_other_than (ms : option Z) (e : Event) : bool :=
  match e with
  | EDelay ms' => negb (bool_decide (ms' = ms))
  | _ => false
  end.

(** ** helpers.js: regular expressions and phone numbers *)

(** The regular expressions helpers.js tests whole strings against:
    classes of characters, sequence and alternative. *)
Inductive Regex :=
| RNever
| REmpty
| RClass (p : ascii → bool)
| RSeq (r s : Regex)
| RAlt (r s : Regex).

Fixpoint nullable (r : Regex) : bool :=
  match r with
  | RNever => false
  | REmpty => true
  | RClass _ => false
  | RSeq r s => nullable r && nullable s
  | RAlt r s => nullable r || nullable s
  end.

(** What is left to match after the character [c]. *)
Fixpoint derive (c : ascii) (r : Regex) : Regex :=
  match r with
  | RNever => RNever
  | REmpty => RNever
  | RClass p => if p c then REmpty else RNever
  | RSeq r s =>
      if nullable r then RAlt (RSeq (derive c r) s) (derive c s)
      else RSeq (derive c r) s
  | RAlt r s => RAlt (derive c r) (derive c s)
  end.

(** [/^r$/.test(s)] *)
Fixpoint matches (r : Regex) (s : string) : bool :=
  match s with
  | EmptyString => nullable r
  | String c rest => matches (derive c r) rest
  end.

Definition RChar (c : ascii) : Regex := RClass (Ascii.eqb c).

Fixpoint RStr (s : string) : Regex :=
  match s with
  | EmptyString => REmpty
  | String c rest => RSeq (RChar c) (RStr rest)
  end.

(** [r{n}] *)
Fixpoint RTimes (n : nat) (r : Regex) : Regex :=
  match n with
  | O => REmpty
  | S n => RSeq r (RTimes n r)
  end.

(** [[0-9]], and [\d] *)
Definition is_digit (c : ascii) : bool :=
  let n := N_of_ascii c in
  ((48 <=? n) && (n <=? 57))%N.

(** [/^(\+201|01|1)[0-9]{9}$/] *)
Definition phoneRegex : Regex :=
  RSeq (RAlt (RStr "+201") (RAlt (RStr "01") (RStr "1")))
       (RTimes 9 (RClass is_digit)).

(** [validateEgyptianPhone(phone)] *)
Definition validateEgyptianPhone (phone : string) : bool :=
  matches phoneRegex phone.

(** [s.replace(/[class]/g, "")] *)
Fixpoint remove_all (class : ascii → bool) (s : string) : string :=
  match s with
  | EmptyString => EmptyString
  | String c rest =>
      if class c then remove_all class rest
      else String c (remove_all class rest)
  end.

(** [\D] *)
Definition non_digit (c : ascii) : bool := negb (is_digit c).

(** [s.substring(n)] *)
Fixpoint substring_from (n : nat) (s : string) : string :=
  match n, s with
  | O, _ => s
  | S n, String _ rest => substring_from n rest
  | S _, EmptyString => EmptyString
  end.

(** [formatEgyptianPhone(phone)] *)
Definition formatEgyptianPhone (phone : string) : string :=
  let cleaned := remove_all non_digit phone in
  if Nat.eqb (String.length cleaned) 10 && String.prefix "1" cleaned then
    "+20" +:+ cleaned
  else if Nat.eqb (String.length cleaned) 11 && String.prefix "01" cleaned then
    "+20" +:+ substring_from 1 cleaned
  else if Nat.eqb (String.length cleaned) 13 && String.prefix "201" cleaned then
    "+" +:+ cleaned
  else phone.

(** What a regular expression stands for. *)
Fixpoint lang (r : Regex) (s : string) : Prop :=
  match r with
  | RNever => False
  | REmpty => s = ""
  | RClass p => ∃ c, s = String c "" ∧ p c = true
  | RSeq a b => ∃ s1 s2, s = s1 +:+ s2 ∧ lang a s1 ∧ lang b s2
  | RAlt a b => lang a s ∨ lang b s
  end.

(** A string of digits. *)
Fixpoint all_digits (s : string) : bool :=
  match s with
  | EmptyString => true
  | String c rest => is_digit c && all_digits rest
  end.

(** ** helpers.js: debounce and throttle

    Time is in milliseconds. A call is the time it is made at and its
    arguments; a timer that is due when a call arrives has run before
    it. *)

Section Timing.

Context {A : Type}.

(** What a debounced function keeps: the timer [timeout] names while it
    is armed, with the time it is due and the arguments its [later]
    closed over, and the calls of [func] made so far. *)
Record Debounced := {
  db_timeout : option (Z * A);
  db_invoked : list (Z * A)
}.

Definition debounce_new : Debounced :=
  {| db_timeout := None; db_invoked := [] |}.

(** The timer callback [later]. *)
Definition later (immediate : bool) (d : Debounced) : Debounced :=
  match db_timeout d with
  | Some (due, args) =>
      {| db_timeout := None;
         db_invoked :=
           if negb immediate then db_invoked d ++ [(due, args)]
           else db_invoked d |}
  | None => d
  end.

Definition run_due (immediate : bool) (now : Z) (d : Debounced) : Debounced :=
  match db_timeout d with
  | Some (due, _) => if due <=? now then later immediate d else d
  | None => d
  end.

(** One call of the function [debounce(func, wait, immediate)] returns. *)
Definition debounce (wait : Z) (immediate : bool) (d : Debounced)
    (call : Z * A) : Debounced :=
  let d := run_due immediate call.1 d in
  let callNow :=
    immediate && match db_timeout d with Some _ => false | None => true end in
  {| db_timeout := Some (call.1 + Z.max 0 wait, call.2);
     db_invoked := if callNow then db_invoked d ++ [call] else db_invoked d |}.

(** The calls of [func] that a sequence of calls of the debounced function
    leads to, the last timer included. *)
Definition debounced (wait : Z) (immediate : bool) (calls : list (Z * A))
    : list (Z * A) :=
  db_invoked (later immediate (foldl (debounce wait immediate) debounce_new calls)).

(** What a throttled function keeps: until when [inThrottle] is set, and
    the calls of [func] made so far. *)
Record Throttled := {
  inThrottle : option Z;
  th_invoked : list (Z * A)
}.

Definition throttle_new : Throttled :=
  {| inThrottle := None; th_invoked := [] |}.

(** One call of the function [throttle(func, limit)] returns. *)
Definition throttle (limit : Z) (t : Throttled) (call : Z * A) : Throttled :=
  let open :=
    match inThrottle t with
    | Some due => due <=? call.1
    | None => true
    end in
  if open then
    {| inThrottle := Some (call.1 + Z.max 0 limit);
       th_invoked := th_invoked t ++ [call] |}
  else t.

Definition throttled (limit : Z) (calls : list (Z * A)) : list (Z * A) :=
  th_invoked (foldl (throttle limit) throttle_new calls).

(** The calls come in the order of their times. *)
Fixpoint in_order (calls : list (Z * A)) : Prop :=
  match calls with
  | c1 :: (c2 :: _) as rest => c1.1 ≤ c2.1 ∧ in_order rest
  | _ => True
  end.

(** Every call comes less than [gap] after the one before it. *)
Fixpoint burst (gap : Z) (calls : list (Z * A)) : Prop :=
  match calls with
  | c1 :: (c2 :: _) as rest => c1.1 ≤ c2.1 < c1.1 + gap ∧ burst gap rest
  | _ => True
  end.

(** Any two calls that follow each other are at least [gap] apart. *)
Fixpoint spaced (gap : Z) (calls : list (Z * A)) : Prop :=
  match calls with
  | c1 :: (c2 :: _) as rest => c1.1 + gap ≤ c2.1 ∧ spaced gap rest
  | _ => True
  end.

(** What holds of a debounced function between two calls, the last of
    which came at [now]: once the function has been called its timer is
    armed. *)
Definition debounce_paced (wait : Z) (now : Z) (d : Debounced) : Prop :=
  spaced (Z.max 0 wait) (db_invoked d) ∧
  match db_timeout d with
  | Some (due, _) =>
      ∀ l, last (db_invoked d) = Some l →
           l.1 ≤ now ∧ l.1 + Z.max 0 wait ≤ due
  | None => db_invoked d = []
  end.

(** The same for a throttled function. *)
Definition throttle_paced (limit : Z) (t : Throttled) : Prop :=
  spaced (Z.max 0 limit) (th_invoked t) ∧
  match inThrottle t with
  | Some due =>
      ∀ l, last (th_invoked t) = Some l → l.1 + Z.max 0 limit ≤ due
  | None => th_invoked t = []
  end.

End Timing.

Arguments Debounced : clear implicits.
Arguments Throttled : clear implicits.

(** ** helpers.js: the loading state of an element *)

(** What [showLoading] and [hideLoading] read and write of an element. *)
Record Button := {
  disabled : bool;
  classList : list string;
  (** [element.dataset.originalText] *)
  originalText : option string;
  textContent : string
}.

(** [classList.add(token)] *)
Definition classList_add (token : string) (l : list string) : list string :=
  if existsb (String.eqb token) l then l else l ++ [token].

(** [classList.remove(token)] *)
Definition classList_remove (token : string) (l : list string) : list string :=
  List.filter (λ t, negb (String.eqb token t)) l.

Module element.

(** [showLoading(element, text = "Loading...")] *)
Definition showLoading (el : Button) (text : option string) : Button :=
  {| disabled := true;
     classList := classList_add "btn-loading" (classList el);
     originalText := Some (textContent el);
     textContent := default "Loading..." text |}.

(** [hideLoading(element)] *)
Definition hideLoading (el : Button) : Button :=
  let classes := classList_remove "btn-loading" (classList el) in
  match originalText el with
  | Some original =>
      if negb (String.eqb original "") then
        {| disabled := false; classList := classes;
           originalText := None; textContent := original |}
      else
        {| disabled := false; classList := classes;
           originalText := originalText el; textContent := textContent el |}
  | None =>
      {| disabled := false; classList := classes;
         originalText := None; textContent := textContent el |}
  end.

End element.

(** ** helpers.js: storage

    [localStorage] maps keys to texts. Reading and writing throw when the
    storage is locked, and writing throws when it is full. [JSON.parse]
    and [JSON.stringify] are the browser's. *)

Record Storage := {
  items : gmap string string;
  locked : bool;
  full : bool;
  (** what [console.error] was called with *)
  logged : list string
}.

Definition SecurityError : JsError :=
  {| name := "SecurityError"; message := "The operation is insecure." |}.

Definition QuotaExceededError : JsError :=
  {| name := "QuotaExceededError"; message := "The quota has been exceeded." |}.

Definition set_items (m : gmap string string) (s : Storage) : Storage :=
  {| items := m; locked := locked s; full := full s; logged := logged s |}.

(** [console.error(what, error)] *)
Definition log_error (what : string) (s : Storage) : Storage :=
  {| items := items s; locked := locked s; full := full s;
     logged := logged s ++ [what] |}.

(** [localStorage.getItem(key)] *)
Definition getItem (key : string) (s : Storage) : JsError + option string :=
  if locked s then inl SecurityError else inr (items s !! key).

(** [localStorage.setItem(key, value)] *)
Definition setItem (key value : string) (s : Storage) : JsError + Storage :=
  if locked s then inl SecurityError
  else if full s then inl QuotaExceededError
  else inr (set_items (<[key := value]> (items s)) s).

(** [localStorage.removeItem(key)] *)
Definition removeItem (key : string) (s : Storage) : JsError + Storage :=
  if locked s then inl SecurityError
  else inr (set_items (delete key (items s)) s).

(** [localStorage.clear()] *)
Definition clear_items (s : Storage) : JsError + Storage :=
  if locked s then inl SecurityError else inr (set_items ∅ s).

Section StorageWrapper.

Variable JSON_parse : string → JsError + Json.
Variable JSON_stringify : Json → string.

(** [storage.get(key, defaultValue = null)] *)
Definition storage_get (key : string) (defaultValue : Json) (s : Storage)
    : Json * Storage :=
  match getItem key s with
  | inr item =>
      if negb (String.eqb (default "" item) "") then
        match JSON_parse (default "" item) with
        | inr value => (value, s)
        | inl error =>
            (defaultValue, log_error "Error reading from localStorage:" s)
        end
      else (defaultValue, s)
  | inl error => (defaultValue, log_error "Error reading from localStorage:" s)
  end.

(** [storage.set(key, value)]; the value [undefined] is [None], which
    [JSON.stringify] turns into [undefined] and [setItem] into a text. *)
Definition storage_set (key : string) (value : option Json) (s : Storage)
    : bool * Storage :=
  let text :=
    match value with
    | Some v => JSON_stringify v
    | None => "undefined"
    end in
  match setItem key text s with
  | inr s' => (true, s')
  | inl error => (false, log_error "Error writing to localStorage:" s)
  end.

(** [storage.remove(key)] *)
Definition storage_remove (key : string) (s : Storage) : bool * Storage :=
  match removeItem key s with
  | inr s' => (true, s')
  | inl error => (false, log_error "Error removing from localStorage:" s)
  end.

(** [storage.clear()] *)
Definition storage_clear (s : Storage) : bool * Storage :=
  match clear_items s with
  | inr s' => (true, s')
  | inl error => (false, log_error "Error clearing localStorage:" s)
  end.

End StorageWrapper.

(** ** helpers.js: the CSRF token *)

(** [s.split(sep)] for a separator that is not empty: [piece] is what has
    been read of the current piece, [skip] what is left of a separator
    that has been found. *)
Fixpoint split_go (sep : string) (skip : nat) (piece : string) (s : string)
    : list string :=
  match s with
  | EmptyString => [piece]
  | String c rest =>
      match skip with
      | S k => split_go sep k piece rest
      | O =>
          if String.prefix sep s then
            piece :: split_go sep (String.length sep - 1) "" rest
          else split_go sep 0 (piece +:+ String c "") rest
      end
  end.

Definition split (sep s : string) : list string := split_go sep 0 "" s.

(** What the helpers read of the document: the value of the input named
    csrfmiddlewaretoken, if there is one, and [document.cookie]. *)
Record Document := {
  csrfmiddlewaretoken : option string;
  cookie : string
}.

(** [getCSRFToken()] *)
Definition getCSRFToken (doc : Document) : string :=
  match csrfmiddlewaretoken doc with
  | Some value => value
  | None => ""
  end.

(** [getCSRFTokenFromCookie()] *)
Definition getCSRFTokenFromCookie (doc : Document) : string :=
  let cookieValue :=
    match List.find (String.prefix "csrftoken=") (split "; " (cookie doc)) with
    | Some row => split "=" row !! 1%nat
    | None => None
    end in
  or_else cookieValue "".

(** [setupCSRF()], on a page without jQuery: the token it returns. *)
Definition setupCSRF (doc : Document) : string :=
  or_else (Some (getCSRFToken doc)) (getCSRFTokenFromCookie doc).

(** [document.cookie] of a cookie jar. *)
Definition cookie_of (jar : list (string * string)) : string :=
  String.concat "; " (map (λ c, c.1 +:+ "=" +:+ c.2) jar).

(** The string has no character [c]. *)
Fixpoint free_of (c : ascii) (s : string) : bool :=
  match s with
  | EmptyString => true
  | String c' rest => negb (Ascii.eqb c c') && free_of c rest
  end.

(** The value of the first cookie of a name. *)
Fixpoint first_cookie (name : string) (jar : list (string * string))
    : option string :=
  match jar with
  | [] => None
  | (n, v) :: rest => if String.eqb n name then Some v else first_cookie name rest
  end.

(** A cookie that can be written down: no [;] and no [=] in its name and
    in its value. *)
Definition plain_cookie (c : string * string) : Prop :=
  free_of ";" c.1 = true ∧ free_of "=" c.1 = true ∧
  free_of ";" c.2 = true ∧ free_of "=" c.2 = true.

(** ** main.js: CrowdFundingApp.toggleProjectFavorite *)

(** [classList.toggle(token)] *)
Definition classList_toggle (token : string) (l : list string) : list string :=
  if existsb (String.eqb token) l then classList_remove token l
  else l ++ [token].

(** [classList.contains(token)] *)
Definition classList_contains (token : string) (l : list string) : bool :=
  existsb (String.eqb token) l.

(** The favourite button of a project card: what [showLoading],
    [hideLoading] and the method read and write of it. *)
Record FavoriteButton := {
  fav_element : Element;
  (** [btn.dataset.projectId] *)
  projectId : option string;
  (** its loading state, its classes and its text *)
  fav_button : Button;
  (** the classes of [btn.querySelector("i")], when the button has such a
      child *)
  fav_icon : option (list string)
}.

(** [showLoading(btn, text)]: the assignment to [textContent] replaces the
    children of the button, the icon among them. *)
Definition fav_showLoading (text : string) (btn : FavoriteButton)
    : FavoriteButton :=
  {| fav_element := fav_element btn;
     projectId := projectId btn;
     fav_button := element.showLoading (fav_button btn) (Some text);
     fav_icon := None |}.

(** [hideLoading(btn)]: [textContent] is assigned when there is an
    original text to put back. *)
Definition fav_hideLoading (btn : FavoriteButton) : FavoriteButton :=
  {| fav_element := fav_element btn;
     projectId := projectId btn;
     fav_button := element.hideLoading (fav_button btn);
     fav_icon :=
       match originalText (fav_button btn) with
       | Some original =>
           if negb (String.eqb original "") then None else fav_icon btn
       | None => fav_icon btn
       end |}.

(** What an event of the page does to the button. *)
Definition on_button (btn : FavoriteButton) (e : Event) : FavoriteButton :=
  match e with
  | EShowLoading _ el text =>
      if Nat.eqb el (fav_element btn) then fav_showLoading text btn else btn
  | EHideLoading _ el =>
      if Nat.eqb el (fav_element btn) then fav_hideLoading btn else btn
  | _ => btn
  end.

(** The button after what has happened between two states of the page. *)
Definition button_after (w w' : World) (btn : FavoriteButton)
    : FavoriteButton :=
  foldl on_button btn (since w w').

(** [{ method: "POST", loadingElement: btn }] *)
Definition favorite_options (btn : FavoriteButton) : Options :=
  {| timeout := None; retries := None; retryDelay := None;
     showLoading := None; showErrors := None; cancelPending := None;
     method := Some "POST"; headers := None; data := None;
     loadingElement := Some (ByElement (fav_element btn));
     loadingText := None; successCallback := None; errorCallback := None;
     opt_url := None; resetForm := None |}.

(** Lines 1009-1014: the class of the button is toggled, and the two
    classes of the icon when the button has one. *)
Definition toggled (btn : FavoriteButton) : FavoriteButton :=
  {| fav_element := fav_element btn;
     projectId := projectId btn;
     fav_button :=
       {| disabled := disabled (fav_button btn);
          classList := classList_toggle "favorited" (classList (fav_button btn));
          originalText := originalText (fav_button btn);
          textContent := textContent (fav_button btn) |};
     fav_icon :=
       option_map
         (λ icon, classList_toggle "far" (classList_toggle "fas" icon))
         (fav_icon btn) |}.

(** [`/projects/${projectId}/favorite/`] *)
Definition favorite_url (id : string) : string :=
  "/projects/" +:+ id +:+ "/favorite/".

(** The state of the page at this point. *)
Definition snapshot : M World := λ w, (Return w, w).

(** [toggleProjectFavorite(btn)]: returns the button as it is afterwards,
    that is after the loading indicator of the request, which is the button
    itself, and after lines 1009-1014. *)
Definition toggleProjectFavorite (env : Env) (btn : FavoriteButton)
    : M FavoriteButton :=
  let id := or_else (projectId btn) "" in
  if String.eqb id "" then ret btn
  else
    before <- snapshot ;;
    try_catch
      (result <- makeRequest env (favorite_url id) (favorite_options btn) ;;
       now <- snapshot ;;
       let btn := button_after before now btn in
       if success result then ret (toggled btn) else ret btn)
      (λ error,
         now <- snapshot ;;
         act (emit (EConsole "error" ("Favorite error: " +:+ message error))) ;;;
         ret (button_after before now btn)).

(** * More pages to run the code on *)

(** A [JSON.parse] for the literals [true], [false] and [null]; on these
    [JSON.stringify] is the conversion to a string. *)
Definition parse_literal (text : string) : JsError + Json :=
  if String.eqb text "true" then inr (JBool true)
  else if String.eqb text "false" then inr (JBool false)
  else if String.eqb text "null" then inr JNull
  else inl {| name := "SyntaxError";
              message := "Unexpected token in JSON at position 0" |}.

(** An empty storage that can be read and written. *)
Definition empty_storage : Storage :=
  {| items := ∅; locked := false; full := false; logged := [] |}.

(** A button with a label. *)
Definition save_button : Button :=
  {| disabled := false; classList := ["btn"; "btn-primary"];
     originalText := None; textContent := "Save" |}.

(** A button without a label. *)
Definition icon_button : Button :=
  {| disabled := false; classList := ["btn"]; originalText := None;
     textContent := "" |}.

(** A response with a text body. *)
Definition html_response (body : string) : Response :=
  {| status := 200; statusText := "OK"; contentType := Some "text/html";
     text := body; json := inl (Error "Unexpected token < in JSON") |}.

(** The cookies of a visitor who is logged in. *)
Definition session_cookies : list (string * string) :=
  [("sessionid", "a1b2c3"); ("csrftoken", "k9x7"); ("theme", "dark")].

(** Four keystrokes on a field, the last one after a pause. *)
Definition keystrokes : list (Z * string) :=
  [(0, "1"); (120, "15"); (260, "150"); (900, "1500")].

(** The favourite button of project 7: a heart and no text. *)
Definition favorite_button : FavoriteButton :=
  {| fav_element := 3%nat; projectId := Some "7";
     fav_button :=
       {| disabled := false; classList := ["btn-favorite"];
          originalText := None; textContent := "" |};
     fav_icon := Some ["far"; "fa-heart"] |}.

(** Options with a success callback that throws. *)
Definition failing_callback : Options :=
  {| timeout := None; retries := None; retryDelay := None;
     showLoading := None; showErrors := None; cancelPending := None;
     method := None; headers := None; data := None; loadingElement := None;
     loadingText := None;
     successCallback := Some (Some (Error "render failed"));
     errorCallback := None; opt_url := None; resetForm := None |}.

(** Options with an error callback that throws. *)
Definition throwing_error_callback : Options :=
  {| timeout := None; retries := None; retryDelay := None;
     showLoading := None; showErrors := None; cancelPending := None;
     method := None; headers := None; data := None; loadingElement := None;
     loadingText := None; successCallback := None;
     errorCallback := Some (Some (Error "cb boom"));
     opt_url := None; resetForm := None |}.

(** * Events of a kind under the basic steps *)

Lemma count_emit p e w :
  count p (emit e w) = (count p w + if p e then 1 else 0)%nat.
Proof.
  unfold count. simpl. rewrite filter_app, length_app. f_equal.
  destruct (p e) eqn:E.
  - by rewrite filter_cons_True.
  - rewrite filter_cons_False; [done | congruence].
Qed.

Lemma count_set_pending p m w : count p (set_pending m w) = count p w.
Proof. done. Qed.
Lemma count_set_controllers p m w : count p (set_controllers m w) = count p w.
Proof. done. Qed.
Lemma count_set_timers p m w : count p (set_timers m w) = count p w.
Proof. done. Qed.
Lemma count_bump_handle p w : count p (bump_handle w) = count p w.
Proof. done. Qed.
Lemma count_bump_ids p w : count p (bump_ids w) = count p w.
Proof. done. Qed.

Create Rewrite HintDb world.
#[global] Hint Rewrite count_emit count_set_pending count_set_controllers
  count_set_timers count_bump_handle count_bump_ids : world.

Ltac count_steps :=
  unfold helpers.hideLoading, helpers.showLoading, clearTimeout, abort,
    pending_delete, pending_set;
  autorewrite with world; simpl.

Lemma plain_fetch : plain is_fetch.
Proof. by intros []. Qed.
Lemma plain_delay : plain is_delay.
Proof. by intros []. Qed.
Lemma plain_show k : plain (is_show k).
Proof. by intros []. Qed.
Lemma plain_hide k : plain (is_hide k).
Proof. by intros []. Qed.
Lemma quiet_fetch : quiet is_fetch.
Proof. split; [apply plain_fetch | done]. Qed.
Lemma quiet_delay : quiet is_delay.
Proof. split; [apply plain_delay | done]. Qed.
Lemma quiet_show k : quiet (is_show k).
Proof. split; [apply plain_show | done]. Qed.

Lemma plain_abort p c : plain p → p (EAbort c) = false.
Proof. intros Hp. apply (Hp (EAbort c)). Qed.
Lemma plain_clear p t : plain p → p (EClearTimeout t) = false.
Proof. intros Hp. apply (Hp (EClearTimeout t)). Qed.
Lemma plain_set p t ms : plain p → p (ESetTimeout t ms) = false.
Proof. intros Hp. apply (Hp (ESetTimeout t ms)). Qed.
Lemma plain_console p l m : plain p → p (EConsole l m) = false.
Proof. intros Hp. apply (Hp (EConsole l m)). Qed.
Lemma plain_notify p k m : plain p → p (ENotify k m) = false.
Proof. intros Hp. apply (Hp (ENotify k m)). Qed.
Lemma plain_success p : plain p → p ESuccessCallback = false.
Proof. intros Hp. apply (Hp ESuccessCallback). Qed.
Lemma plain_error p : plain p → p EErrorCallback = false.
Proof. intros Hp. apply (Hp EErrorCallback). Qed.

Ltac plain_steps H :=
  count_steps;
  rewrite ?(plain_abort _ _ H), ?(plain_clear _ _ H), ?(plain_set _ _ _ H),
    ?(plain_console _ _ _ H), ?(plain_notify _ _ _ H), ?(plain_success _ H),
    ?(plain_error _ H);
  simpl.

Lemma count_cancel_entry p k r w :
  quiet p → count p (cancel_entry k r w) = count p w.
Proof.
  intros [Hp Hh]. unfold cancel_entry.
  destruct (pr_loadingElement r); plain_steps Hp; rewrite ?Hh; lia.
Qed.

Lemma count_hide_cancel_entry k k' r w :
  count (is_hide k) (cancel_entry k' r w) =
  (count (is_hide k) w +
   if String.eqb k' k && has_loading r then 1 else 0)%nat.
Proof.
  unfold cancel_entry, has_loading.
  destruct (pr_loadingElement r) as [el|]; count_steps.
  - destruct (String.eqb k' k); simpl; lia.
  - rewrite andb_false_r. lia.
Qed.

(** * The cancel loops *)

Lemma cancel_step_frame url w kv :
  next_handle (cancel_step url w kv) = next_handle w ∧
  ids_drawn (cancel_step url w kv) = ids_drawn w.
Proof.
  unfold cancel_step, cancel_entry. destruct (targets _ _ _); [|done].
  by destruct (pr_loadingElement kv.2).
Qed.

Lemma cancel_loop_frame url l w :
  next_handle (foldl (cancel_step url) w l) = next_handle w ∧
  ids_drawn (foldl (cancel_step url) w l) = ids_drawn w.
Proof.
  revert w. induction l as [|kv l IH]; intros w; [done|].
  simpl. destruct (IH (cancel_step url w kv)) as [-> ->].
  apply cancel_step_frame.
Qed.

Lemma count_cancel_step p url w kv :
  quiet p → count p (cancel_step url w kv) = count p w.
Proof.
  intros Hq. unfold cancel_step. destruct (targets _ _ _); [|done].
  unfold pending_delete. change (count p (set_pending ?m ?w)) with (count p w).
  by apply count_cancel_entry.
Qed.

Lemma count_cancel_loop p url l w :
  quiet p → count p (foldl (cancel_step url) w l) = count p w.
Proof.
  intros Hq. revert w. induction l as [|kv l IH]; intros w; [done|].
  simpl. rewrite IH. by apply count_cancel_step.
Qed.

(** The registry, the controllers and the hide events after the loop of
    [cancelPendingRequest], over any list of entries. *)
Lemma pending_cancel_step url w kv :
  pendingRequests (cancel_step url w kv) =
  if targets url kv.1 kv.2 then delete kv.1 (pendingRequests w)
  else pendingRequests w.
Proof.
  unfold cancel_step, cancel_entry. destruct (targets _ _ _); [|done].
  by destruct (pr_loadingElement kv.2).
Qed.

Lemma cancel_loop_untouched url l w k :
  (∀ r, (k, r) ∈ l → targets url k r = false) →
  pendingRequests (foldl (cancel_step url) w l) !! k = pendingRequests w !! k.
Proof.
  revert w. induction l as [|[k' r'] l IH]; intros w Hl; [done|].
  simpl. rewrite IH by (intros r Hr; apply Hl; by right).
  rewrite pending_cancel_step. simpl.
  destruct (targets url k' r') eqn:E; [|done].
  destruct (decide (k' = k)) as [->|Hne].
  - rewrite Hl in E; [done | left].
  - by rewrite lookup_delete_ne.
Qed.

Lemma cancel_loop_absent url l w k :
  pendingRequests w !! k = None →
  pendingRequests (foldl (cancel_step url) w l) !! k = None.
Proof.
  revert w. induction l as [|kv l IH]; intros w Hk; [done|].
  simpl. apply IH. rewrite pending_cancel_step.
  destruct (targets _ _ _); [|done].
  destruct (decide (kv.1 = k)) as [->|Hne].
  - apply lookup_delete_eq.
  - by rewrite lookup_delete_ne.
Qed.

Lemma cancel_loop_removed url l w k r :
  (k, r) ∈ l → targets url k r = true →
  pendingRequests (foldl (cancel_step url) w l) !! k = None.
Proof.
  revert w. induction l as [|kv l IH]; intros w Hin Ht.
  - by apply elem_of_nil in Hin.
  - simpl. apply elem_of_cons in Hin as [<-|Hin].
    + apply cancel_loop_absent. rewrite pending_cancel_step. simpl.
      rewrite Ht. apply lookup_delete_eq.
    + by apply IH.
Qed.

Lemma cancelPendingRequest_lookup url w k :
  pendingRequests (cancelPendingRequest url w) !! k =
  match pendingRequests w !! k with
  | Some r => if targets url k r then None else Some r
  | None => None
  end.
Proof.
  unfold cancelPendingRequest.
  destruct (pendingRequests w !! k) as [r|] eqn:E.
  - destruct (targets url k r) eqn:Ht.
    + eapply cancel_loop_removed; [|done]. by apply elem_of_map_to_list.
    + rewrite cancel_loop_untouched; [done|].
      intros r' Hr'. apply elem_of_map_to_list in Hr'. congruence.
  - by apply cancel_loop_absent.
Qed.

Lemma count_hide_cancel_step url k w kv :
  count (is_hide k) (cancel_step url w kv) =
  (count (is_hide k) w +
   if targets url kv.1 kv.2 && String.eqb kv.1 k && has_loading kv.2
   then 1 else 0)%nat.
Proof.
  unfold cancel_step. destruct (targets _ _ _); simpl; [|lia].
  unfold pending_delete. rewrite count_set_pending.
  apply count_hide_cancel_entry.
Qed.

Lemma cancel_loop_hides_other url l w k :
  (∀ r, (k, r) ∉ l) →
  count (is_hide k) (foldl (cancel_step url) w l) = count (is_hide k) w.
Proof.
  revert w. induction l as [|[k' r'] l IH]; intros w Hl; [done|].
  simpl. rewrite IH by (intros r Hr; apply (Hl r); by right).
  rewrite count_hide_cancel_step. simpl.
  destruct (String.eqb_spec k' k) as [->|Hne].
  - destruct (Hl r'). left.
  - rewrite andb_false_r. simpl. lia.
Qed.

Lemma cancel_loop_hides url l w k r :
  NoDup l.*1 → (k, r) ∈ l →
  count (is_hide k) (foldl (cancel_step url) w l) =
  (count (is_hide k) w +
   if targets url k r && has_loading r then 1 else 0)%nat.
Proof.
  revert w. induction l as [|[k' r'] l IH]; intros w Hnd Hin.
  - by apply elem_of_nil in Hin.
  - simpl in *. apply NoDup_cons in Hnd as [Hk' Hnd].
    apply elem_of_cons in Hin as [Heq|Hin].
    + injection Heq as <- <-.
      rewrite cancel_loop_hides_other.
      * rewrite count_hide_cancel_step. simpl. rewrite String.eqb_refl.
        by rewrite andb_true_r.
      * intros r0 Hr0. apply Hk'. apply list_elem_of_fmap. by exists (k, r0).
    + rewrite (IH _ Hnd Hin). rewrite count_hide_cancel_step. simpl.
      destruct (String.eqb_spec k' k) as [->|Hne].
      * destruct Hk'. apply list_elem_of_fmap. by exists (k, r).
      * rewrite andb_false_r. simpl. lia.
Qed.

Lemma cancelPendingRequest_hides url w k :
  count (is_hide k) (cancelPendingRequest url w) =
  (count (is_hide k) w +
   match pendingRequests w !! k with
   | Some r => if targets url k r && has_loading r then 1 else 0
   | None => 0
   end)%nat.
Proof.
  unfold cancelPendingRequest.
  destruct (pendingRequests w !! k) as [r|] eqn:E.
  - apply cancel_loop_hides.
    + apply NoDup_fst_map_to_list.
    + by apply elem_of_map_to_list.
  - rewrite cancel_loop_hides_other; [lia|].
    intros r Hr. apply elem_of_map_to_list in Hr. congruence.
Qed.

(** Controllers only ever go from live to aborted. *)
Lemma controllers_cancel_entry k r w c :
  controllers (cancel_entry k r w) !! c =
  if decide (pr_controller r = c) then Some true else controllers w !! c.
Proof.
  unfold cancel_entry.
  destruct (pr_loadingElement r); simpl; apply lookup_insert.
Qed.

Lemma controllers_cancel_step url w kv c :
  controllers (cancel_step url w kv) !! c =
  if targets url kv.1 kv.2 && bool_decide (pr_controller kv.2 = c)
  then Some true else controllers w !! c.
Proof.
  unfold cancel_step. destruct (targets _ _ _); simpl; [|done].
  change (controllers (pending_delete ?k ?w)) with (controllers w).
  rewrite controllers_cancel_entry. by case_decide; case_bool_decide.
Qed.

Lemma cancel_loop_aborted_mono url l w c :
  controllers w !! c = Some true →
  controllers (foldl (cancel_step url) w l) !! c = Some true.
Proof.
  revert w. induction l as [|kv l IH]; intros w Hc; [done|].
  simpl. apply IH. rewrite controllers_cancel_step.
  by destruct (_ && _).
Qed.

Lemma cancel_loop_aborts url l w k r :
  (k, r) ∈ l → targets url k r = true →
  controllers (foldl (cancel_step url) w l) !! pr_controller r = Some true.
Proof.
  revert w. induction l as [|kv l IH]; intros w Hin Ht.
  - by apply elem_of_nil in Hin.
  - simpl. apply elem_of_cons in Hin as [<-|Hin].
    + apply cancel_loop_aborted_mono. rewrite controllers_cancel_step.
      simpl. rewrite Ht. by rewrite bool_decide_eq_true_2.
    + by apply IH.
Qed.

Lemma cancel_all_loop_frame l w :
  next_handle (foldl cancel_all_step w l) = next_handle w ∧
  ids_drawn (foldl cancel_all_step w l) = ids_drawn w.
Proof.
  revert w. induction l as [|kv l IH]; intros w; [done|].
  simpl. destruct (IH (cancel_all_step w kv)) as [-> ->].
  unfold cancel_all_step, cancel_entry. by destruct (pr_loadingElement kv.2).
Qed.

Lemma count_cancel_all_loop p l w :
  quiet p → count p (foldl cancel_all_step w l) = count p w.
Proof.
  intros Hq. revert w. induction l as [|kv l IH]; intros w; [done|].
  simpl. rewrite IH. by apply count_cancel_entry.
Qed.

Lemma cancel_all_loop_hides_other l w k :
  (∀ r, (k, r) ∉ l) →
  count (is_hide k) (foldl cancel_all_step w l) = count (is_hide k) w.
Proof.
  revert w. induction l as [|[k' r'] l IH]; intros w Hl; [done|].
  simpl. rewrite IH by (intros r Hr; apply (Hl r); by right).
  unfold cancel_all_step. rewrite count_hide_cancel_entry. simpl.
  destruct (String.eqb_spec k' k) as [->|Hne].
  - destruct (Hl r'). left.
  - simpl. lia.
Qed.

Lemma cancel_all_loop_hides l w k r :
  NoDup l.*1 → (k, r) ∈ l →
  count (is_hide k) (foldl cancel_all_step w l) =
  (count (is_hide k) w + if has_loading r then 1 else 0)%nat.
Proof.
  revert w. induction l as [|[k' r'] l IH]; intros w Hnd Hin.
  - by apply elem_of_nil in Hin.
  - simpl in *. apply NoDup_cons in Hnd as [Hk' Hnd].
    apply elem_of_cons in Hin as [Heq|Hin].
    + injection Heq as <- <-.
      rewrite cancel_all_loop_hides_other.
      * unfold cancel_all_step. rewrite count_hide_cancel_entry. simpl.
        by rewrite String.eqb_refl.
      * intros r0 Hr0. apply Hk'. apply list_elem_of_fmap. by exists (k, r0).
    + rewrite (IH _ Hnd Hin). unfold cancel_all_step.
      rewrite count_hide_cancel_entry. simpl.
      destruct (String.eqb_spec k' k) as [->|Hne].
      * destruct Hk'. apply list_elem_of_fmap. by exists (k, r).
      * simpl. lia.
Qed.

Lemma cancel_all_loop_aborted_mono l w c :
  controllers w !! c = Some true →
  controllers (foldl cancel_all_step w l) !! c = Some true.
Proof.
  revert w. induction l as [|kv l IH]; intros w Hc; [done|].
  simpl. apply IH. unfold cancel_all_step. rewrite controllers_cancel_entry.
  by case_decide.
Qed.

Lemma cancel_all_loop_aborts l w k r :
  (k, r) ∈ l →
  controllers (foldl cancel_all_step w l) !! pr_controller r = Some true.
Proof.
  revert w. induction l as [|kv l IH]; intros w Hin.
  - by apply elem_of_nil in Hin.
  - simpl. apply elem_of_cons in Hin as [<-|Hin].
    + apply cancel_all_loop_aborted_mono. unfold cancel_all_step.
      rewrite controllers_cancel_entry. simpl. by rewrite decide_True.
    + by apply IH.
Qed.

Lemma cancelAllRequests_eq w :
  cancelAllRequests w =
  set_pending ∅ (foldl cancel_all_step w (map_to_list (pendingRequests w))).
Proof. done. Qed.

Lemma cancelAllRequests_hides w k :
  count (is_hide k) (cancelAllRequests w) =
  (count (is_hide k) w +
   match pendingRequests w !! k with
   | Some r => if has_loading r then 1 else 0
   | None => 0
   end)%nat.
Proof.
  rewrite cancelAllRequests_eq, count_set_pending.
  destruct (pendingRequests w !! k) as [r|] eqn:E.
  - apply cancel_all_loop_hides.
    + apply NoDup_fst_map_to_list.
    + by apply elem_of_map_to_list.
  - rewrite cancel_all_loop_hides_other; [lia|].
    intros r Hr. apply elem_of_map_to_list in Hr. congruence.
Qed.

(** * Interference *)

Lemma interfere_frame w i :
  next_handle (interfere w i) = next_handle w ∧
  ids_drawn (interfere w i) = ids_drawn w.
Proof.
  destruct i as [t|target|]; simpl.
  - by destruct (timers w !! t).
  - apply cancel_loop_frame.
  - exact (cancel_all_loop_frame _ w).
Qed.

Lemma count_interfere p w i : quiet p → count p (interfere w i) = count p w.
Proof.
  intros Hq. destruct i as [t|target|]; simpl.
  - destruct (timers w !! t); [|done].
    destruct Hq as [Hp _]. plain_steps Hp. lia.
  - by apply count_cancel_loop.
  - change (count p (foldl cancel_all_step w (map_to_list (pendingRequests w)))
            = count p w).
    by apply count_cancel_all_loop.
Qed.

Lemma interference_frame l w :
  next_handle (foldl interfere w l) = next_handle w ∧
  ids_drawn (foldl interfere w l) = ids_drawn w.
Proof.
  revert w. induction l as [|i l IH]; intros w; [done|].
  simpl. destruct (IH (interfere w i)) as [-> ->]. apply interfere_frame.
Qed.

Lemma count_interference p l w :
  quiet p → count p (foldl interfere w l) = count p w.
Proof.
  intros Hq. revert w. induction l as [|i l IH]; intros w; [done|].
  simpl. rewrite IH. by apply count_interfere.
Qed.

(** * One attempt *)
Section OneAttempt.
Variable env : Env.

Lemma makeRequest_begin_eq requestId url config w :
  makeRequest_begin env requestId url config w =
  (Return (with_signal (requestOptions_of config) (next_handle w),
           S (next_handle w), resolve_loading env config),
   begun env requestId url config w).
Proof.
  unfold begun, makeRequest_begin, setup_loading, bind, when, act, ret.
  simpl. fold (after_cancel url config w).
  assert (next_handle (after_cancel url config w) = next_handle w) as Hn.
  { unfold after_cancel. destruct (cancels_pending config); [|done].
    apply cancel_loop_frame. }
  destruct (cancels_pending config) eqn:Ec; simpl;
    destruct (resolve_loading env config); simpl. 
  all: unfold after_cancel in Hn; rewrite Ec in Hn; simpl; rewrite ?Hn; done.
Qed.

Lemma begun_eq requestId url config w :
  begun env requestId url config w =
  let w0 := shown env requestId config (after_cancel url config w) in
  pending_set requestId (entry_of env url config w)
    (emit (ESetTimeout (S (next_handle w)) (timeout config))
       (bump_handle
          (set_timers (<[S (next_handle w) := next_handle w]> (timers w0))
             (bump_handle
                (set_controllers (<[next_handle w := false]> (controllers w0))
                   w0))))).
Proof.
  unfold begun, makeRequest_begin, setup_loading, bind, when, act, ret, shown,
    entry_of.
  simpl. fold (after_cancel url config w).
  assert (next_handle (after_cancel url config w) = next_handle w) as Hn.
  { unfold after_cancel. destruct (cancels_pending config); [|done].
    apply cancel_loop_frame. }
  unfold after_cancel in *.
  destruct (cancels_pending config) eqn:Ec; simpl;
    destruct (resolve_loading env config); simpl; rewrite ?Hn; done.
Qed.

Lemma begun_pending requestId url config w :
  pendingRequests (begun env requestId url config w) =
  <[requestId := entry_of env url config w]>
    (pendingRequests (after_cancel url config w)).
Proof.
  rewrite begun_eq. unfold shown. simpl.
  by destruct (resolve_loading env config).
Qed.

Lemma begun_controllers requestId url config w :
  controllers (begun env requestId url config w) =
  <[next_handle w := false]> (controllers (after_cancel url config w)).
Proof.
  rewrite begun_eq. unfold shown. simpl.
  by destruct (resolve_loading env config).
Qed.

Lemma begun_timers requestId url config w :
  timers (begun env requestId url config w) =
  <[S (next_handle w) := next_handle w]> (timers (after_cancel url config w)).
Proof.
  rewrite begun_eq. unfold shown. simpl.
  by destruct (resolve_loading env config).
Qed.

Lemma after_cancel_frame url config w :
  next_handle (after_cancel url config w) = next_handle w ∧
  ids_drawn (after_cancel url config w) = ids_drawn w.
Proof.
  unfold after_cancel. destruct (cancels_pending config); [|done].
  apply cancel_loop_frame.
Qed.

Lemma begun_frame requestId url config w :
  next_handle (begun env requestId url config w) = S (S (next_handle w)) ∧
  ids_drawn (begun env requestId url config w) = ids_drawn w.
Proof.
  rewrite begun_eq. unfold shown. simpl.
  destruct (after_cancel_frame url config w) as [Hn Hi].
  destruct (resolve_loading env config); simpl; by rewrite Hn, Hi.
Qed.

Lemma count_after_cancel p url config w :
  quiet p → count p (after_cancel url config w) = count p w.
Proof.
  intros Hq. unfold after_cancel. destruct (cancels_pending config); [|done].
  by apply count_cancel_loop.
Qed.

Lemma count_begun p requestId url config w :
  plain p →
  count p (begun env requestId url config w) =
  (count p (after_cancel url config w) +
   match resolve_loading env config with
   | Some el =>
       if p (EShowLoading requestId el (default "Loading..." (loadingText config)))
       then 1 else 0
   | None => 0
   end)%nat.
Proof.
  intros Hp. rewrite begun_eq. unfold shown. simpl.
  destruct (resolve_loading env config); plain_steps Hp; lia.
Qed.

Lemma fetches_begun requestId url config w :
  fetches (begun env requestId url config w) = fetches w.
Proof.
  unfold fetches. rewrite count_begun by apply plain_fetch.
  rewrite count_after_cancel by apply quiet_fetch.
  destruct (resolve_loading env config); simpl; lia.
Qed.

Lemma makeRequest_try_eq requestId url config w :
  makeRequest_try env requestId url config w =
  let w2 := in_flight env requestId url config w in
  if aborted (next_handle w) w2 then request_failed AbortError w2
  else
    match settles (network env (fetches w)) with
    | Resolves r =>
        if ok r then finish env requestId config (S (next_handle w)) r w2
        else request_failed
               (Error ("HTTP error! status: " +:+ pretty (status r))) w2
    | Rejects e => request_failed e w2
    end.
Proof.
  unfold makeRequest_try, bind at 1. rewrite makeRequest_begin_eq.
  unfold bind at 1, request, try_catch, bind at 1, fetch.
  rewrite fetches_begun. fold (sent env config w).
  fold (in_flight env requestId url config w).
  unfold signal_aborted, aborted. simpl.
  destruct (controllers (in_flight env requestId url config w) !! next_handle w)
    as [[]|]; simpl; try done.
  all: destruct (settles (network env (fetches w))) as [r|e]; simpl; try done.
  all: destruct (ok r) eqn:Eok; simpl; try done.
  all: by rewrite Eok.
Qed.

Lemma makeRequest_fuel_S fuel url options w :
  makeRequest_fuel env (S fuel) url options w =
  let config := spread defaultConfig options in
  let requestId := idgen env (ids_drawn w) in
  match makeRequest_try env requestId url config (bump_ids w) with
  | (Return a, w') => (Return a, w')
  | (Throw e, w') =>
      makeRequest_catch env (makeRequest_fuel env fuel url) config e
        (makeRequest_cleanup requestId w')
  | (OutOfFuel, w') => (OutOfFuel, w')
  end.
Proof. done. Qed.

Lemma calm_fetch : calm is_fetch.
Proof. split; [apply quiet_fetch | done]. Qed.
Lemma calm_delay : calm is_delay.
Proof. split; [apply quiet_delay | done]. Qed.

Lemma count_in_flight p requestId url config w :
  calm p →
  count p (in_flight env requestId url config w) =
  (count p w + if p (EFetch url (sent env config w)) then 1 else 0)%nat.
Proof.
  intros [Hq Hs]. unfold in_flight.
  rewrite count_interference, count_emit by done.
  rewrite count_begun by apply Hq. rewrite count_after_cancel by done.
  destruct (resolve_loading env config); rewrite ?Hs; lia.
Qed.

Lemma count_request_failed p e w :
  plain p → count p (request_failed e w).2 = count p w.
Proof. intros Hp. unfold request_failed. simpl. plain_steps Hp. lia. Qed.

Lemma count_finish p requestId config t r w :
  quiet p → count p (finish env requestId config t r w).2 = count p w.
Proof.
  intros [Hp Hh].
  unfold finish, bind, act, ret, parse_body, call_callback, throw.
  destruct (resolve_loading env config), (body_of r);
    destruct (successCallback config) as [[]|];
    simpl; plain_steps Hp; rewrite ?Hh; lia.
Qed.

Lemma count_cleanup p requestId w :
  quiet p → count p (makeRequest_cleanup requestId w) = count p w.
Proof.
  intros [Hp Hh]. unfold makeRequest_cleanup.
  destruct (pendingRequests w !! requestId) as [r|]; [|done].
  destruct (pr_loadingElement r); plain_steps Hp; rewrite ?Hh; lia.
Qed.

Lemma count_try p requestId url config w :
  calm p →
  count p (makeRequest_try env requestId url config w).2 =
  (count p w + if p (EFetch url (sent env config w)) then 1 else 0)%nat.
Proof.
  intros Hc. rewrite makeRequest_try_eq. simpl.
  rewrite <- (count_in_flight p requestId url config w Hc).
  destruct Hc as [Hq Hs]. pose proof Hq as [Hp _].
  destruct (aborted _ _); [by apply count_request_failed|].
  destruct (settles _) as [r|e]; [|by apply count_request_failed].
  destruct (ok r); [by apply count_finish | by apply count_request_failed].
Qed.

(** ** The whole call *)

Lemma fetches_try requestId url config w :
  fetches (makeRequest_try env requestId url config w).2 = S (fetches w).
Proof. unfold fetches. rewrite count_try by apply calm_fetch. simpl. lia. Qed.

Lemma count_showError p msg w :
  plain p → count p (showError env msg w).2 = count p w.
Proof.
  intros Hp. unfold showError, showNotification, act.
  destruct (querySelector env ".messages"); simpl; plain_steps Hp; lia.
Qed.

(** What the [catch] block does when it does not retry. *)
Lemma count_makeRequest_catch_final p again config e w :
  plain p →
  (String.eqb (name e) "AbortError" || negb (should_retry config e)) = true →
  count p (makeRequest_catch env again config e w).2 = count p w.
Proof.
  intros Hp Hfinal. unfold makeRequest_catch.
  destruct (String.eqb (name e) "AbortError").
  { unfold bind, act, ret. simpl. plain_steps Hp. lia. }
  simpl in Hfinal. apply negb_true_iff in Hfinal. rewrite Hfinal.
  unfold bind, when, act, ret, call_callback, throw.
  destruct (default false (showErrors config)); simpl.
  - pose proof (count_showError p (message e) w Hp) as Hs.
    destruct (showError env (message e) w) as [[[]| |] w1]; simpl in *;
      try (by rewrite Hs);
      destruct (errorCallback config) as [[]|]; simpl; plain_steps Hp;
      rewrite ?Hs; lia.
  - destruct (errorCallback config) as [[]|]; simpl; plain_steps Hp; lia.
Qed.

(** Every level of the recursion makes one network call. *)
Lemma attempts_bounded fuel url options w :
  (fetches (makeRequest_fuel env fuel url options w).2 ≤ fetches w + fuel)%nat.
Proof.
  revert options w. induction fuel as [|fuel IH]; intros options w.
  { simpl. lia. }
  rewrite makeRequest_fuel_S. simpl.
  pose proof (fetches_try (idgen env (ids_drawn w)) url
                (spread defaultConfig options) (bump_ids w)) as Ht.
  destruct (makeRequest_try _ _ _ _ _) as [[r|e|] w1]; simpl in *.
  - change (fetches (bump_ids w)) with (fetches w) in Ht. lia.
  - change (fetches (bump_ids w)) with (fetches w) in Ht.
    set (w2 := makeRequest_cleanup _ w1).
    assert (fetches w2 = fetches w1) as Hc
      by (apply count_cleanup, quiet_fetch).
    destruct (String.eqb (name e) "AbortError"
              || negb (should_retry (spread defaultConfig options) e)) eqn:Ef.
    + unfold fetches at 1.
      rewrite count_makeRequest_catch_final by (apply plain_fetch || done).
      fold (fetches w2). lia.
    + apply orb_false_iff in Ef as [Ea Er]. apply negb_false_iff in Er.
      unfold makeRequest_catch. rewrite Ea, Er. unfold delay, bind, act. simpl.
      etransitivity; [apply IH|].
      unfold fetches at 1. plain_steps plain_fetch. fold (fetches w2). lia.
  - change (fetches (bump_ids w)) with (fetches w) in Ht. lia.
Qed.

Lemma finish_shape requestId config t resp w :
  match (finish env requestId config t resp w).1 with
  | Return r => success r = true ∧ well_formed_result r
  | Throw _ => True
  | OutOfFuel => False
  end.
Proof.
  unfold finish, bind, act, ret, parse_body, call_callback, throw.
  destruct (resolve_loading env config), (body_of resp);
    destruct (successCallback config) as [[]|];
    simpl; try done; by repeat split.
Qed.

Lemma try_shape requestId url config w :
  match (makeRequest_try env requestId url config w).1 with
  | Return r => success r = true ∧ well_formed_result r
  | Throw _ => True
  | OutOfFuel => False
  end.
Proof.
  rewrite makeRequest_try_eq. simpl.
  destruct (aborted _ _); [done|].
  destruct (settles _) as [r|e]; [|done].
  destruct (ok r); [apply finish_shape | done].
Qed.

Lemma budget_with_retries options n :
  budget (with_retries (spread defaultConfig options) n) = n.
Proof. done. Qed.

Lemma errorCallback_with_retries options n :
  errorCallback (spread defaultConfig
                   (with_retries (spread defaultConfig options) n)) =
  errorCallback (spread defaultConfig options).
Proof. simpl. unfold override. destruct (errorCallback options); reflexivity. Qed.

Lemma should_retry_budget options e :
  should_retry (spread defaultConfig options) e = true →
  0 < budget options.
Proof.
  unfold should_retry, budget.
  destruct (retries (spread defaultConfig options)) as [n|]; [|done].
  intros [Hn _]%andb_true_iff. simpl. lia.
Qed.

(** With the recursion budget above the retry budget, and an error callback
    that returns, the call returns a result object. *)
Lemma makeRequest_fuel_returns fuel url options w :
  (Z.to_nat (budget options) < fuel)%nat →
  throws (errorCallback (spread defaultConfig options)) = false →
  ∃ r w', makeRequest_fuel env fuel url options w = (Return r, w') ∧
          well_formed_result r.
Proof.
  revert options w. induction fuel as [|fuel IH]; intros options w Hfuel Hcb.
  { lia. }
  rewrite makeRequest_fuel_S. cbn zeta.
  pose proof (try_shape (idgen env (ids_drawn w)) url
                (spread defaultConfig options) (bump_ids w)) as Hs.
  destruct (makeRequest_try _ _ _ _ _) as [[r|e|] w1]; cbn [fst snd] in *;
    [by exists r, w1; destruct Hs | | done].
  set (w2 := makeRequest_cleanup _ w1). clearbody w2.
  unfold makeRequest_catch.
  destruct (String.eqb (name e) "AbortError").
  { unfold bind, act, ret. eexists _, _. split; [done|]. by eexists. }
  destruct (should_retry (spread defaultConfig options) e) eqn:Er.
  - unfold delay, bind, act. apply IH.
    + rewrite budget_with_retries.
      apply should_retry_budget in Er. unfold budget in *. lia.
    + by rewrite errorCallback_with_retries.
  - unfold bind, when, act, ret, call_callback, throw, showError,
      showNotification.
    destruct (errorCallback (spread defaultConfig options)) as [[]|]; [done| |];
      destruct (default false (showErrors (spread defaultConfig options)));
      destruct (querySelector env ".messages"); cbn;
      eexists _, _; (split; [done|]); by eexists.
Qed.

(** The recursion budget [makeRequest] gives itself is never used up. *)
Lemma makeRequest_fuel_ends fuel url options w :
  (Z.to_nat (budget options) < fuel)%nat →
  (makeRequest_fuel env fuel url options w).1 ≠ OutOfFuel.
Proof.
  revert options w. induction fuel as [|fuel IH]; intros options w Hfuel.
  { lia. }
  rewrite makeRequest_fuel_S. cbn zeta.
  pose proof (try_shape (idgen env (ids_drawn w)) url
                (spread defaultConfig options) (bump_ids w)) as Hs.
  destruct (makeRequest_try _ _ _ _ _) as [[r|e|] w1]; cbn [fst snd] in *;
    [done| |done].
  set (w2 := makeRequest_cleanup _ w1). clearbody w2.
  unfold makeRequest_catch.
  destruct (String.eqb (name e) "AbortError"); [done|].
  destruct (should_retry (spread defaultConfig options) e) eqn:Er.
  - unfold delay, bind, act. apply IH.
    rewrite budget_with_retries.
    apply should_retry_budget in Er. unfold budget in *. lia.
  - unfold bind, when, act, ret, call_callback, throw, showError,
      showNotification.
    by destruct (errorCallback (spread defaultConfig options)) as [[]|];
      destruct (default false (showErrors (spread defaultConfig options)));
      destruct (querySelector env ".messages").
Qed.

Lemma makeRequest_catch_final again config e w :
  (String.eqb (name e) "AbortError" || negb (should_retry config e)) = true →
  (String.eqb (name e) "AbortError" || negb (throws (errorCallback config))) = true →
  ∃ w', makeRequest_catch env again config e w = (Return (failure_result (final_message e)), w') ∧
        ∀ p, plain p → count p w' = count p w.
Proof.
  intros Hfinal Hcb. unfold makeRequest_catch, final_message.
  destruct (String.eqb (name e) "AbortError").
  { unfold bind, act, ret. eexists. split; [done|].
    intros p Hp. plain_steps Hp. lia. }
  simpl in Hfinal, Hcb. apply negb_true_iff in Hfinal, Hcb. rewrite Hfinal.
  unfold bind, when, act, ret, call_callback, throw, showError,
    showNotification.
  destruct (errorCallback config) as [[]|]; [done| |];
    destruct (default false (showErrors config));
    destruct (querySelector env ".messages"); cbn;
    (eexists; split; [done|]); intros p Hp; plain_steps Hp; lia.
Qed.

End OneAttempt.

(** The status line of a 4xx response always has a 4 in it. *)
Lemma client_error_message_has_4 (s : Z) :
  400 ≤ s ≤ 499 → includes "4" ("HTTP error! status: " +:+ pretty s) = true.
Proof.
  intros Hs.
  assert (forallb (λ k, includes "4"
                          ("HTTP error! status: " +:+ pretty (400 + Z.of_nat k)))
            (seq 0 100) = true) as Hall by (vm_compute; reflexivity).
  rewrite forallb_forall in Hall.
  replace s with (400 + Z.of_nat (Z.to_nat (s - 400))) by lia.
  apply Hall. apply in_seq. lia.
Qed.

(** * Cancellation while a request is in flight *)

Lemma aborted_true c w : aborted c w = true ↔ controllers w !! c = Some true.
Proof.
  unfold aborted. destruct (controllers w !! c) as [[]|]; simpl;
    split; congruence.
Qed.

Lemma interfere_aborted_mono c w i :
  aborted c w = true → aborted c (interfere w i) = true.
Proof.
  rewrite !aborted_true. intros Hc. destruct i as [t|target|]; simpl.
  - destruct (timers w !! t) as [c'|]; [|done]. simpl.
    rewrite lookup_insert. by case_decide.
  - by apply cancel_loop_aborted_mono.
  - by apply (cancel_all_loop_aborted_mono _ w).
Qed.

Lemma interference_aborted_mono c l w :
  aborted c w = true → aborted c (foldl interfere w l) = true.
Proof.
  revert w. induction l as [|i l IH]; intros w Hc; [done|].
  simpl. by apply IH, interfere_aborted_mono.
Qed.

Lemma timer_fires_aborts t c w :
  timers w !! t = Some c → aborted c (interfere w (TimerFires t)) = true.
Proof.
  intros Ht. simpl. rewrite Ht. apply aborted_true. simpl.
  apply lookup_insert_eq.
Qed.

(** An entry stays in the registry until it is cancelled, and then its
    controller is aborted. *)
Lemma interfere_held_or_aborted requestId entry w i :
  pendingRequests w !! requestId = Some entry ∨
    aborted (pr_controller entry) w = true →
  (pendingRequests (interfere w i) !! requestId = Some entry ∧
     cancels requestId entry i = false) ∨
    aborted (pr_controller entry) (interfere w i) = true.
Proof.
  intros [Hheld|Hab]; [|right; by apply interfere_aborted_mono].
  destruct i as [t|target|]; simpl.
  - left. split; [|done]. by destruct (timers w !! t).
  - destruct (targets target requestId entry) eqn:Et.
    + right. apply aborted_true.
      eapply cancel_loop_aborts; [|done]. by apply elem_of_map_to_list.
    + left. split; [|done].
      by rewrite cancelPendingRequest_lookup, Hheld, Et.
  - right. apply aborted_true.
    apply (cancel_all_loop_aborts _ w requestId). by apply elem_of_map_to_list.
Qed.

Lemma interference_held_or_aborted requestId entry l w :
  pendingRequests w !! requestId = Some entry ∨
    aborted (pr_controller entry) w = true →
  (pendingRequests (foldl interfere w l) !! requestId = Some entry ∧
     forallb (λ i, negb (cancels requestId entry i)) l = true) ∨
    aborted (pr_controller entry) (foldl interfere w l) = true.
Proof.
  revert w. induction l as [|i l IH]; intros w H.
  { destruct H; [left|right]; done. }
  simpl.
  destruct (interfere_held_or_aborted requestId entry w i H) as [[Hh Hc]|Hab].
  - destruct (IH (interfere w i)) as [[Hh' Hc']|Hab']; [by left| |by right].
    left. split; [done|]. by rewrite Hc, Hc'.
  - right. by apply interference_aborted_mono.
Qed.

(** * The registry only shrinks under cancellation *)

Lemma shrinks_refl w : shrinks w w.
Proof. by intros k r. Qed.

Lemma shrinks_trans w1 w2 w3 : shrinks w1 w2 → shrinks w2 w3 → shrinks w1 w3.
Proof. intros H12 H23 k r H. by apply H12, H23. Qed.

Lemma shrinks_delete k w w' :
  pendingRequests w' = delete k (pendingRequests w) → shrinks w w'.
Proof.
  intros Hp k' r. rewrite Hp. intros H. by apply lookup_delete_Some in H as [_ H].
Qed.

Lemma cancelPendingRequest_shrinks url w : shrinks w (cancelPendingRequest url w).
Proof.
  intros k r. rewrite cancelPendingRequest_lookup.
  destruct (pendingRequests w !! k) as [r'|]; [|done].
  by destruct (targets url k r').
Qed.

Lemma cancelAllRequests_shrinks w : shrinks w (cancelAllRequests w).
Proof. by intros k r. Qed.

Lemma interfere_shrinks w i : shrinks w (interfere w i).
Proof.
  destruct i as [t|target|]; cbn [interfere].
  - by destruct (timers w !! t); intros k r.
  - apply cancelPendingRequest_shrinks.
  - apply cancelAllRequests_shrinks.
Qed.

Lemma interference_shrinks l w : shrinks w (foldl interfere w l).
Proof.
  revert w. induction l as [|i l IH]; intros w; [apply shrinks_refl|].
  cbn [foldl]. eapply shrinks_trans; [apply interfere_shrinks | apply IH].
Qed.

(** * Timeouts while a request is in flight *)

Lemma timers_cancel_entry k r w :
  timers (cancel_entry k r w) = delete (pr_timeoutId r) (timers w).
Proof. unfold cancel_entry. by destruct (pr_loadingElement r). Qed.

Lemma timers_cancel_loop url l w t :
  (∀ kv, kv ∈ l → targets url kv.1 kv.2 = true → pr_timeoutId kv.2 ≠ t) →
  timers (foldl (cancel_step url) w l) !! t = timers w !! t.
Proof.
  revert w. induction l as [|kv l IH]; intros w Hl; [done|].
  cbn [foldl]. rewrite IH by (intros kv' Hin; apply Hl; by right).
  unfold cancel_step. destruct (targets url kv.1 kv.2) eqn:Et; [|done].
  change (timers (pending_delete ?k ?w)) with (timers w).
  rewrite timers_cancel_entry. apply lookup_delete_ne, Hl; [left|done].
Qed.

(** An armed request stays armed until it is aborted. *)
Lemma interfere_armed_or_aborted requestId entry w i :
  armed requestId entry w ∨ aborted (pr_controller entry) w = true →
  (armed requestId entry (interfere w i) ∧
   i ≠ TimerFires (pr_timeoutId entry)) ∨
  aborted (pr_controller entry) (interfere w i) = true.
Proof.
  intros [(Hk & Ht & Ho)|Hab]; [|right; by apply interfere_aborted_mono].
  destruct i as [t|target|]; cbn [interfere].
  - destruct (decide (t = pr_timeoutId entry)) as [->|Hne].
    + right. rewrite Ht. apply aborted_true. simpl. apply lookup_insert_eq.
    + left. split; [|congruence].
      destruct (timers w !! t) as [c|] eqn:Et; [|done].
      split; [done|]. split; [|done]. simpl. by rewrite lookup_delete_ne.
  - destruct (targets target requestId entry) eqn:Etg.
    + right. apply aborted_true.
      eapply cancel_loop_aborts; [|done]. by apply elem_of_map_to_list.
    + left. split; [|done]. split; [|split].
      * by rewrite cancelPendingRequest_lookup, Hk, Etg.
      * unfold cancelPendingRequest. rewrite timers_cancel_loop; [done|].
        intros [k r] Hin Htg. simpl in *.
        apply elem_of_map_to_list in Hin. apply (Ho k r); [|done].
        intros ->. congruence.
      * intros k r Hne Hkr. apply (Ho k r Hne).
        by apply (cancelPendingRequest_shrinks target w).
  - right. apply aborted_true.
    apply (cancel_all_loop_aborts _ w requestId). by apply elem_of_map_to_list.
Qed.

(** Once the timer of an armed request has fired, the request is aborted. *)
Lemma interference_fired requestId entry l w :
  armed requestId entry w ∨ aborted (pr_controller entry) w = true →
  TimerFires (pr_timeoutId entry) ∈ l →
  aborted (pr_controller entry) (foldl interfere w l) = true.
Proof.
  revert w. induction l as [|i l IH]; intros w H Hin.
  { by apply elem_of_nil in Hin. }
  cbn [foldl].
  destruct (interfere_armed_or_aborted requestId entry w i H) as [[Ha Hi]|Hab].
  - apply IH; [by left|].
    apply elem_of_cons in Hin as [Heq|Hin]; [congruence | done].
  - by apply interference_aborted_mono.
Qed.

Section FailedAttempts.
Variable env : Env.

Lemma throws_spread options :
  throws (errorCallback (spread defaultConfig options)) =
  throws (errorCallback options).
Proof. simpl. by destruct (errorCallback options). Qed.

Lemma not_aborted_undisturbed requestId url config w :
  during (network env (fetches w)) = [] →
  aborted (next_handle w) (in_flight env requestId url config w) = false.
Proof.
  intros Hd. unfold in_flight, aborted. rewrite Hd. simpl.
  rewrite begun_controllers. by rewrite lookup_insert_eq.
Qed.

(** An attempt whose request fails with an error that is not retried ends
    the call. *)
Lemma failed_attempt_is_final fuel url options w e :
  let config := spread defaultConfig options in
  let requestId := idgen env (ids_drawn w) in
  makeRequest_try env requestId url config (bump_ids w) =
    request_failed e (in_flight env requestId url config (bump_ids w)) →
  (String.eqb (name e) "AbortError" || negb (should_retry config e)) = true →
  (String.eqb (name e) "AbortError" || negb (throws (errorCallback options))) = true →
  ∃ w',
    makeRequest_fuel env (S fuel) url options w =
      (Return (failure_result (final_message e)), w') ∧
    fetches w' = S (fetches w) ∧
    count is_delay w' = count is_delay w.
Proof.
  intros config requestId Htry Hfinal Hcb.
  rewrite makeRequest_fuel_S. cbn zeta. fold config requestId. rewrite Htry.
  unfold request_failed. set (w3 := makeRequest_cleanup requestId _).
  assert (∀ p, calm p →
            count p w3 =
            (count p w + if p (EFetch url (sent env config (bump_ids w)))
                         then 1 else 0)%nat) as Hw3.
  { intros p Hc. change (count p w) with (count p (bump_ids w)).
    rewrite <- (count_in_flight env p requestId url config (bump_ids w) Hc).
    destruct Hc as [Hq _]. unfold w3. rewrite count_cleanup by done.
    destruct Hq as [Hp _]. plain_steps Hp. lia. }
  destruct (makeRequest_catch_final env (makeRequest_fuel env fuel url) config e w3)
    as (w' & Heq & Hcount); [done| |].
  { unfold config. by rewrite throws_spread. }
  exists w'. split; [done|]. split.
  - unfold fetches. rewrite Hcount by apply plain_fetch.
    rewrite Hw3 by apply calm_fetch. simpl. lia.
  - rewrite Hcount by apply plain_delay.
    rewrite Hw3 by apply calm_delay. simpl. lia.
Qed.

(** Such an attempt makes the one network call of the whole call, whatever
    the error callback does. *)
Lemma failed_attempt_makes_one_call fuel url options w e :
  let config := spread defaultConfig options in
  let requestId := idgen env (ids_drawn w) in
  makeRequest_try env requestId url config (bump_ids w) =
    request_failed e (in_flight env requestId url config (bump_ids w)) →
  (String.eqb (name e) "AbortError" || negb (should_retry config e)) = true →
  let run := makeRequest_fuel env (S fuel) url options w in
  fetches run.2 = S (fetches w) ∧ count is_delay run.2 = count is_delay w.
Proof.
  intros config requestId Htry Hfinal run. unfold run.
  rewrite makeRequest_fuel_S. cbn zeta. fold config requestId. rewrite Htry.
  unfold request_failed. set (w3 := makeRequest_cleanup requestId _).
  assert (∀ p, calm p →
            count p w3 =
            (count p w + if p (EFetch url (sent env config (bump_ids w)))
                         then 1 else 0)%nat) as Hw3.
  { intros p Hc. change (count p w) with (count p (bump_ids w)).
    rewrite <- (count_in_flight env p requestId url config (bump_ids w) Hc).
    destruct Hc as [Hq _]. unfold w3. rewrite count_cleanup by done.
    destruct Hq as [Hp _]. plain_steps Hp. lia. }
  unfold fetches.
  rewrite !count_makeRequest_catch_final by (done || apply plain_fetch || apply plain_delay).
  rewrite !Hw3 by (apply calm_fetch || apply calm_delay). simpl. lia.
Qed.

Lemma cancelled_in_flight_aborted requestId url config w :
  cancelled_in_flight w requestId url (during (network env (fetches w))) →
  aborted (next_handle w) (in_flight env requestId url config w) = true.
Proof.
  unfold in_flight. set (l := during _).
  set (w1 := emit _ _). set (entry := entry_of env url config w).
  assert (pendingRequests w1 !! requestId = Some entry) as Hheld.
  { unfold w1. simpl. rewrite begun_pending. apply lookup_insert_eq. }
  intros [[Hfresh Htimer]|Hcancel].
  - apply (interference_fired requestId entry l w1); [left|done].
    split; [done|]. split.
    + unfold w1. simpl. rewrite begun_timers. apply lookup_insert_eq.
    + intros k r Hne. unfold w1. simpl. rewrite begun_pending.
      rewrite lookup_insert_ne by done. intros Hk. apply (Hfresh k r).
      revert Hk. unfold after_cancel.
      destruct (cancels_pending config); [|done].
      apply cancelPendingRequest_shrinks.
  - destruct (interference_held_or_aborted requestId entry l w1
                (or_introl Hheld)) as [[_ Hnone]|Hab]; [|done].
    rewrite forallb_forall in Hnone.
    assert (∃ i, i ∈ l ∧ cancels requestId entry i = true) as (i & Hi & Hc).
    { destruct Hcancel as [H|[H|H]]; eexists; (split; [exact H|]); simpl;
        unfold targets; simpl; rewrite ?String.eqb_refl; try done.
      apply orb_true_r. }
    apply list_elem_of_In in Hi. apply Hnone in Hi. by rewrite Hc in Hi.
Qed.

End FailedAttempts.

(** * The loading indicator of a request *)

(** What happens to a key that is not in the registry. *)
Lemma interfere_absent k w i :
  pendingRequests w !! k = None →
  pendingRequests (interfere w i) !! k = None ∧
  count (is_hide k) (interfere w i) = count (is_hide k) w.
Proof.
  intros Hk. destruct i as [t|target|]; cbn [interfere].
  - destruct (timers w !! t); [|done]. split; [done|].
    plain_steps (plain_hide k). lia.
  - split.
    + by rewrite cancelPendingRequest_lookup, Hk.
    + rewrite cancelPendingRequest_hides, Hk. lia.
  - split; [done|]. rewrite cancelAllRequests_hides, Hk. lia.
Qed.

Lemma interference_absent k l w :
  pendingRequests w !! k = None →
  pendingRequests (foldl interfere w l) !! k = None ∧
  count (is_hide k) (foldl interfere w l) = count (is_hide k) w.
Proof.
  revert w. induction l as [|i l IH]; intros w Hk; [done|].
  cbn [foldl]. destruct (interfere_absent k w i Hk) as [Hk' Hh].
  destruct (IH _ Hk') as [Hk'' Hh']. split; [done|]. by rewrite Hh', Hh.
Qed.

Lemma interfere_held_or_released k entry h w i :
  held k entry h w ∨ released k entry h w →
  held k entry h (interfere w i) ∨ released k entry h (interfere w i).
Proof.
  intros [[Hk Hh]|(Hk & Ha & Hh)].
  - destruct i as [t|target|]; cbn [interfere].
    + left. destruct (timers w !! t); [|done]. split; [done|].
      plain_steps (plain_hide k). lia.
    + destruct (targets target k entry) eqn:Et.
      * right. split; [|split].
        -- by rewrite cancelPendingRequest_lookup, Hk, Et.
        -- apply aborted_true. eapply cancel_loop_aborts; [|done].
           by apply elem_of_map_to_list.
        -- by rewrite cancelPendingRequest_hides, Hk, Et, Hh.
      * left. split.
        -- by rewrite cancelPendingRequest_lookup, Hk, Et.
        -- rewrite cancelPendingRequest_hides, Hk, Et. simpl. lia.
    + right. split; [done|split].
      * apply aborted_true. apply (cancel_all_loop_aborts _ w k).
        by apply elem_of_map_to_list.
      * by rewrite cancelAllRequests_hides, Hk, Hh.
  - right. destruct (interfere_absent k w i Hk) as [Hk' Hh'].
    split; [done|]. split; [by apply interfere_aborted_mono|].
    by rewrite Hh'.
Qed.

Lemma interference_held_or_released k entry h l w :
  held k entry h w ∨ released k entry h w →
  held k entry h (foldl interfere w l) ∨
  released k entry h (foldl interfere w l).
Proof.
  revert w. induction l as [|i l IH]; intros w H; [done|].
  cbn [foldl]. by apply IH, interfere_held_or_released.
Qed.

Section Indicator.
Variable env : Env.

Lemma absent_after_cancel k url config w :
  pendingRequests w !! k = None →
  pendingRequests (after_cancel url config w) !! k = None ∧
  count (is_hide k) (after_cancel url config w) = count (is_hide k) w.
Proof.
  intros Hk. unfold after_cancel. destruct (cancels_pending config); [|done].
  split.
  - by rewrite cancelPendingRequest_lookup, Hk.
  - rewrite cancelPendingRequest_hides, Hk. lia.
Qed.

Lemma begun_other k requestId url config w :
  k ≠ requestId →
  pendingRequests w !! k = None →
  pendingRequests (begun env requestId url config w) !! k = None ∧
  count (is_hide k) (begun env requestId url config w) = count (is_hide k) w ∧
  count (is_show k) (begun env requestId url config w) = count (is_show k) w.
Proof.
  intros Hne Hk. destruct (absent_after_cancel k url config w Hk) as [Hk' Hh].
  assert (String.eqb requestId k = false) as Hneq
    by (apply String.eqb_neq; congruence).
  split; [|split].
  - rewrite begun_pending. by rewrite lookup_insert_ne.
  - rewrite count_begun by apply plain_hide. rewrite Hh.
    destruct (resolve_loading env config); simpl; lia.
  - rewrite count_begun by apply plain_show.
    rewrite count_after_cancel by apply quiet_show.
    destruct (resolve_loading env config); simpl; rewrite ?Hneq; lia.
Qed.

Lemma begun_own requestId url config w :
  pendingRequests w !! requestId = None →
  held requestId (entry_of env url config w) (count (is_hide requestId) w)
    (begun env requestId url config w) ∧
  count (is_show requestId) (begun env requestId url config w) =
    (count (is_show requestId) w + shows_one env config)%nat.
Proof.
  intros Hk. destruct (absent_after_cancel _ url config w Hk) as [Hk' Hh].
  split; [split|].
  - rewrite begun_pending. apply lookup_insert_eq.
  - rewrite count_begun by apply plain_hide. rewrite Hh.
    destruct (resolve_loading env config); simpl; lia.
  - rewrite count_begun by apply plain_show.
    rewrite count_after_cancel by apply quiet_show. unfold shows_one.
    destruct (resolve_loading env config); simpl; rewrite ?String.eqb_refl; lia.
Qed.

(** The registry and the events after the success path and after the
    clean-up of the [catch] block. *)
Lemma finish_effect requestId config t r w :
  let w' := (finish env requestId config t r w).2 in
  pendingRequests w' = delete requestId (pendingRequests w) ∧
  ids_drawn w' = ids_drawn w ∧
  ∀ p, plain p →
    count p w' =
    (count p w +
     match resolve_loading env config with
     | Some el => if p (EHideLoading requestId el) then 1 else 0
     | None => 0
     end)%nat.
Proof.
  unfold finish, bind, act, ret, parse_body, call_callback, throw.
  destruct (resolve_loading env config), (body_of r);
    destruct (successCallback config) as [[]|];
    simpl; (split; [done|]); (split; [done|]); intros p Hp;
    plain_steps Hp; lia.
Qed.

Lemma cleanup_effect requestId w :
  let w' := makeRequest_cleanup requestId w in
  pendingRequests w' = delete requestId (pendingRequests w) ∧
  ids_drawn w' = ids_drawn w ∧
  ∀ p, plain p →
    count p w' =
    (count p w +
     match pendingRequests w !! requestId with
     | Some entry =>
         match pr_loadingElement entry with
         | Some el => if p (EHideLoading requestId el) then 1 else 0
         | None => 0
         end
     | None => 0
     end)%nat.
Proof.
  unfold makeRequest_cleanup.
  destruct (pendingRequests w !! requestId) as [entry|] eqn:E.
  - destruct (pr_loadingElement entry); simpl; (split; [done|]);
      (split; [done|]); intros p Hp; plain_steps Hp; lia.
  - simpl. split; [|split; [done|intros; lia]].
    symmetry. by apply delete_id.
Qed.

End Indicator.

Section Settling.
Variable env : Env.

Lemma has_loading_entry_of url config w :
  (if has_loading (entry_of env url config w) then 1 else 0)%nat =
  shows_one env config.
Proof.
  unfold has_loading, shows_one, entry_of. simpl.
  by destruct (resolve_loading env config).
Qed.

Lemma in_flight_ids requestId url config w :
  ids_drawn (in_flight env requestId url config w) = ids_drawn w.
Proof.
  unfold in_flight.
  destruct (interference_frame (during (network env (fetches w)))
              (emit (EFetch url (sent env config w))
                 (begun env requestId url config w))) as [_ ->].
  simpl. apply begun_frame.
Qed.

Lemma in_flight_own requestId url config w :
  pendingRequests w !! requestId = None →
  let entry := entry_of env url config w in
  let h := count (is_hide requestId) w in
  let w2 := in_flight env requestId url config w in
  (held requestId entry h w2 ∨ released requestId entry h w2) ∧
  count (is_show requestId) w2 =
    (count (is_show requestId) w + shows_one env config)%nat.
Proof.
  intros Hk entry h w2.
  destruct (begun_own env requestId url config w Hk) as [[Hb Hh] Hs].
  split.
  - apply interference_held_or_released. left. split; [done|].
    rewrite count_emit. simpl. fold h in Hh. rewrite Hh. lia.
  - unfold w2, in_flight. rewrite count_interference by apply quiet_show.
    rewrite count_emit, Hs. simpl. lia.
Qed.

Lemma in_flight_other k requestId url config w :
  k ≠ requestId →
  pendingRequests w !! k = None →
  untouched k w (in_flight env requestId url config w).
Proof.
  intros Hne Hk.
  destruct (begun_other env k requestId url config w Hne Hk) as (Hb & Hh & Hs).
  unfold in_flight.
  set (w1 := emit _ _).
  assert (pendingRequests w1 !! k = None) as Hk1 by done.
  destruct (interference_absent k (during (network env (fetches w))) w1 Hk1)
    as [Hk2 Hh2].
  split; [done|]. split.
  - rewrite Hh2. unfold w1. rewrite count_emit, Hh. simpl. lia.
  - rewrite count_interference by apply quiet_show.
    unfold w1. rewrite count_emit, Hs. simpl. lia.
Qed.

(** After the [try] block, and after the clean-up when it threw, the
    request of the call is settled. *)
Lemma try_own requestId url config w :
  pendingRequests w !! requestId = None →
  match makeRequest_try env requestId url config w with
  | (Return _, w') => settled requestId (shows_one env config) w w'
  | (Throw _, w') =>
      settled requestId (shows_one env config) w
        (makeRequest_cleanup requestId w')
  | (OutOfFuel, _) => False
  end.
Proof.
  intros Hk. rewrite makeRequest_try_eq. cbn zeta.
  destruct (in_flight_own requestId url config w Hk) as [Hinv Hs].
  set (w2 := in_flight env requestId url config w) in *.
  set (entry := entry_of env url config w) in *.
  assert (∀ e, settled requestId (shows_one env config) w
                 (makeRequest_cleanup requestId (request_failed e w2).2))
    as Hfailed.
  { intros e. unfold request_failed. cbn [snd].
    set (w3 := emit _ w2).
    destruct (cleanup_effect requestId w3) as (Hp & _ & Hc).
    split; [|split].
    - rewrite Hp. apply lookup_delete_eq.
    - rewrite Hc by apply plain_hide.
      change (pendingRequests w3) with (pendingRequests w2).
      unfold w3. rewrite count_emit. simpl.
      destruct Hinv as [[Hl Hh]|(Hl & _ & Hh)]; rewrite Hl, Hh.
      + rewrite <- has_loading_entry_of with (url := url) (w := w).
        fold entry. unfold has_loading.
        destruct (pr_loadingElement entry); simpl;
          rewrite ?String.eqb_refl; lia.
      + unfold entry. rewrite has_loading_entry_of. lia.
    - rewrite Hc by apply plain_show. unfold w3. rewrite count_emit. simpl.
      destruct (pendingRequests w2 !! requestId) as [en|];
        [destruct (pr_loadingElement en)|]; simpl; lia. }
  destruct (aborted (next_handle w) w2) eqn:Ea; [apply Hfailed|].
  destruct (settles (network env (fetches w))) as [r|e]; [|apply Hfailed].
  destruct (ok r); [|apply Hfailed].
  destruct Hinv as [[Hl Hh]|(_ & Hab & _)];
    [|unfold entry in Hab; simpl in Hab; congruence].
  destruct (finish_effect env requestId config (S (next_handle w)) r w2)
    as (Hp & _ & Hc).
  assert (settled requestId (shows_one env config) w
            (finish env requestId config (S (next_handle w)) r w2).2) as Hdone.
  { split; [|split].
    - rewrite Hp. apply lookup_delete_eq.
    - rewrite Hc by apply plain_hide. rewrite Hh. unfold shows_one.
      destruct (resolve_loading env config); simpl;
        rewrite ?String.eqb_refl; lia.
    - rewrite Hc by apply plain_show. rewrite Hs.
      destruct (resolve_loading env config); simpl; lia. }
  pose proof (finish_shape env requestId config (S (next_handle w)) r w2) as Hsh.
  destruct (finish env requestId config (S (next_handle w)) r w2)
    as [[res|e|] w3]; cbn [fst snd] in *; [done| |done].
  destruct Hdone as (Hk3 & Hh3 & Hs3).
  destruct (cleanup_effect requestId w3) as (Hp' & _ & Hc').
  split; [|split].
  - rewrite Hp'. apply lookup_delete_eq.
  - rewrite Hc' by apply plain_hide. rewrite Hk3, Hh3. lia.
  - rewrite Hc' by apply plain_show. rewrite Hk3, Hs3. lia.
Qed.

End Settling.

Section Nested.
Variable env : Env.

Lemma try_ids requestId url config w :
  ids_drawn (makeRequest_try env requestId url config w).2 = ids_drawn w.
Proof.
  rewrite makeRequest_try_eq. cbn zeta.
  rewrite <- (in_flight_ids env requestId url config w).
  destruct (aborted _ _); [done|].
  destruct (settles _) as [r|e]; [|done].
  destruct (ok r); [|done]. apply finish_effect.
Qed.

(** Another request's attempt leaves the key alone, before and after its
    clean-up. *)
Lemma try_other k requestId url config w :
  k ≠ requestId →
  pendingRequests w !! k = None →
  let w' := (makeRequest_try env requestId url config w).2 in
  untouched k w w' ∧ untouched k w (makeRequest_cleanup requestId w').
Proof.
  intros Hne Hk.
  assert (String.eqb requestId k = false) as Hneq
    by (apply String.eqb_neq; congruence).
  assert (∀ w', untouched k w w' →
                untouched k w (makeRequest_cleanup requestId w')) as Hclean.
  { intros w' (Hk' & Hh & Hs).
    destruct (cleanup_effect requestId w') as (Hp & _ & Hc).
    split; [|split].
    - rewrite Hp. by rewrite lookup_delete_ne.
    - rewrite Hc by apply plain_hide. rewrite Hh.
      destruct (pendingRequests w' !! requestId) as [en|];
        [destruct (pr_loadingElement en)|]; simpl; rewrite ?Hneq; lia.
    - rewrite Hc by apply plain_show. rewrite Hs.
      destruct (pendingRequests w' !! requestId) as [en|];
        [destruct (pr_loadingElement en)|]; simpl; lia. }
  cut (untouched k w (makeRequest_try env requestId url config w).2).
  { intros H. split; [done | by apply Hclean]. }
  rewrite makeRequest_try_eq. cbn zeta.
  pose proof (in_flight_other env k requestId url config w Hne Hk)
    as (Hk2 & Hh2 & Hs2).
  set (w2 := in_flight env requestId url config w) in *.
  assert (∀ e, untouched k w (request_failed e w2).2) as Hfailed.
  { intros e. unfold request_failed. cbn [snd]. split; [done|].
    rewrite !count_emit. simpl. split; lia. }
  destruct (aborted _ _); [apply Hfailed|].
  destruct (settles _) as [r|e]; [|apply Hfailed].
  destruct (ok r); [|apply Hfailed].
  destruct (finish_effect env requestId config (S (next_handle w)) r w2)
    as (Hp & _ & Hc).
  split; [|split].
  - rewrite Hp. by rewrite lookup_delete_ne.
  - rewrite Hc by apply plain_hide. rewrite Hh2.
    destruct (resolve_loading env config); simpl; rewrite ?Hneq; lia.
  - rewrite Hc by apply plain_show. rewrite Hs2.
    destruct (resolve_loading env config); simpl; lia.
Qed.

Lemma makeRequest_catch_final_frame again config e w :
  (String.eqb (name e) "AbortError" || negb (should_retry config e)) = true →
  let w' := (makeRequest_catch env again config e w).2 in
  pendingRequests w' = pendingRequests w ∧ ids_drawn w' = ids_drawn w.
Proof.
  intros Hfinal. unfold makeRequest_catch.
  destruct (String.eqb (name e) "AbortError"); [done|].
  simpl in Hfinal. apply negb_true_iff in Hfinal. rewrite Hfinal.
  unfold bind, when, act, ret, call_callback, throw, showError,
    showNotification.
  by destruct (errorCallback config) as [[]|];
    destruct (default false (showErrors config));
    destruct (querySelector env ".messages").
Qed.

Lemma untouched_trans k w1 w2 w3 :
  untouched k w1 w2 → untouched k w2 w3 → untouched k w1 w3.
Proof.
  intros (_ & Hh & Hs) (Hk & Hh' & Hs'). split; [done|].
  split; congruence.
Qed.

(** A call never touches the entry or the indicator of an id it does not
    generate. *)
Lemma makeRequest_untouched fuel url options w k :
  pendingRequests w !! k = None →
  (∀ j, (ids_drawn w ≤ j)%nat → idgen env j ≠ k) →
  untouched k w (makeRequest_fuel env fuel url options w).2.
Proof.
  revert options w. induction fuel as [|fuel IH]; intros options w Hk Hids.
  { by split. }
  rewrite makeRequest_fuel_S. cbn zeta.
  set (config := spread defaultConfig options).
  set (requestId := idgen env (ids_drawn w)).
  assert (k ≠ requestId) as Hne.
  { intros ->. by apply (Hids (ids_drawn w)). }
  pose proof (try_other k requestId url config (bump_ids w) Hne Hk)
    as [Htry Hclean].
  pose proof (try_ids requestId url config (bump_ids w)) as Hi.
  destruct (makeRequest_try env requestId url config (bump_ids w))
    as [[res|e|] w1]; cbn [fst snd] in *; [done| |done].
  destruct (cleanup_effect requestId w1) as (_ & Hi2 & _).
  set (w2 := makeRequest_cleanup requestId w1) in *.
  destruct (String.eqb (name e) "AbortError" || negb (should_retry config e))
    eqn:Ef.
  - destruct (makeRequest_catch_final_frame (makeRequest_fuel env fuel url) config e w2 Ef)
      as [Hp _].
    destruct Hclean as (Hk2 & Hh2 & Hs2). split; [by rewrite Hp|].
    rewrite !count_makeRequest_catch_final by (done || apply plain_hide || apply plain_show).
    done.
  - apply orb_false_iff in Ef as [Ea Er]. apply negb_false_iff in Er.
    unfold makeRequest_catch. rewrite Ea, Er. unfold delay, bind, act. cbn [fst snd].
    set (w3 := emit (EDelay _) _).
    assert (untouched k w w3) as H3.
    { destruct Hclean as (Hk2 & Hh2 & Hs2). split; [done|].
      change (count ?p (bump_ids w)) with (count p w) in *.
      unfold w3. rewrite !count_emit. simpl. split; lia. }
    eapply untouched_trans; [exact H3|]. apply IH; [apply H3|].
    intros j Hj. apply Hids.
    change (ids_drawn w3) with (ids_drawn w2) in Hj.
    rewrite Hi2, Hi in Hj. simpl in Hj. lia.
Qed.

(** Every call hides the indicator of its own request as often as it
    showed it, and takes its entry out of the registry. *)
Lemma makeRequest_settles fuel url options w :
  let requestId := idgen env (ids_drawn w) in
  pendingRequests w !! requestId = None →
  (∀ j, (ids_drawn w < j)%nat → idgen env j ≠ requestId) →
  settled requestId (shows_one env (spread defaultConfig options)) w
    (makeRequest_fuel env (S fuel) url options w).2.
Proof.
  intros requestId Hk Hids.
  rewrite makeRequest_fuel_S. cbn zeta.
  set (config := spread defaultConfig options).
  fold requestId.
  pose proof (try_own env requestId url config (bump_ids w) Hk) as Htry.
  pose proof (try_ids requestId url config (bump_ids w)) as Hi.
  destruct (makeRequest_try env requestId url config (bump_ids w))
    as [[res|e|] w1]; cbn [fst snd] in *; [done| |done].
  destruct (cleanup_effect requestId w1) as (_ & Hi2 & _).
  set (w2 := makeRequest_cleanup requestId w1) in *.
  destruct Htry as (Hk2 & Hh2 & Hs2).
  change (count ?p (bump_ids w)) with (count p w) in *.
  destruct (String.eqb (name e) "AbortError" || negb (should_retry config e))
    eqn:Ef.
  - destruct (makeRequest_catch_final_frame (makeRequest_fuel env fuel url) config e w2 Ef)
      as [Hp _].
    split; [by rewrite Hp|].
    rewrite !count_makeRequest_catch_final by (done || apply plain_hide || apply plain_show).
    done.
  - apply orb_false_iff in Ef as [Ea Er]. apply negb_false_iff in Er.
    unfold makeRequest_catch. rewrite Ea, Er. unfold delay, bind, act. cbn [fst snd].
    set (w3 := emit (EDelay _) _).
    destruct (makeRequest_untouched fuel url
                (with_retries config (default 0 (retries config) - 1)) w3
                requestId) as (Hk4 & Hh4 & Hs4); [done| |].
    { intros j Hj. apply Hids.
      change (ids_drawn w3) with (ids_drawn w2) in Hj.
      rewrite Hi2, Hi in Hj. simpl in Hj. lia. }
    split; [done|]. rewrite Hh4, Hs4. unfold w3. rewrite !count_emit. simpl.
    split; lia.
Qed.

End Nested.

(** * The registry holds one entry per URL *)

Lemma one_per_url_shrinks w w' : shrinks w w' → one_per_url w → one_per_url w'.
Proof. intros Hs Hw k1 k2 r1 r2 H1 H2. apply Hw; by apply Hs. Qed.

Lemma cancelPendingRequest_clears url w k r :
  pendingRequests (cancelPendingRequest url w) !! k = Some r → pr_url r ≠ url.
Proof.
  rewrite cancelPendingRequest_lookup.
  destruct (pendingRequests w !! k) as [r'|]; [|done].
  destruct (targets url k r') eqn:Et; [done|].
  intros [= ->] Hu. unfold targets in Et. rewrite Hu, String.eqb_refl in Et.
  done.
Qed.

Section Registry.
Variable env : Env.

(** Registering after cancelling keeps the URLs of the registry distinct. *)
Lemma begun_one_per_url requestId url config w :
  cancels_pending config = true →
  one_per_url w → one_per_url (begun env requestId url config w).
Proof.
  intros Hc Hw k1 k2 r1 r2. rewrite begun_pending.
  unfold after_cancel. rewrite Hc.
  rewrite !lookup_insert. repeat case_decide; subst; try done.
  - intros [= <-] H2 Hu. apply cancelPendingRequest_clears in H2.
    simpl in Hu. congruence.
  - intros H1 [= <-] Hu. apply cancelPendingRequest_clears in H1.
    simpl in Hu. congruence.
  - intros H1 H2. pose proof (cancelPendingRequest_shrinks url w) as Hs.
    apply Hw; by apply Hs.
Qed.

Lemma apply_op_one_per_url w op :
  op_cancels op = true → one_per_url w → one_per_url (apply_op env w op).
Proof.
  destruct op as [requestId url config|requestId|requestId|target|];
    cbn [apply_op op_cancels]; intros Hc.
  - by apply begun_one_per_url.
  - by apply one_per_url_shrinks, (shrinks_delete requestId).
  - apply one_per_url_shrinks, (shrinks_delete requestId).
    apply cleanup_effect.
  - apply one_per_url_shrinks, cancelPendingRequest_shrinks.
  - apply one_per_url_shrinks, cancelAllRequests_shrinks.
Qed.

Lemma entries_for_begun requestId url config w :
  cancels_pending config = true →
  entries_for url (begun env requestId url config w) = 1%nat.
Proof.
  intros Hc. unfold entries_for. rewrite begun_pending.
  unfold after_cancel. rewrite Hc.
  rewrite map_filter_insert_True by done.
  assert (filter (λ kv : string * PendingRequest, pr_url kv.2 = url)
            (pendingRequests (cancelPendingRequest url w)) = ∅) as ->.
  { apply map_empty. intros k. apply map_lookup_filter_None. right.
    intros r Hk. simpl. by apply cancelPendingRequest_clears in Hk. }
  rewrite insert_empty. apply map_size_singleton.
Qed.

End Registry.

Section Dispatches.
Variable env : Env.

Lemma ops_one_per_url ops w :
  forallb op_cancels ops = true →
  one_per_url w → one_per_url (foldl (apply_op env) w ops).
Proof.
  revert w. induction ops as [|op ops IH]; intros w Hc Hw; [done|].
  cbn [foldl]. simpl in Hc. apply andb_true_iff in Hc as [Hop Hops].
  by apply IH, apply_op_one_per_url.
Qed.

Lemma one_per_url_initial : one_per_url initial_world.
Proof. by intros k1 k2 r1 r2 H. Qed.

(** The second of two dispatches to a URL supersedes the first. *)
Lemma second_dispatch_supersedes w requestId1 requestId2 url config1 config2 :
  cancels_pending config2 = true →
  let w1 := begun env requestId1 url config1 w in
  let w2 := begun env requestId2 url config2 w1 in
  entries_for url w2 = 1%nat ∧
  pendingRequests w2 !! requestId2 = Some (entry_of env url config2 w1) ∧
  (requestId1 ≠ requestId2 → pendingRequests w2 !! requestId1 = None) ∧
  aborted (next_handle w) w2 = true ∧
  (pendingRequests w = ∅ → size (pendingRequests w2) = 1%nat).
Proof.
  intros Hc w1 w2.
  assert (pendingRequests w1 !! requestId1 = Some (entry_of env url config1 w))
    as H1.
  { unfold w1. rewrite begun_pending. apply lookup_insert_eq. }
  assert (targets url requestId1 (entry_of env url config1 w) = true) as Ht.
  { unfold targets. simpl. by rewrite String.eqb_refl. }
  assert (pendingRequests w2 =
          <[requestId2 := entry_of env url config2 w1]>
            (pendingRequests (cancelPendingRequest url w1))) as Hp2.
  { unfold w2. rewrite begun_pending. unfold after_cancel. by rewrite Hc. }
  split; [by apply entries_for_begun|]. split; [|split; [|split]].
  - rewrite Hp2. apply lookup_insert_eq.
  - intros Hne. rewrite Hp2, lookup_insert_ne by done.
    by rewrite cancelPendingRequest_lookup, H1, Ht.
  - apply aborted_true. unfold w2. rewrite begun_controllers.
    unfold after_cancel. rewrite Hc.
    destruct (begun_frame env requestId1 url config1 w) as [Hn _].
    fold w1 in Hn. rewrite lookup_insert_ne by lia.
    apply (cancel_loop_aborts url _ w1 requestId1 (entry_of env url config1 w));
      [|done].
    by apply elem_of_map_to_list.
  - intros Hempty.
    assert (pendingRequests (cancelPendingRequest url w1) = ∅) as Hnone.
    { apply map_empty. intros k. rewrite cancelPendingRequest_lookup.
      unfold w1. rewrite begun_pending.
      assert (pendingRequests (after_cancel url config1 w) = ∅) as ->.
      { apply map_empty. intros k'. unfold after_cancel.
        destruct (cancels_pending config1); [|by rewrite Hempty].
        rewrite cancelPendingRequest_lookup. by rewrite Hempty. }
      rewrite lookup_insert. case_decide; [subst; by rewrite Ht | done]. }
    rewrite Hp2, Hnone, insert_empty. apply map_size_singleton.
Qed.

Lemma try_shrinks requestId url config w :
  shrinks (begun env requestId url config w)
    (makeRequest_try env requestId url config w).2.
Proof.
  rewrite makeRequest_try_eq. cbn zeta.
  assert (shrinks (begun env requestId url config w)
            (in_flight env requestId url config w)) as Hw2.
  { unfold in_flight. set (w1 := emit _ _).
    apply (shrinks_trans _ w1); [by intros k r | apply interference_shrinks]. }
  destruct (aborted _ _); [done|].
  destruct (settles _) as [r|e]; [|done].
  destruct (ok r); [|done].
  eapply shrinks_trans; [exact Hw2|].
  apply (shrinks_delete requestId), finish_effect.
Qed.

(** A whole call, retries and interference included, keeps the URLs of the
    registry distinct. *)
Lemma makeRequest_keeps_one_per_url fuel url options w :
  cancels_pending (spread defaultConfig options) = true →
  one_per_url w →
  one_per_url (makeRequest_fuel env fuel url options w).2.
Proof.
  revert options w. induction fuel as [|fuel IH]; intros options w Hc Hw.
  { done. }
  rewrite makeRequest_fuel_S. cbn zeta.
  set (config := spread defaultConfig options) in *.
  set (requestId := idgen env (ids_drawn w)).
  assert (one_per_url (makeRequest_try env requestId url config (bump_ids w)).2)
    as Htry.
  { eapply one_per_url_shrinks; [apply try_shrinks|].
    by apply begun_one_per_url. }
  destruct (makeRequest_try env requestId url config (bump_ids w))
    as [[res|e|] w1]; cbn [fst snd] in *; [done| |done].
  assert (one_per_url (makeRequest_cleanup requestId w1)) as Hclean.
  { eapply one_per_url_shrinks; [|exact Htry].
    apply (shrinks_delete requestId), cleanup_effect. }
  set (w2 := makeRequest_cleanup requestId w1) in *.
  destruct (String.eqb (name e) "AbortError" || negb (should_retry config e))
    eqn:Ef.
  - destruct (makeRequest_catch_final_frame env (makeRequest_fuel env fuel url) config
                e w2 Ef) as [Hp _].
    intros k1 k2 r1 r2. rewrite Hp. apply Hclean.
  - apply orb_false_iff in Ef as [Ea Er]. apply negb_false_iff in Er.
    unfold makeRequest_catch. rewrite Ea, Er. unfold delay, bind, act. cbn [fst snd].
    apply IH; [|done].
    unfold config, cancels_pending in *. simpl in *. unfold override in *.
    by destruct (cancelPending options).
Qed.

End Dispatches.

Section Forms.
Variable env : Env.

(** A form that fails its validation is not submitted. *)
Lemma invalid_form_not_submitted form options w :
  data_validate form = true →
  checkValidity form = false →
  submitForm env form options w =
    (Return (failure_result "Form validation failed"), emit EReportValidity w).
Proof.
  intros Hv Hc. unfold submitForm, bind, validateForm, act, ret.
  by rewrite Hv, Hc.
Qed.

(** What a successful submission with a redirect does to the page. *)
Lemma redirect_then_reset form options w result w1 fields target :
  (data_validate form = false ∨ checkValidity form = true) →
  makeRequest env (submit_url env form options) (submit_config form options) w
    = (Return result, w1) →
  success result = true →
  result_data result = Some (JObj fields) →
  assoc "redirect" fields = Some (JStr target) →
  target ≠ "" →
  ∃ w',
    submitForm env form options w = (Return result, w') ∧
    trace w' =
      (trace w1 ++ [ENavigate (JStr target)] ++
       (if not_false (resetForm options) then [EFormReset] else []) ++
       [EDispatchEvent "ajaxSuccess"])%list.
Proof.
  intros Hvalid Hreq Hs Hd Hr Ht.
  unfold submitForm, bind at 1.
  assert ((if data_validate form then validateForm form else ret true) w
          = (Return true, w)) as ->.
  { destruct Hvalid as [->|Hc]; [done|].
    unfold validateForm. rewrite Hc. by destruct (data_validate form). }
  cbn [negb]. unfold bind at 1. rewrite Hreq.
  unfold submit_done. rewrite Hs, Hd. cbn [default from_option id].
  unfold property, bind, ret, when, act. rewrite Hr.
  cbn [truthy default from_option id].
  assert (String.eqb target "" = false) as -> by by apply String.eqb_neq.
  cbn [negb].
  destruct (not_false (resetForm options)); (eexists; split; [reflexivity|]);
    simpl; by rewrite <- ?app_assoc.
Qed.

End Forms.

(** * The debounced search input *)

Lemma last_cons_default {A} (x : A) (l : list A) :
  last (x :: l) = Some (default x (last l)).
Proof. rewrite last_cons. by destruct (last l). Qed.

Lemma keystrokes_keep_timer_armed keys k d :
  rapid (k :: keys) →
  debounceTimer d = Some (k.1 + 300) →
  let d' := foldl on_input d keys in
  searches d' = searches d ∧
  timers_cancelled d' = (timers_cancelled d + length keys)%nat ∧
  debounceTimer d' = Some ((default k (last keys)).1 + 300) ∧
  input_value d' = default (input_value d) (snd <$> last keys).
Proof.
  revert k d. induction keys as [|k' keys IH]; intros k d Hr Hd.
  { simpl. repeat split; try done; lia. }
  destruct Hr as [Hk Hr].
  assert (fire_due k'.1 d = d) as Hfire.
  { unfold fire_due. rewrite Hd.
    destruct (Z.leb_spec (k.1 + 300) k'.1); [lia | done]. }
  cbn [foldl].
  destruct (IH k' (on_input d k') Hr) as (Hs & Hc & Ht & Hv).
  { unfold on_input. done. }
  cbn zeta. rewrite Hs, Hc, Ht, Hv.
  unfold on_input. rewrite Hfire, Hd. cbn [searches timers_cancelled input_value].
  rewrite last_cons_default. simpl. repeat split; try lia.
  by destruct (last keys).
Qed.

(** Keystrokes in quick succession release one search, for the final value,
    and each of them but the first stops the timer of the one before. *)
Lemma rapid_typing_searches_once keys :
  keys ≠ [] → rapid keys →
  searches (typed keys) = [final_query keys] ∧
  timers_cancelled (typed keys) = (length keys - 1)%nat.
Proof.
  destruct keys as [|k keys]; [done|]. intros _ Hr.
  unfold typed. cbn [foldl].
  assert (fire_due k.1 debounce_start = debounce_start) as Hstart by done.
  destruct (keystrokes_keep_timer_armed keys k (on_input debounce_start k) Hr)
    as (Hs & Hc & Ht & Hv); [done|].
  cbn zeta in *. set (d := foldl on_input _ keys) in *.
  unfold quiesce. rewrite Ht. unfold fire_due. rewrite Ht, Z.leb_refl.
  cbn [searches timers_cancelled]. rewrite Hs, Hc, Hv. split.
  - unfold final_query. rewrite last_cons_default. simpl.
    by destruct (last keys).
  - simpl. lia.
Qed.

Section Success.
Variable env : Env.

Lemma network_only_calm p : network_only p → calm p.
Proof.
  intros Hp.
  assert (∀ e, is_fetch e = false → p e = false) as Hn.
  { intros e He. destruct (p e) eqn:E; [|done]. apply Hp in E. congruence. }
  split; [split|]; [intros []; try done; by apply Hn|..]; intros; by apply Hn.
Qed.

Lemma network_only_fetch : network_only is_fetch.
Proof. by intros e. Qed.

Lemma network_only_fetch_of url : network_only (is_fetch_of url).
Proof. by intros []. Qed.

(** A first attempt that is answered with an ok response whose body parses
    ends the call with a success. *)
Lemma answered_attempt_succeeds fuel url options w r data :
  network env (fetches w) = {| during := []; settles := Resolves r |} →
  ok r = true →
  body_of r = inr data →
  throws (successCallback options) = false →
  ∃ w',
    makeRequest_fuel env (S fuel) url options w =
      (Return (success_result data r), w') ∧
    ∀ p, calm p →
      count p w' =
      (count p w +
       if p (EFetch url (sent env (spread defaultConfig options) w))
       then 1 else 0)%nat.
Proof.
  intros Hnet Hok Hbody Hcb.
  rewrite makeRequest_fuel_S. cbn zeta.
  set (config := spread defaultConfig options).
  set (requestId := idgen env (ids_drawn w)).
  rewrite makeRequest_try_eq. cbn zeta.
  change (fetches (bump_ids w)) with (fetches w).
  change (next_handle (bump_ids w)) with (next_handle w).
  rewrite Hnet. cbn [settles]. rewrite Hok.
  pose proof (not_aborted_undisturbed env requestId url config (bump_ids w)) as Hna.
  change (fetches (bump_ids w)) with (fetches w) in Hna.
  change (next_handle (bump_ids w)) with (next_handle w) in Hna.
  rewrite Hnet in Hna. rewrite (Hna eq_refl).
  set (w2 := in_flight env requestId url config (bump_ids w)).
  assert (throws (successCallback config) = false) as Hcb'.
  { unfold config. simpl. by destruct (successCallback options). }
  assert ((finish env requestId config (S (next_handle w)) r w2).1 =
          Return (success_result data r)) as Hres.
  { unfold finish, bind, act, ret, parse_body, call_callback, throw.
    rewrite Hbody.
    by destruct (resolve_loading env config),
      (successCallback config) as [[]|]. }
  pose proof (count_finish env) as Hcount.
  destruct (finish env requestId config (S (next_handle w)) r w2)
    as [res w3] eqn:Ef. cbn [fst] in Hres. subst res.
  exists w3. split; [done|]. intros p Hp.
  specialize (Hcount p requestId config (S (next_handle w)) r w2 (proj1 Hp)).
  rewrite Ef in Hcount. cbn [snd] in Hcount. rewrite Hcount.
  unfold w2. rewrite count_in_flight by done. done.
Qed.

(** The search of a well set-up form makes the network calls of its one
    request, and no other. *)
Lemma handleSearch_calls form query container w r data :
  querySelector env (default "null" (data_result_container form))
    = Some container →
  let url := or_else (Some (search_action form))
               (default "" (data_search_url form)) in
  url ≠ "" →
  trim query ≠ "" →
  network env (fetches w) = {| during := []; settles := Resolves r |} →
  ok r = true →
  body_of r = inr data →
  ∀ p, network_only p →
    count p (handleSearch env form query w).2 =
    (count p w +
     if p (EFetch (searchUrl env url query)
             (sent env (spread defaultConfig search_config) w))
     then 1 else 0)%nat.
Proof.
  intros Hc url Hu Hq Hnet Hok Hbody p Hp.
  assert (∀ e, is_fetch e = false → p e = false) as Hn.
  { intros e He. destruct (p e) eqn:E; [|done]. apply Hp in E. congruence. }
  unfold handleSearch. rewrite Hc. fold url.
  assert (String.eqb url "" = false) as -> by by apply String.eqb_neq.
  assert (String.eqb (trim query) "" = false) as -> by by apply String.eqb_neq.
  unfold makeRequest, bind at 1.
  destruct (answered_attempt_succeeds (Z.to_nat (budget search_config))
              (searchUrl env url query) search_config w r data Hnet Hok Hbody
              eq_refl) as (w1 & -> & Hcount).
  rewrite <- (Hcount p (network_only_calm p Hp)).
  cbn [success success_result result_data default from_option id].
  unfold property, bind, act, ret, throw.
  destruct data as [| | | |items|fields]; simpl;
    rewrite ?count_emit, ?Hn by done; try lia.
  destruct (truthy (assoc "html" fields)); simpl;
    rewrite ?count_emit, ?Hn by done; try lia.
  destruct (truthy (assoc "results" fields)); simpl;
    rewrite ?count_emit, ?Hn by done; lia.
Qed.

End Success.

Section Retrying.
Variable env : Env.

(** A failure that keeps coming back, with a message that has no 4 in it,
    uses up the whole retry budget. *)
Lemma persistent_failure_exhausts_budget (n : nat) url options w r :
  (∀ k, network env k = {| during := []; settles := Resolves r |}) →
  ok r = false →
  includes "4" ("HTTP error! status: " +:+ pretty (status r)) = false →
  throws (errorCallback options) = false →
  budget options = Z.of_nat n →
  ∃ w',
    makeRequest env url options w =
      (Return (failure_result ("HTTP error! status: " +:+ pretty (status r))),
       w') ∧
    fetches w' = (fetches w + S n)%nat.
Proof.
  intros Hnet Hok Hmsg. revert options w.
  induction n as [|n IH]; intros options w Hcb Hb.
  - set (e := Error ("HTTP error! status: " +:+ pretty (status r))).
    destruct (failed_attempt_is_final env (Z.to_nat (budget options)) url
                options w e) as (w' & Heq & Hf & _).
    + rewrite makeRequest_try_eq. cbn zeta.
      rewrite not_aborted_undisturbed by by rewrite Hnet.
      rewrite Hnet. cbn [settles]. by rewrite Hok.
    + unfold should_retry. unfold budget in Hb.
      destruct (retries (spread defaultConfig options)) as [m|]; [|done].
      simpl in Hb. subst m. done.
    + rewrite Hcb. apply orb_true_r.
    + exists w'. split; [done | lia].
  - unfold makeRequest. rewrite Hb, Nat2Z.id.
    rewrite makeRequest_fuel_S. cbn zeta.
    set (config := spread defaultConfig options).
    set (requestId := idgen env (ids_drawn w)).
    rewrite makeRequest_try_eq. cbn zeta.
    rewrite not_aborted_undisturbed by by rewrite Hnet.
    rewrite Hnet. cbn [settles]. rewrite Hok.
    unfold request_failed.
    set (e := Error ("HTTP error! status: " +:+ pretty (status r))).
    set (w3 := makeRequest_cleanup requestId _).
    assert (fetches w3 = S (fetches w)) as Hf3.
    { unfold w3, fetches. rewrite count_cleanup by apply quiet_fetch.
      rewrite count_emit. simpl.
      rewrite count_in_flight by apply calm_fetch. simpl.
      change (count is_fetch (bump_ids w)) with (count is_fetch w). lia. }
    assert (retries config = Some (Z.of_nat (S n))) as Hr.
    { unfold budget in Hb. fold config in Hb.
      destruct (retries config) as [m|] eqn:Em; simpl in Hb; [by subst|].
      lia. }
    unfold makeRequest_catch.
    assert (String.eqb (name e) "AbortError" = false) as -> by done.
    assert (should_retry config e = true) as ->.
    { unfold should_retry. rewrite Hr. unfold e, Error. cbn [message].
      rewrite Hmsg. apply andb_true_iff. split; [|done].
      apply Z.gtb_lt. lia. }
    unfold delay, bind, act. rewrite Hr. cbn [default from_option id].
    set (w4 := emit (EDelay _) _).
    destruct (IH (with_retries config (Z.of_nat (S n) - 1)) w4)
      as (w' & Heq & Hf).
    + unfold config. simpl. unfold override.
      by destruct (errorCallback options) as [[]|].
    + unfold config. rewrite budget_with_retries. lia.
    + unfold makeRequest in Heq. unfold config in Heq.
      rewrite budget_with_retries in Heq. fold config in Heq.
      replace (Z.to_nat (Z.of_nat (S n) - 1)) with n in Heq by lia.
      exists w'. split; [exact Heq|].
      rewrite Hf. unfold w4. unfold fetches in *. rewrite !count_emit. simpl.
      lia.
Qed.

End Retrying.

(** * Later states of the page *)

Lemma extends_iff w w' : extends w w' ↔ ∃ l, trace w' = (trace w ++ l)%list.
Proof.
  unfold extends, since. split; [by eexists|].
  intros [l ->]. by rewrite drop_app_length.
Qed.

Lemma extends_refl w : extends w w.
Proof. apply extends_iff. exists []. by rewrite app_nil_r. Qed.

Lemma extends_trans w1 w2 w3 : extends w1 w2 → extends w2 w3 → extends w1 w3.
Proof.
  rewrite !extends_iff. intros [l1 H1] [l2 H2]. exists (l1 ++ l2)%list.
  by rewrite H2, H1, app_assoc.
Qed.

Lemma extends_same w w' : trace w' = trace w → extends w w'.
Proof. intros H. apply extends_iff. exists []. by rewrite app_nil_r. Qed.

Lemma extends_emit e w w' : extends w w' → extends w (emit e w').
Proof.
  rewrite !extends_iff. intros [l H]. exists (l ++ [e])%list.
  simpl. by rewrite H, app_assoc.
Qed.

Lemma since_count p w w' :
  extends w w' →
  count p w' = (count p w + length (filter (λ e, p e = true) (since w w')))%nat.
Proof.
  intros H. unfold extends in H. unfold count.
  transitivity (length (filter (λ e, p e = true)
                          (trace w ++ since w w')%list)); [by f_equal; f_equal|].
  by rewrite filter_app, length_app.
Qed.

Lemma extends_count p w w' : extends w w' → (count p w ≤ count p w')%nat.
Proof. intros H. rewrite (since_count p w w' H). lia. Qed.

Lemma extends_cancel_entry k r w : extends w (cancel_entry k r w).
Proof.
  unfold cancel_entry, helpers.hideLoading, clearTimeout, abort.
  destruct (pr_loadingElement r); repeat apply extends_emit;
    by apply extends_same.
Qed.

Lemma extends_cancel_loop url l w : extends w (foldl (cancel_step url) w l).
Proof.
  revert w. induction l as [|kv l IH]; intros w; [apply extends_refl|].
  cbn [foldl]. eapply extends_trans; [|apply IH].
  unfold cancel_step. destruct (targets _ _ _); [|apply extends_refl].
  eapply extends_trans; [apply extends_cancel_entry | by apply extends_same].
Qed.

Lemma extends_cancel_all_loop l w : extends w (foldl cancel_all_step w l).
Proof.
  revert w. induction l as [|kv l IH]; intros w; [apply extends_refl|].
  cbn [foldl]. eapply extends_trans; [|apply IH]. apply extends_cancel_entry.
Qed.

Lemma extends_interfere w i : extends w (interfere w i).
Proof.
  destruct i as [t|target|]; cbn [interfere].
  - destruct (timers w !! t); [|apply extends_refl].
    unfold abort. apply extends_emit. by apply extends_same.
  - apply extends_cancel_loop.
  - eapply extends_trans; [apply extends_cancel_all_loop|by apply extends_same].
Qed.

Lemma extends_interference l w : extends w (foldl interfere w l).
Proof.
  revert w. induction l as [|i l IH]; intros w; [apply extends_refl|].
  cbn [foldl]. eapply extends_trans; [apply extends_interfere | apply IH].
Qed.

Section LaterStates.
Variable env : Env.

Lemma extends_in_flight requestId url config w :
  extends w (in_flight env requestId url config w).
Proof.
  unfold in_flight. eapply extends_trans; [|apply extends_interference].
  apply extends_emit. rewrite begun_eq. cbn zeta.
  unfold pending_set. eapply extends_trans; [|by apply extends_same].
  apply extends_emit.
  eapply extends_trans; [|by apply extends_same].
  unfold shown, helpers.showLoading.
  assert (extends w (after_cancel url config w)) as Hc.
  { unfold after_cancel. destruct (cancels_pending config);
      [apply extends_cancel_loop | apply extends_refl]. }
  destruct (resolve_loading env config); [by apply extends_emit | done].
Qed.

Lemma extends_finish requestId config t r w :
  extends w (finish env requestId config t r w).2.
Proof.
  unfold finish, bind, act, ret, parse_body, call_callback, throw,
    helpers.hideLoading, clearTimeout, pending_delete.
  destruct (resolve_loading env config), (body_of r);
    destruct (successCallback config) as [[]|]; cbn [fst snd];
    repeat apply extends_emit; by apply extends_same.
Qed.

Lemma extends_try requestId url config w :
  extends w (makeRequest_try env requestId url config w).2.
Proof.
  rewrite makeRequest_try_eq. cbn zeta.
  pose proof (extends_in_flight requestId url config w) as H.
  assert (∀ e, extends w (request_failed e
                            (in_flight env requestId url config w)).2) as Hf.
  { intros e. unfold request_failed. cbn [snd]. by apply extends_emit. }
  destruct (aborted _ _); [apply Hf|].
  destruct (settles _) as [r|e]; [|apply Hf].
  destruct (ok r); [|apply Hf].
  eapply extends_trans; [exact H | apply extends_finish].
Qed.

Lemma extends_cleanup requestId w : extends w (makeRequest_cleanup requestId w).
Proof.
  unfold makeRequest_cleanup, helpers.hideLoading, clearTimeout, pending_delete.
  destruct (pendingRequests w !! requestId) as [r|]; [|apply extends_refl].
  destruct (pr_loadingElement r); cbn zeta;
    (eapply extends_trans; [|by apply extends_same]);
    repeat apply extends_emit; by apply extends_same.
Qed.

Lemma extends_catch_final again config e w :
  (String.eqb (name e) "AbortError" || negb (should_retry config e)) = true →
  extends w (makeRequest_catch env again config e w).2.
Proof.
  intros Hfinal. unfold makeRequest_catch.
  destruct (String.eqb (name e) "AbortError").
  { unfold bind, act, ret. cbn [snd]. apply extends_emit, extends_refl. }
  simpl in Hfinal. apply negb_true_iff in Hfinal. rewrite Hfinal.
  unfold bind, when, act, ret, call_callback, throw, showError,
    showNotification.
  destruct (errorCallback config) as [[]|];
    destruct (default false (showErrors config));
    destruct (querySelector env ".messages"); cbn [fst snd];
    repeat apply extends_emit; apply extends_refl.
Qed.

(** Whatever a call does, it adds to what has happened. *)
Lemma extends_makeRequest fuel url options w :
  extends w (makeRequest_fuel env fuel url options w).2.
Proof.
  revert options w. induction fuel as [|fuel IH]; intros options w.
  { apply extends_refl. }
  rewrite makeRequest_fuel_S. cbn zeta.
  set (config := spread defaultConfig options).
  set (requestId := idgen env (ids_drawn w)).
  pose proof (extends_try requestId url config (bump_ids w)) as Ht.
  assert (extends w (bump_ids w)) as Hb by (by apply extends_same).
  destruct (makeRequest_try env requestId url config (bump_ids w))
    as [[res|e|] w1]; cbn [fst snd] in *;
    [by eapply extends_trans | | by eapply extends_trans].
  assert (extends w (makeRequest_cleanup requestId w1)) as H2.
  { eapply extends_trans; [exact Hb|].
    eapply extends_trans; [exact Ht | apply extends_cleanup]. }
  destruct (String.eqb (name e) "AbortError" || negb (should_retry config e))
    eqn:Ef.
  - eapply extends_trans; [exact H2 | by apply extends_catch_final].
  - apply orb_false_iff in Ef as [Ea Er]. apply negb_false_iff in Er.
    unfold makeRequest_catch. rewrite Ea, Er. unfold delay, bind, act.
    cbn [fst snd]. eapply extends_trans; [|apply IH].
    by do 2 apply extends_emit.
Qed.

End LaterStates.

(** * Hidings that a kind of event spares *)

Lemma spares_quiet p w : quiet p → spares p w.
Proof. intros [_ Hh] k r el _ _. apply Hh. Qed.

Lemma spares_shrinks p w w' : shrinks w w' → spares p w → spares p w'.
Proof. intros Hs Hp k r el Hk. apply Hp. by apply Hs. Qed.

Lemma count_cancel_entry_spared p k r w :
  plain p →
  (∀ el, pr_loadingElement r = Some el → p (EHideLoading k el) = false) →
  count p (cancel_entry k r w) = count p w.
Proof.
  intros Hp Hh. unfold cancel_entry.
  destruct (pr_loadingElement r) as [el|]; plain_steps Hp;
    rewrite ?Hh by done; lia.
Qed.

Lemma count_cancel_loop_spared p url l w :
  plain p →
  (∀ k r el, (k, r) ∈ l → pr_loadingElement r = Some el →
             p (EHideLoading k el) = false) →
  count p (foldl (cancel_step url) w l) = count p w.
Proof.
  intros Hp. revert w. induction l as [|[k r] l IH]; intros w Hl; [done|].
  cbn [foldl]. rewrite IH.
  - unfold cancel_step. cbn [fst snd]. destruct (targets _ _ _); [|done].
    unfold pending_delete. rewrite count_set_pending.
    apply count_cancel_entry_spared; [done|]. intros el. apply Hl.
    apply elem_of_cons. by left.
  - intros k' r' el Hin. apply Hl. apply elem_of_cons. by right.
Qed.

Lemma count_cancel_all_loop_spared p l w :
  plain p →
  (∀ k r el, (k, r) ∈ l → pr_loadingElement r = Some el →
             p (EHideLoading k el) = false) →
  count p (foldl cancel_all_step w l) = count p w.
Proof.
  intros Hp. revert w. induction l as [|[k r] l IH]; intros w Hl; [done|].
  cbn [foldl]. rewrite IH.
  - unfold cancel_all_step. cbn [fst snd].
    apply count_cancel_entry_spared; [done|]. intros el. apply Hl.
    apply elem_of_cons. by left.
  - intros k' r' el Hin. apply Hl. apply elem_of_cons. by right.
Qed.

Lemma count_cancelPendingRequest_spared p url w :
  plain p → spares p w → count p (cancelPendingRequest url w) = count p w.
Proof.
  intros Hp Hs. unfold cancelPendingRequest.
  apply count_cancel_loop_spared; [done|]. intros k r el Hin. apply Hs.
  by apply elem_of_map_to_list.
Qed.

Lemma count_interfere_spared p w i :
  plain p → spares p w → count p (interfere w i) = count p w.
Proof.
  intros Hp Hs. destruct i as [t|target|]; cbn [interfere].
  - destruct (timers w !! t); [|done]. plain_steps Hp. lia.
  - by apply count_cancelPendingRequest_spared.
  - rewrite cancelAllRequests_eq, count_set_pending.
    apply count_cancel_all_loop_spared; [done|]. intros k r el Hin. apply Hs.
    by apply elem_of_map_to_list.
Qed.

Lemma count_interference_spared p l w :
  plain p → spares p w → count p (foldl interfere w l) = count p w.
Proof.
  intros Hp. revert w. induction l as [|i l IH]; intros w Hs; [done|].
  cbn [foldl]. rewrite IH.
  - by apply count_interfere_spared.
  - eapply spares_shrinks; [apply interfere_shrinks | done].
Qed.

(** The four kinds of hiding an indicator that an element and a request
    tell apart. *)
Lemma count_hides_split k el w :
  (count (is_hide_on el) w + count (is_hide_elsewhere k el) w =
   count (is_hide_for_other k el) w + count (is_hide k) w)%nat.
Proof.
  unfold count. induction (trace w) as [|e l IH]; [done|].
  rewrite !filter_cons.
  destruct e; cbn [is_hide_on is_hide_elsewhere is_hide_for_other is_hide];
    try (repeat case_decide; (done || lia)).
  destruct (Nat.eqb el0 el), (String.eqb requestId k); cbn [andb negb];
    repeat case_decide; try done; cbn [length]; lia.
Qed.

Lemma plain_show_on el : plain (is_show_on el).
Proof. by intros []. Qed.
Lemma quiet_show_on el : quiet (is_show_on el).
Proof. split; [apply plain_show_on | done]. Qed.
Lemma plain_hide_on el : plain (is_hide_on el).
Proof. by intros []. Qed.
Lemma plain_hide_elsewhere k el : plain (is_hide_elsewhere k el).
Proof. by intros []. Qed.
Lemma plain_hide_for_other k el : plain (is_hide_for_other k el).
Proof. by intros []. Qed.

Section AttemptsOnAnElement.
Variable env : Env.

Lemma resolve_loading_with_retries options n :
  resolve_loading env
    (spread defaultConfig (with_retries (spread defaultConfig options) n)) =
  resolve_loading env (spread defaultConfig options).
Proof.
  unfold resolve_loading. simpl. unfold override.
  by destruct (showLoading options), (loadingElement options).
Qed.

Lemma after_cancel_shrinks url config w : shrinks w (after_cancel url config w).
Proof.
  unfold after_cancel. destruct (cancels_pending config);
    [apply cancelPendingRequest_shrinks | apply shrinks_refl].
Qed.

Lemma spares_begun p requestId url config w :
  spares p w →
  (∀ el, resolve_loading env config = Some el →
         p (EHideLoading requestId el) = false) →
  spares p (begun env requestId url config w).
Proof.
  intros Hs Hown k r el. rewrite begun_pending.
  destruct (decide (k = requestId)) as [->|Hne].
  - rewrite lookup_insert_eq. intros [= <-]. cbn. apply Hown.
  - rewrite lookup_insert_ne by done. intros Hk. apply Hs.
    by apply (after_cancel_shrinks url config).
Qed.

Lemma count_in_flight_spared p requestId url config w :
  plain p → spares p w →
  (∀ el, resolve_loading env config = Some el →
         p (EHideLoading requestId el) = false) →
  let w2 := in_flight env requestId url config w in
  spares p w2 ∧
  count p w2 =
  (count p w +
   match resolve_loading env config with
   | Some el =>
       if p (EShowLoading requestId el (default "Loading..." (loadingText config)))
       then 1 else 0
   | None => 0
   end +
   if p (EFetch url (sent env config w)) then 1 else 0)%nat.
Proof.
  intros Hp Hs Hown w2. unfold w2, in_flight.
  set (w1 := emit _ _).
  assert (spares p w1) as Hs1 by (by apply spares_begun).
  split.
  - eapply spares_shrinks; [apply interference_shrinks | done].
  - rewrite count_interference_spared by done.
    unfold w1. rewrite count_emit, count_begun by done.
    unfold after_cancel. destruct (cancels_pending config);
      rewrite ?count_cancelPendingRequest_spared by done; lia.
Qed.

(** One attempt and the clean-up after it, for a kind of event that spares
    the hidings of the registry and of the attempt itself. *)
Lemma count_attempt p requestId url config w :
  plain p → spares p w →
  (∀ el, resolve_loading env config = Some el →
         p (EHideLoading requestId el) = false) →
  let run := makeRequest_try env requestId url config w in
  let n :=
    (count p w +
     match resolve_loading env config with
     | Some el =>
         if p (EShowLoading requestId el
                 (default "Loading..." (loadingText config)))
         then 1 else 0
     | None => 0
     end +
     if p (EFetch url (sent env config w)) then 1 else 0)%nat in
  count p run.2 = n ∧ count p (makeRequest_cleanup requestId run.2) = n.
Proof.
  intros Hp Hs Hown run n. unfold run. rewrite makeRequest_try_eq. cbn zeta.
  destruct (count_in_flight_spared p requestId url config w Hp Hs Hown)
    as [Hs2 Hc2].
  fold n in Hc2. set (w2 := in_flight env requestId url config w) in *.
  assert (∀ e, count p (request_failed e w2).2 = n ∧
               count p (makeRequest_cleanup requestId (request_failed e w2).2)
               = n) as Hfailed.
  { intros e. unfold request_failed. cbn [snd]. set (w3 := emit _ w2).
    assert (count p w3 = n) as H3.
    { unfold w3. rewrite count_emit. plain_steps Hp. lia. }
    split; [done|].
    destruct (cleanup_effect requestId w3) as (_ & _ & Hc).
    rewrite Hc by done. change (pendingRequests w3) with (pendingRequests w2).
    destruct (pendingRequests w2 !! requestId) as [entry|] eqn:E; [|lia].
    destruct (pr_loadingElement entry) as [el|] eqn:El; [|lia].
    rewrite (Hs2 requestId entry el E El). lia. }
  destruct (aborted _ _); [apply Hfailed|].
  destruct (settles _) as [r|e]; [|apply Hfailed].
  destruct (ok r); [|apply Hfailed].
  destruct (finish_effect env requestId config (S (next_handle w)) r w2)
    as (Hpend & _ & Hc).
  assert (count p (finish env requestId config (S (next_handle w)) r w2).2 = n)
    as H3.
  { rewrite Hc by done.
    destruct (resolve_loading env config) as [el|] eqn:El; [|lia].
    rewrite (Hown el eq_refl). lia. }
  split; [done|].
  destruct (cleanup_effect requestId
              (finish env requestId config (S (next_handle w)) r w2).2)
    as (_ & _ & Hc').
  rewrite Hc' by done. rewrite Hpend, lookup_delete_eq. lia.
Qed.

(** The registry after an attempt has no entry that it had not before. *)
Lemma attempt_shrinks requestId url config w :
  pendingRequests w !! requestId = None →
  let run := makeRequest_try env requestId url config w in
  (∀ res, run.1 = Return res → shrinks w run.2) ∧
  shrinks w (makeRequest_cleanup requestId run.2).
Proof.
  intros Hk run.
  pose proof (try_shrinks env requestId url config w) as Hsh. fold run in Hsh.
  assert (∀ k r, k ≠ requestId → pendingRequests run.2 !! k = Some r →
                 pendingRequests w !! k = Some r) as Hother.
  { intros k r Hne Hr. apply Hsh in Hr. rewrite begun_pending in Hr.
    rewrite lookup_insert_ne in Hr by done.
    by apply (after_cancel_shrinks url config). }
  pose proof (try_own env requestId url config w Hk) as Hown. fold run in Hown.
  split.
  - intros res Hres k r Hr.
    destruct (decide (k = requestId)) as [->|Hne]; [|by apply Hother].
    destruct run as [[res'|e|] w1]; cbn [fst snd] in *; [|done..].
    destruct Hown as [Hnone _]. congruence.
  - intros k r. destruct (cleanup_effect requestId run.2) as (Hp & _ & _).
    rewrite Hp. intros Hr. apply lookup_delete_Some in Hr as [Hne Hr].
    by apply Hother.
Qed.

(** What one attempt, cleaned up, does to the indicator of its element. *)
Lemma attempt_on_element requestId url config w el :
  resolve_loading env config = Some el →
  indicator_free el w →
  pendingRequests w !! requestId = None →
  let run := makeRequest_try env requestId url config w in
  ∀ w',
    (w' = run.2 ∧ (∃ res, run.1 = Return res)) ∨
    w' = makeRequest_cleanup requestId run.2 →
    count (is_show_on el) w' = S (count (is_show_on el) w) ∧
    count (is_hide_on el) w' = S (count (is_hide_on el) w) ∧
    fetches w' = S (fetches w) ∧
    ids_drawn w' = ids_drawn w ∧
    shrinks w w'.
Proof.
  intros Hel Hfree Hk run w' Hw'.
  set (k := requestId) in *.
  assert (∀ p, plain p → spares p w → p (EHideLoading k el) = false →
            (∀ t, p (EShowLoading k el t) = false) →
            (∀ u ro, p (EFetch u ro) = false) →
            count p w' = count p w) as Hsame.
  { intros p Hp Hs Hown Hshow Hfetch.
    destruct (count_attempt p k url config w Hp Hs) as [H1 H2].
    { intros el' Hel'. rewrite Hel in Hel'. by injection Hel' as <-. }
    fold run in H1, H2. rewrite Hel, Hshow, Hfetch in H1, H2.
    destruct Hw' as [[-> _]| ->]; lia. }
  assert (count (is_show_on el) w' = S (count (is_show_on el) w)) as Hshow.
  { destruct (count_attempt (is_show_on el) k url config w
                (plain_show_on el) (spares_quiet _ _ (quiet_show_on el)))
      as [H1 H2]; [done|].
    fold run in H1, H2. rewrite Hel in H1, H2.
    cbn [is_show_on] in H1, H2. rewrite Nat.eqb_refl in H1, H2.
    destruct Hw' as [[-> _]| ->]; lia. }
  assert (count (is_hide k) w' = S (count (is_hide k) w)) as Hown.
  { pose proof (try_own env k url config w Hk) as Ht. fold run in Ht.
    unfold shows_one in Ht. rewrite Hel in Ht.
    destruct Hw' as [[-> [res Hres]]| ->].
    - destruct run as [[res'|e|] w1]; cbn [fst snd] in *; [|done..].
      destruct Ht as (_ & Hh & _). lia.
    - destruct run as [[res'|e|] w1]; cbn [fst snd] in *; [|by destruct Ht as (_ & Hh & _); lia|done].
      destruct Ht as (Hnone & Hh & _).
      destruct (cleanup_effect k w1) as (_ & _ & Hc).
      rewrite Hc by apply plain_hide. rewrite Hnone. lia. }
  assert (count (is_hide_elsewhere k el) w' = count (is_hide_elsewhere k el) w)
    as Helse.
  { apply Hsame; [apply plain_hide_elsewhere| | |done..].
    - intros k' r el' Hk' _. cbn [is_hide_elsewhere].
      assert (String.eqb k' k = false) as ->; [|done].
      apply String.eqb_neq. intros ->. congruence.
    - cbn [is_hide_elsewhere]. by rewrite Nat.eqb_refl, andb_false_r. }
  assert (count (is_hide_for_other k el) w' = count (is_hide_for_other k el) w)
    as Hother.
  { apply Hsame; [apply plain_hide_for_other| | |done..].
    - intros k' r el' Hk' Hel'. cbn [is_hide_for_other].
      assert (Nat.eqb el' el = false) as ->; [|done].
      apply Nat.eqb_neq. intros ->. by apply (Hfree k' r).
    - cbn [is_hide_for_other]. by rewrite String.eqb_refl, andb_false_r. }
  pose proof (count_hides_split k el w) as Hw.
  pose proof (count_hides_split k el w') as Hw2.
  split; [done|]. split; [lia|].
  destruct (attempt_shrinks k url config w Hk) as [Hs1 Hs2]. fold run in Hs1, Hs2.
  destruct Hw' as [[-> [res Hres]]| ->].
  - split; [apply fetches_try|]. split; [apply try_ids|]. by apply (Hs1 res).
  - split.
    { unfold fetches. rewrite count_cleanup by apply quiet_fetch.
      apply fetches_try. }
    split; [|done].
    destruct (cleanup_effect k run.2) as (_ & -> & _). apply try_ids.
Qed.

End AttemptsOnAnElement.

Section CallsOnAnElement.
Variable env : Env.

Lemma fresh_ids_later w w' :
  shrinks w w' → (ids_drawn w ≤ ids_drawn w')%nat →
  fresh_ids env w → fresh_ids env w'.
Proof.
  intros Hs Hi [Hnew Hinj]. split.
  - intros j Hj.
    destruct (pendingRequests w' !! idgen env j) as [r|] eqn:E; [|done].
    apply Hs in E. rewrite Hnew in E by lia. done.
  - intros i j Hi' Hj. apply Hinj; lia.
Qed.

Lemma indicator_free_later el w w' :
  shrinks w w' → indicator_free el w → indicator_free el w'.
Proof. intros Hs Hf k r Hk. apply (Hf k). by apply Hs. Qed.

(** A call shows and hides the indicator of its element once for every
    attempt, and makes one network call in every attempt. *)
Lemma call_on_element fuel url options w el :
  resolve_loading env (spread defaultConfig options) = Some el →
  indicator_free el w →
  (∀ j, (ids_drawn w ≤ j)%nat → pendingRequests w !! idgen env j = None) →
  let w' := (makeRequest_fuel env fuel url options w).2 in
  ∃ attempts,
    (attempts ≤ fuel)%nat ∧ (fuel ≠ 0%nat → attempts ≠ 0%nat) ∧
    ids_drawn w' = (ids_drawn w + attempts)%nat ∧
    fetches w' = (fetches w + attempts)%nat ∧
    count (is_show_on el) w' = (count (is_show_on el) w + attempts)%nat ∧
    count (is_hide_on el) w' = (count (is_hide_on el) w + attempts)%nat ∧
    shrinks w w'.
Proof.
  revert options w. induction fuel as [|fuel IH]; intros options w Hel Hfree Hnew w'.
  { exists 0%nat. unfold w'. cbn. repeat split; try lia. apply shrinks_refl. }
  unfold w'. rewrite makeRequest_fuel_S. cbn zeta.
  set (config := spread defaultConfig options) in *.
  set (requestId := idgen env (ids_drawn w)).
  assert (pendingRequests (bump_ids w) !! requestId = None) as Hk
    by (apply Hnew; lia).
  pose proof (attempt_on_element env requestId url config (bump_ids w) el
                Hel Hfree Hk) as Hatt.
  cbn zeta in Hatt.
  change (count ?p (bump_ids w)) with (count p w) in Hatt.
  change (fetches (bump_ids w)) with (fetches w) in Hatt.
  change (ids_drawn (bump_ids w)) with (S (ids_drawn w)) in Hatt.
  destruct (makeRequest_try env requestId url config (bump_ids w))
    as [[res|e|] w1] eqn:Et; cbn [fst snd] in *.
  - destruct (Hatt w1) as (Hs & Hh & Hf & Hi & Hsh); [left; eauto|].
    exists 1%nat. repeat split; try lia. exact Hsh.
  - set (w2 := makeRequest_cleanup requestId w1) in *.
    destruct (Hatt w2) as (Hs & Hh & Hf & Hi & Hsh); [by right|].
    destruct (String.eqb (name e) "AbortError" || negb (should_retry config e))
      eqn:Ef.
    + destruct (makeRequest_catch_final_frame env
                  (makeRequest_fuel env fuel url) config e w2 Ef) as [Hp Hi3].
      exists 1%nat. unfold fetches in *.
      rewrite !count_makeRequest_catch_final
        by (done || apply plain_fetch || apply plain_show_on
            || apply plain_hide_on).
      repeat split; try lia.
      intros k r. rewrite Hp. apply Hsh.
    + apply orb_false_iff in Ef as [Ea Er]. apply negb_false_iff in Er.
      unfold makeRequest_catch. rewrite Ea, Er. unfold delay, bind, act.
      cbn [fst snd]. set (w3 := emit (EDelay _) _).
      assert (shrinks w w3) as Hsh3 by (intros k r; apply Hsh).
      destruct (IH (with_retries config (default 0 (retries config) - 1)) w3)
        as (n & Hn & _ & Hi' & Hf' & Hs' & Hh' & Hsh').
      { unfold config. by rewrite resolve_loading_with_retries. }
      { by apply (indicator_free_later el w). }
      { intros j Hj.
        destruct (pendingRequests w3 !! idgen env j) as [r|] eqn:E; [|done].
        apply Hsh3 in E. rewrite Hnew in E; [done|].
        change (ids_drawn w3) with (ids_drawn w2) in Hj. lia. }
      exists (S n).
      change (ids_drawn w3) with (ids_drawn w2) in Hi'.
      assert (fetches w3 = fetches w2) as Hf3.
      { unfold w3, fetches. rewrite !count_emit. simpl. lia. }
      assert (count (is_show_on el) w3 = count (is_show_on el) w2) as Hs3.
      { unfold w3. rewrite !count_emit. simpl. lia. }
      assert (count (is_hide_on el) w3 = count (is_hide_on el) w2) as Hh3.
      { unfold w3. rewrite !count_emit. simpl. lia. }
      repeat split; try lia.
      by apply (shrinks_trans _ w3).
  - destruct (Hatt w1) as (Hs & Hh & Hf & Hi & Hsh).
    { right. pose proof (try_own env requestId url config (bump_ids w) Hk) as Ht.
      by rewrite Et in Ht. }
    exists 1%nat. repeat split; try lia. exact Hsh.
Qed.

Lemma shows_one_with_retries options n :
  shows_one env
    (spread defaultConfig (with_retries (spread defaultConfig options) n)) =
  shows_one env (spread defaultConfig options).
Proof. unfold shows_one. by rewrite resolve_loading_with_retries. Qed.

(** Every attempt of a call settles its own request. *)
Lemma makeRequest_settles_all fuel url options w :
  fresh_ids env w →
  let w' := (makeRequest_fuel env fuel url options w).2 in
  ∀ j, (ids_drawn w ≤ j < ids_drawn w')%nat →
       settled (idgen env j) (shows_one env (spread defaultConfig options))
         w w'.
Proof.
  revert options w. induction fuel as [|fuel IH]; intros options w Hfresh w' j Hj.
  { unfold w' in Hj. cbn in Hj. lia. }
  pose proof Hfresh as [Hnew Hinj].
  destruct (decide (j = ids_drawn w)) as [->|Hne].
  { apply makeRequest_settles; [by apply Hnew|].
    intros i Hi Heq. apply Hinj in Heq; lia. }
  revert Hj. unfold w'. rewrite makeRequest_fuel_S. cbn zeta.
  set (config := spread defaultConfig options) in *.
  set (requestId := idgen env (ids_drawn w)).
  set (k := idgen env j).
  pose proof (try_ids env requestId url config (bump_ids w)) as Hi.
  change (ids_drawn (bump_ids w)) with (S (ids_drawn w)) in Hi.
  destruct (makeRequest_try env requestId url config (bump_ids w))
    as [[res|e|] w1] eqn:Et; cbn [fst snd] in *;
    [intros; lia| |intros; lia].
  destruct (cleanup_effect requestId w1) as (_ & Hi2 & _).
  set (w2 := makeRequest_cleanup requestId w1) in *.
  destruct (String.eqb (name e) "AbortError" || negb (should_retry config e))
    eqn:Ef.
  { destruct (makeRequest_catch_final_frame env
                (makeRequest_fuel env fuel url) config e w2 Ef) as [_ Hi3].
    rewrite Hi3. intros. lia. }
  apply orb_false_iff in Ef as [Ea Er]. apply negb_false_iff in Er.
  unfold makeRequest_catch. rewrite Ea, Er. unfold delay, bind, act.
  cbn [fst snd]. set (w3 := emit (EDelay _) _). intros Hj.
  assert (k ≠ requestId) as Hkne.
  { intros Heq. apply Hinj in Heq; lia. }
  assert (pendingRequests (bump_ids w) !! k = None) as Hk
    by (apply Hnew; lia).
  pose proof (try_other env k requestId url config (bump_ids w) Hkne Hk)
    as [_ Hclean].
  rewrite Et in Hclean. cbn [snd] in Hclean. fold w2 in Hclean.
  destruct Hclean as (Hk2 & Hh2 & Hs2).
  change (count ?p (bump_ids w)) with (count p w) in *.
  assert (shrinks w w2) as Hsh.
  { destruct (attempt_shrinks env requestId url config (bump_ids w)) as [_ H].
    { apply Hnew. lia. }
    by rewrite Et in H. }
  assert (fresh_ids env w3) as Hfresh3.
  { apply (fresh_ids_later w); [intros k' r; apply Hsh| |done].
    change (ids_drawn w3) with (ids_drawn w2). lia. }
  destruct (IH (with_retries config (default 0 (retries config) - 1)) w3
              Hfresh3 j) as (Hk4 & Hh4 & Hs4).
  { change (ids_drawn w3) with (ids_drawn w2). lia. }
  unfold config in Hh4, Hs4. rewrite shows_one_with_retries in Hh4, Hs4.
  fold config k in Hk4, Hh4, Hs4.
  split; [done|]. rewrite Hh4, Hs4. unfold w3. rewrite !count_emit. simpl.
  split; lia.
Qed.

Lemma makeRequest_catch_rejects again config e thrown w :
  String.eqb (name e) "AbortError" = false →
  should_retry config e = false →
  errorCallback config = Some (Some thrown) →
  (makeRequest_catch env again config e w).1 = Throw thrown.
Proof.
  intros Ha Hr Hcb. unfold makeRequest_catch. rewrite Ha, Hr.
  unfold bind, when, act, ret, call_callback, throw, showError,
    showNotification.
  rewrite Hcb.
  by destruct (default false (showErrors config));
    destruct (querySelector env ".messages").
Qed.

End CallsOnAnElement.

(** * The claims *)

(** C1 (as a defect of the code): a server that answers 504 Gateway Timeout
    to every call is asked once, although the default budget allows three
    retries: the retry test looks for the character 4 in the error message
    and so takes the 5xx status 504 for a client error. *)
Theorem gateway_timeout_is_not_retried :
  budget no_options = 3 ∧
  ∃ w',
    makeRequest (page (always (status_response 504))) "/api/projects/"
      no_options initial_world =
      (Return (failure_result "HTTP error! status: 504"), w') ∧
    fetches w' = 1%nat.
Proof.
  split; [done|]. eexists. split.
  - vm_compute. reflexivity.
  - vm_compute. reflexivity.
Qed.

(** A 500 from every call, in contrast, is retried until the budget is
    spent: four calls with the default configuration. *)
Example internal_server_error_is_retried :
  fetches (makeRequest (page (always (status_response 500))) "/api/projects/"
             no_options initial_world).2 = 4%nat.
Proof. vm_compute. reflexivity. Qed.

(** The scenario of the specification: 500, 500, then 200 with
    [{results: []}], under two retries: a success after three calls. *)
Example recovers_on_third_attempt :
  let run :=
    makeRequest (page (recovers (JObj [("results", JArr [])]))) "/search?q=ab"
      two_retries initial_world in
  run.1 = Return (success_result (JObj [("results", JArr [])])
                    (json_response (JObj [("results", JArr [])]))) ∧
  fetches run.2 = 3%nat.
Proof. vm_compute. split; reflexivity. Qed.

Section ClaimsOfTheDispatcher.
Variable env : Env.

(** C2, as the code has it: whatever the configuration and the retry
    budget, a call whose request is answered with a 4xx status makes that
    one network call and no other and waits for no retry delay. When the
    error callback does not throw, the call returns a failure to the
    caller, which carries the status message when nothing disturbed the
    request. When the error callback throws, the call does not return a
    failure: it rejects with what the callback threw, unless the request
    was cancelled in flight, which gives the failure of a cancelled
    request. *)
Theorem client_error_never_retried url options w r :
  settles (network env (fetches w)) = Resolves r →
  400 ≤ status r ≤ 499 →
  let run := makeRequest env url options w in
  fetches run.2 = S (fetches w) ∧
  count is_delay run.2 = count is_delay w ∧
  (throws (errorCallback options) = false →
   ∃ res,
     run.1 = Return res ∧ success res = false ∧
     (during (network env (fetches w)) = [] →
      error res = Some ("HTTP error! status: " +:+ pretty (status r)))) ∧
  (∀ thrown,
     errorCallback options = Some (Some thrown) →
     (run.1 = Throw thrown ∨
      run.1 = Return (failure_result "Request cancelled")) ∧
     (during (network env (fetches w)) = [] → run.1 = Throw thrown)).
Proof.
  intros Hr Hs run. unfold run, makeRequest.
  set (config := spread defaultConfig options).
  set (requestId := idgen env (ids_drawn w)).
  set (e := Error ("HTTP error! status: " +:+ pretty (status r))).
  assert (ok r = false) as Hok.
  { unfold ok. apply andb_false_iff. right. lia. }
  assert (should_retry config e = false) as Hno.
  { unfold should_retry. destruct (retries config); [|done].
    unfold e, Error. cbn [message].
    rewrite client_error_message_has_4 by done. by rewrite andb_false_r. }
  pose proof (makeRequest_try_eq env requestId url config (bump_ids w)) as Htry.
  cbn zeta in Htry.
  change (fetches (bump_ids w)) with (fetches w) in Htry.
  change (next_handle (bump_ids w)) with (next_handle w) in Htry.
  rewrite Hr, Hok in Htry. fold e in Htry.
  destruct (aborted (next_handle w) _) eqn:Ea.
  - destruct (failed_attempt_makes_one_call env (Z.to_nat (budget options)) url
                options w AbortError Htry eq_refl) as [Hf Hd].
    destruct (failed_attempt_is_final env (Z.to_nat (budget options)) url
                options w AbortError Htry) as (w' & Heq & _); [done..|].
    assert (during (network env (fetches w)) = [] → False) as Hnot.
    { intros Hnone.
      pose proof (not_aborted_undisturbed env requestId url config (bump_ids w)
                    Hnone).
      change (next_handle (bump_ids w)) with (next_handle w) in *. congruence. }
    split; [done|]. split; [done|]. split.
    + intros Hcb. rewrite Heq. eexists. split; [done|]. split; [done|].
      intros Hnone. by destruct Hnot.
    + intros thrown Hcb. rewrite Heq. split; [by right|].
      intros Hnone. by destruct Hnot.
  - assert ((String.eqb (name e) "AbortError"
             || negb (should_retry (spread defaultConfig options) e)) = true)
      as Hfinal by (fold config; by rewrite Hno).
    destruct (failed_attempt_makes_one_call env (Z.to_nat (budget options)) url
                options w e Htry Hfinal) as [Hf Hd].
    split; [done|]. split; [done|]. split.
    + intros Hcb.
      destruct (failed_attempt_is_final env (Z.to_nat (budget options)) url
                  options w e Htry Hfinal) as (w' & Heq & _).
      { by rewrite Hcb. }
      rewrite Heq. eexists. by repeat split.
    + intros thrown Hcb.
      assert ((makeRequest_fuel env (S (Z.to_nat (budget options))) url
                 options w).1 = Throw thrown) as Hthrown.
      { rewrite makeRequest_fuel_S. cbn zeta. fold config requestId.
        rewrite Htry. unfold request_failed.
        apply makeRequest_catch_rejects; [done|done|].
        unfold config. simpl. by rewrite Hcb. }
      split; [by left | done].
Qed.

(** C3: when the request is cancelled while in flight (its timeout timer
    fires, or cancelPendingRequest or cancelAllRequests reaches it) the call
    returns the failure marked as cancelled, after its one network call and
    without a retry delay, whatever the retry budget. *)
Theorem cancellation_is_terminal url options w :
  cancelled_in_flight w (idgen env (ids_drawn w)) url
    (during (network env (fetches w))) →
  ∃ res w',
    makeRequest env url options w = (Return res, w') ∧
    cancelled res = true ∧
    error res = Some "Request cancelled" ∧
    fetches w' = S (fetches w) ∧
    count is_delay w' = count is_delay w.
Proof.
  intros Hc. unfold makeRequest.
  set (config := spread defaultConfig options).
  set (requestId := idgen env (ids_drawn w)).
  pose proof (makeRequest_try_eq env requestId url config (bump_ids w)) as Htry.
  cbn zeta in Htry.
  rewrite (cancelled_in_flight_aborted env requestId url config (bump_ids w) Hc)
    in Htry.
  destruct (failed_attempt_is_final env (Z.to_nat (budget options)) url options
              w AbortError Htry) as (w' & Heq & Hf & Hd); [done..|].
  eexists _, w'. split; [done|]. by repeat split.
Qed.

(** C4: with cancelling enabled in every dispatch, every sequence of the
    statements that change the registry leaves at most one entry per URL;
    and once two dispatches to a URL have both registered, the registry has
    exactly one entry for the URL (exactly one in all when it was empty
    before), the entry of the first being removed and its controller
    aborted. *)
Theorem one_pending_request_per_url ops w requestId1 requestId2 url
    config1 config2 :
  forallb op_cancels ops = true →
  cancels_pending config2 = true →
  one_per_url (foldl (apply_op env) initial_world ops) ∧
  let w1 := apply_op env w (OpBegin requestId1 url config1) in
  let w2 := apply_op env w1 (OpBegin requestId2 url config2) in
  entries_for url w2 = 1%nat ∧
  (requestId1 ≠ requestId2 → pendingRequests w2 !! requestId1 = None) ∧
  aborted (next_handle w) w2 = true ∧
  (pendingRequests w = ∅ → size (pendingRequests w2) = 1%nat).
Proof.
  intros Hops Hc. split.
  - apply ops_one_per_url; [done | apply one_per_url_initial].
  - destruct (second_dispatch_supersedes env w requestId1 requestId2 url
                config1 config2 Hc) as (H1 & _ & H3 & H4 & H5).
    by repeat split.
Qed.

(** C5, as the code has it: a call that puts a loading indicator on an
    element shows it and hides it once in every attempt, not once in all.
    A call that makes n network calls, one in each attempt and at most one
    more than the retry budget, shows the indicator of the element n times
    and hides it n times, whatever the network answers and whatever
    interferes while a request is in flight (success, failure, retries,
    timeout, explicit cancellation): only a call that is not retried hides
    it exactly once. Every attempt hides the indicator of its own request
    exactly once, and the call leaves no entry in the registry. The
    request ids are assumed fresh, and no other pending request to have
    its indicator on the element. *)
Theorem indicator_hidden_once_per_attempt url options w el :
  resolve_loading env (spread defaultConfig options) = Some el →
  indicator_free el w →
  fresh_ids env w →
  let w' := (makeRequest env url options w).2 in
  let attempts := (fetches w' - fetches w)%nat in
  (1 ≤ attempts ≤ S (Z.to_nat (budget options)))%nat ∧
  ids_drawn w' = (ids_drawn w + attempts)%nat ∧
  count (is_show_on el) w' = (count (is_show_on el) w + attempts)%nat ∧
  count (is_hide_on el) w' = (count (is_hide_on el) w + attempts)%nat ∧
  (∀ j, (ids_drawn w ≤ j < ids_drawn w')%nat →
     count (is_show (idgen env j)) w' = S (count (is_show (idgen env j)) w) ∧
     count (is_hide (idgen env j)) w' = S (count (is_hide (idgen env j)) w)) ∧
  (∀ j, (ids_drawn w ≤ j)%nat → pendingRequests w' !! idgen env j = None) ∧
  indicator_free el w'.
Proof.
  intros Hel Hfree Hfresh w' attempts.
  pose proof Hfresh as [Hnew _].
  destruct (call_on_element env (S (Z.to_nat (budget options))) url options w
              el Hel Hfree Hnew)
    as (n & Hn & Hn0 & Hi & Hf & Hs & Hh & Hsh).
  fold (makeRequest env url options) in Hi, Hf, Hs, Hh, Hsh. fold w' in Hi, Hf, Hs, Hh, Hsh.
  assert (attempts = n) as -> by (unfold attempts; lia).
  split; [split; [|done]|].
  { assert (n ≠ 0%nat) by (by apply Hn0). lia. }
  split; [done|]. split; [done|]. split; [done|]. split; [|split].
  - intros j Hj.
    destruct (makeRequest_settles_all env (S (Z.to_nat (budget options))) url
                options w Hfresh j) as (_ & Hhj & Hsj).
    { fold (makeRequest env url options). by fold w'. }
    fold (makeRequest env url options) in Hhj, Hsj. fold w' in Hhj, Hsj.
    unfold shows_one in Hhj, Hsj. rewrite Hel in Hhj, Hsj. lia.
  - intros j Hj.
    destruct (pendingRequests w' !! idgen env j) as [r|] eqn:E; [|done].
    apply Hsh in E. by rewrite Hnew in E.
  - by apply (indicator_free_later el w).
Qed.

(** C9: a call to makeRequest whose callbacks do not throw returns a result
    object, with data and response when it succeeded and with an error text
    when it did not; it neither throws nor fails to end, whatever the
    network answers and whatever interferes. *)
Theorem makeRequest_always_returns url options w :
  throws (successCallback options) = false →
  throws (errorCallback options) = false →
  ∃ r w',
    makeRequest env url options w = (Return r, w') ∧ well_formed_result r.
Proof.
  intros _ Hcb. apply makeRequest_fuel_returns; [lia|].
  by rewrite throws_spread.
Qed.


(** C6, as the code has it: when the response to a form submission is a
    success whose payload has the redirect target /thanks/, the browser is
    sent to /thanks/, once, and then the form is reset, unless the options
    say [resetForm: false]; the success event is dispatched last. *)
Theorem redirect_navigates_then_resets form options w result w1 fields :
  (data_validate form = false ∨ checkValidity form = true) →
  makeRequest env (submit_url env form options) (submit_config form options) w
    = (Return result, w1) →
  success result = true →
  result_data result = Some (JObj fields) →
  assoc "redirect" fields = Some (JStr "/thanks/") →
  ∃ w',
    submitForm env form options w = (Return result, w') ∧
    trace w' =
      (trace w1 ++ [ENavigate (JStr "/thanks/")] ++
       (if not_false (resetForm options) then [EFormReset] else []) ++
       [EDispatchEvent "ajaxSuccess"])%list.
Proof.
  intros Hv Hreq Hs Hd Hr.
  by apply (redirect_then_reset env form options w result w1 fields "/thanks/").
Qed.

(** C7, as the code has it: a form with validation switched on that fails
    it is not submitted; no network call is made, the browser reports the
    invalid fields, and the failure returned has the message
    "Form validation failed". *)
Theorem invalid_form_is_not_submitted form options w :
  data_validate form = true →
  checkValidity form = false →
  ∃ w',
    submitForm env form options w =
      (Return (failure_result "Form validation failed"), w') ∧
    fetches w' = fetches w ∧
    trace w' = (trace w ++ [EReportValidity])%list.
Proof.
  intros Hv Hc. rewrite invalid_form_not_submitted by done.
  eexists. split; [done|]. split; [|done].
  unfold fetches. rewrite count_emit. simpl. lia.
Qed.

(** C8, as the code has it: keystrokes that each arrive before the timer of
    the one before is due stop that timer, and one search is released, for
    the value the last of them left. On a form with a URL and a result
    container, and with a final value that is not blank, that search is one
    request; when its first attempt is answered with an ok response whose
    body parses, it is one network call, to the search URL of the final
    value. (A failed attempt is retried like any other request.) *)
Theorem rapid_typing_dispatches_one_search form keys container w r data :
  keys ≠ [] →
  rapid keys →
  querySelector env (default "null" (data_result_container form))
    = Some container →
  let url := or_else (Some (search_action form))
               (default "" (data_search_url form)) in
  url ≠ "" →
  trim (final_query keys) ≠ "" →
  network env (fetches w) = {| during := []; settles := Resolves r |} →
  ok r = true →
  body_of r = inr data →
  searches (typed keys) = [final_query keys] ∧
  timers_cancelled (typed keys) = (length keys - 1)%nat ∧
  let w' := (search_session env form keys w).2 in
  fetches w' = S (fetches w) ∧
  count (is_fetch_of (searchUrl env url (final_query keys))) w' =
    S (count (is_fetch_of (searchUrl env url (final_query keys))) w).
Proof.
  intros Hne Hr Hc url Hu Hq Hnet Hok Hbody.
  destruct (rapid_typing_searches_once keys Hne Hr) as [Hs Ht].
  split; [done|]. split; [done|]. cbn zeta.
  unfold search_session. rewrite Hs. cbn [run_searches].
  assert (∀ p, count p ((handleSearch env form (final_query keys);;; ret ()) w).2
               = count p (handleSearch env form (final_query keys) w).2) as Hret.
  { intros p. unfold bind, ret.
    by destruct (handleSearch env form (final_query keys) w) as [[]]. }
  unfold fetches. rewrite !Hret.
  rewrite !(handleSearch_calls env form (final_query keys) container w r data)
    by (done || apply network_only_fetch || apply network_only_fetch_of).
  fold url. simpl. rewrite String.eqb_refl. lia.
Qed.

End ClaimsOfTheDispatcher.

(** * The claims on concrete pages *)

Lemma request_ids_distinct j : (0 < j)%nat → request_ids j ≠ request_ids 0.
Proof.
  intros Hj Heq. unfold request_ids in Heq.
  apply (inj (String.app "req_")) in Heq. apply (inj pretty) in Heq. lia.
Qed.

(** C2 fails as stated: a 404 is answered to a call whose error callback
    throws. The request is not retried, but the call returns no failure:
    it rejects with the error of the callback. *)
Lemma throwing_error_callback_rejects :
  let run :=
    makeRequest (page (always (status_response 404))) "/api/projects/"
      throwing_error_callback initial_world in
  run.1 = Throw (Error "cb boom") ∧
  (∀ res, run.1 ≠ Return res) ∧
  fetches run.2 = 1%nat.
Proof. vm_compute. repeat split; (reflexivity || discriminate). Qed.

(** A 404 from the server: one call, a failure, no retry. *)
Lemma client_error_never_retried_witness :
  let options := throwing_error_callback in
  let run :=
    makeRequest (page (always (status_response 404))) "/api/projects/"
      options initial_world in
  fetches run.2 = S (fetches initial_world) ∧
  count is_delay run.2 = count is_delay initial_world ∧
  (throws (errorCallback options) = false →
   ∃ res,
     run.1 = Return res ∧ success res = false ∧
     (during (always (status_response 404) (fetches initial_world)) = [] →
      error res = Some ("HTTP error! status: " +:+ pretty (status (status_response 404))))) ∧
  (∀ thrown,
     errorCallback options = Some (Some thrown) →
     (run.1 = Throw thrown ∨
      run.1 = Return (failure_result "Request cancelled")) ∧
     (during (always (status_response 404) (fetches initial_world)) = [] →
      run.1 = Throw thrown)).
Proof.
  intros options.
  apply (client_error_never_retried (page (always (status_response 404)))
           "/api/projects/" options initial_world (status_response 404)).
  - reflexivity.
  - simpl. lia.
Defined.

(** The same 404 without callbacks: the failure is returned. *)
Example client_error_is_a_failure :
  (makeRequest (page (always (status_response 404))) "/api/projects/"
     no_options initial_world).1 =
  Return (failure_result "HTTP error! status: 404").
Proof. vm_compute. reflexivity. Qed.

(** The timeout timer of the first request fires, after a cancel that does
    not concern it. *)
Lemma cancellation_is_terminal_witness :
  ∃ res w',
    makeRequest (page first_times_out) "/api/projects/" no_options
      initial_world = (Return res, w') ∧
    cancelled res = true ∧
    error res = Some "Request cancelled" ∧
    fetches w' = S (fetches initial_world) ∧
    count is_delay w' = count is_delay initial_world.
Proof.
  apply (cancellation_is_terminal (page first_times_out) "/api/projects/"
           no_options initial_world).
  left. split.
  - intros k r Hk. simpl in Hk. rewrite lookup_empty in Hk. discriminate.
  - apply list_elem_of_In. right. left. reflexivity.
Defined.

(** Two dispatches to a URL on an empty registry, and a sequence of
    registry operations. *)
Lemma one_pending_request_per_url_witness :
  let env := page (always (status_response 200)) in
  one_per_url
    (foldl (apply_op env) initial_world
       [OpBegin "req_0" "/api/a/" no_options;
        OpBegin "req_1" "/api/b/" no_options;
        OpBegin "req_2" "/api/a/" no_options;
        OpCleanup "req_0"; OpSettled "req_2"; OpCancelPending "/api/b/";
        OpCancelAll]) ∧
  let w1 := apply_op env initial_world (OpBegin "req_0" "/api/a/" no_options) in
  let w2 := apply_op env w1 (OpBegin "req_1" "/api/a/" no_options) in
  entries_for "/api/a/" w2 = 1%nat ∧
  ("req_0" ≠ "req_1" → pendingRequests w2 !! "req_0" = None) ∧
  aborted (next_handle initial_world) w2 = true ∧
  (pendingRequests initial_world = ∅ → size (pendingRequests w2) = 1%nat).
Proof.
  intros env.
  apply (one_pending_request_per_url env _ initial_world "req_0" "req_1"
           "/api/a/" no_options no_options); reflexivity.
Defined.

Lemma request_ids_inj i j : request_ids i = request_ids j → i = j.
Proof.
  unfold request_ids. intros Heq.
  apply (inj (String.app "req_")) in Heq. by apply (inj pretty) in Heq.
Qed.

(** C5 fails as stated: against a server that answers 500 to every call,
    one call with the default budget shows the indicator of its element
    four times and hides it four times, once in each of its attempts. *)
Lemma retried_call_hides_four_times :
  let w' :=
    (makeRequest (page (always (status_response 500))) "/api/projects/"
       (with_indicator 2%nat) initial_world).2 in
  fetches w' = 4%nat ∧
  count (is_show_on 2%nat) w' = 4%nat ∧
  count (is_hide_on 2%nat) w' = 4%nat ∧
  count (is_hide_on 2%nat) w' ≠ 1%nat.
Proof. vm_compute. repeat split; (reflexivity || discriminate). Qed.

(** The same call, through the amended claim. *)
Lemma indicator_hidden_once_per_attempt_witness :
  let env := page (always (status_response 500)) in
  let options := with_indicator 2%nat in
  let w' := (makeRequest env "/api/projects/" options initial_world).2 in
  let attempts := (fetches w' - fetches initial_world)%nat in
  (1 ≤ attempts ≤ S (Z.to_nat (budget options)))%nat ∧
  ids_drawn w' = (ids_drawn initial_world + attempts)%nat ∧
  count (is_show_on 2%nat) w' =
    (count (is_show_on 2%nat) initial_world + attempts)%nat ∧
  count (is_hide_on 2%nat) w' =
    (count (is_hide_on 2%nat) initial_world + attempts)%nat ∧
  (∀ j, (ids_drawn initial_world ≤ j < ids_drawn w')%nat →
     count (is_show (idgen env j)) w' =
       S (count (is_show (idgen env j)) initial_world) ∧
     count (is_hide (idgen env j)) w' =
       S (count (is_hide (idgen env j)) initial_world)) ∧
  (∀ j, (ids_drawn initial_world ≤ j)%nat →
        pendingRequests w' !! idgen env j = None) ∧
  indicator_free 2%nat w'.
Proof.
  intros env options.
  apply (indicator_hidden_once_per_attempt env "/api/projects/" options
           initial_world 2%nat).
  - reflexivity.
  - intros k r Hk. simpl in Hk. rewrite lookup_empty in Hk. discriminate.
  - split.
    + intros j _. simpl. apply lookup_empty.
    + intros i j _ _. apply request_ids_inj.
Defined.

(** The indicator of the element on the four ways out: success, failure
    after retries, timeout, explicit cancellation. *)
Example indicator_on_every_path :
  let hidden net :=
    count (is_hide_on 2%nat)
      (makeRequest (page net) "/api/projects/" (with_indicator 2%nat)
         initial_world).2 in
  hidden (always (status_response 200)) = 1%nat ∧
  hidden (always (status_response 500)) = 4%nat ∧
  hidden first_times_out = 1%nat ∧
  hidden first_is_cancelled = 1%nat.
Proof. vm_compute. repeat split; reflexivity. Qed.

(** A call against a failing server returns all the same. *)
Lemma makeRequest_always_returns_witness :
  ∃ r w',
    makeRequest (page (always (status_response 503))) "/api/projects/"
      no_options initial_world = (Return r, w') ∧
    well_formed_result r.
Proof.
  apply (makeRequest_always_returns (page (always (status_response 503)))
           "/api/projects/" no_options initial_world); reflexivity.
Defined.

(** C6 fails as stated: the response redirects to /thanks/, the browser is
    sent there, and the form is reset all the same. *)
Lemma redirect_still_resets_form :
  let run :=
    submitForm (page (always (json_response (JObj thanks))))
      (project_form false true) no_options initial_world in
  run.1 = Return (success_result (JObj thanks) (json_response (JObj thanks))) ∧
  filter (λ e, is_navigate e = true) (trace run.2)
    = [ENavigate (JStr "/thanks/")] ∧
  count is_reset run.2 = 1%nat.
Proof. vm_compute. repeat split; reflexivity. Qed.

(** The same submission, through the amended claim. *)
Lemma redirect_navigates_then_resets_witness :
  let env := page (always (json_response (JObj thanks))) in
  let form := project_form false true in
  let w1 :=
    (makeRequest env (submit_url env form no_options)
       (submit_config form no_options) initial_world).2 in
  ∃ w',
    submitForm env form no_options initial_world =
      (Return (success_result (JObj thanks) (json_response (JObj thanks))), w') ∧
    trace w' =
      (trace w1 ++ [ENavigate (JStr "/thanks/")] ++
       (if not_false (resetForm no_options) then [EFormReset] else []) ++
       [EDispatchEvent "ajaxSuccess"])%list.
Proof.
  intros env form w1.
  apply (redirect_navigates_then_resets env form no_options initial_world
           (success_result (JObj thanks) (json_response (JObj thanks))) w1 thanks).
  - left. reflexivity.
  - vm_compute. reflexivity.
  - reflexivity.
  - reflexivity.
  - reflexivity.
Defined.

(** C7 fails as stated: the message of the failure is not
    "validation failed". *)
Lemma validation_failure_has_another_message :
  (submitForm (page (always (status_response 200))) (project_form true false)
     no_options initial_world).1
  = Return (failure_result "Form validation failed") ∧
  failure_result "Form validation failed" ≠ failure_result "validation failed".
Proof. split; [vm_compute; reflexivity | discriminate]. Qed.

Lemma invalid_form_is_not_submitted_witness :
  ∃ w',
    submitForm (page (always (status_response 200))) (project_form true false)
      no_options initial_world =
      (Return (failure_result "Form validation failed"), w') ∧
    fetches w' = fetches initial_world ∧
    trace w' = (trace initial_world ++ [EReportValidity])%list.
Proof.
  apply (invalid_form_is_not_submitted (page (always (status_response 200)))
           (project_form true false) no_options initial_world); reflexivity.
Defined.

(** C8 fails as stated: "c", "ca", "cat" within 300 ms release one search,
    for "cat", but against a server that answers 500 that search makes four
    network calls, all to the URL for "cat". *)
Lemma failing_search_calls_four_times :
  let w' :=
    (search_session (page (always (status_response 500))) project_search
       typing_cat initial_world).2 in
  searches (typed typing_cat) = ["cat"] ∧
  fetches w' = 4%nat ∧
  count (is_fetch_of "/projects/search/?q=cat") w' = 4%nat.
Proof. vm_compute. repeat split; reflexivity. Qed.

Lemma rapid_typing_dispatches_one_search_witness :
  let env := page (always (json_response (JObj [("results", JArr [])]))) in
  searches (typed typing_cat) = [final_query typing_cat] ∧
  timers_cancelled (typed typing_cat) = (length typing_cat - 1)%nat ∧
  let w' := (search_session env project_search typing_cat initial_world).2 in
  fetches w' = S (fetches initial_world) ∧
  count (is_fetch_of (searchUrl env "/projects/search/" (final_query typing_cat))) w' =
    S (count (is_fetch_of (searchUrl env "/projects/search/" (final_query typing_cat)))
         initial_world).
Proof.
  intros env.
  apply (rapid_typing_dispatches_one_search env project_search typing_cat 1%nat
           initial_world (json_response (JObj [("results", JArr [])]))
           (JObj [("results", JArr [])])).
  - discriminate.
  - simpl. lia.
  - reflexivity.
  - discriminate.
  - vm_compute. discriminate.
  - reflexivity.
  - reflexivity.
  - reflexivity.
Defined.

(** A field that holds a no-break space is blank: the container is
    cleared and nothing is asked of the server. *)
Example blank_query_is_not_searched :
  let nbsp := String (ascii_of_nat 160) "" in
  let run :=
    handleSearch (page (always (status_response 200))) project_search
      (nbsp +:+ " ") initial_world in
  trim (nbsp +:+ " ") = "" ∧
  fetches run.2 = 0%nat ∧
  trace run.2 = [ESetInnerHTML 1%nat ""].
Proof. vm_compute. repeat split; reflexivity. Qed.

(** * What a whole call does and does not do *)

Section WholeCall.
Variable env : Env.

Lemma requestOptions_with_retries options n :
  requestOptions_of
    (spread defaultConfig (with_retries (spread defaultConfig options) n)) =
  requestOptions_of (spread defaultConfig options).
Proof.
  unfold requestOptions_of. simpl. unfold override.
  by destruct (method options), (headers options), (data options).
Qed.

Lemma retryDelay_with_retries options n :
  retryDelay
    (spread defaultConfig (with_retries (spread defaultConfig options) n)) =
  retryDelay (spread defaultConfig options).
Proof. simpl. unfold override. by destruct (retryDelay options). Qed.

Lemma sent_requestOptions config config' w :
  requestOptions_of config = requestOptions_of config' →
  sent env config w = sent env config' w.
Proof. unfold sent. by intros ->. Qed.

(** A kind of event that neither the network calls of the request nor its
    retry delays are of does not happen during a call. *)
Lemma count_makeRequest_fuel p fuel url options w :
  calm p →
  (∀ w0, p (EFetch url (sent env (spread defaultConfig options) w0)) = false) →
  p (EDelay (retryDelay (spread defaultConfig options))) = false →
  count p (makeRequest_fuel env fuel url options w).2 = count p w.
Proof.
  intros Hc. revert options w.
  induction fuel as [|fuel IH]; intros options w Hf Hd; [done|].
  rewrite makeRequest_fuel_S. cbn zeta.
  set (config := spread defaultConfig options) in *.
  set (requestId := idgen env (ids_drawn w)).
  pose proof (count_try env p requestId url config (bump_ids w) Hc) as Ht.
  rewrite Hf in Ht. change (count p (bump_ids w)) with (count p w) in Ht.
  destruct (makeRequest_try env requestId url config (bump_ids w))
    as [[res|e|] w1]; cbn [fst snd] in *; [lia| |lia].
  set (w2 := makeRequest_cleanup requestId w1).
  assert (count p w2 = count p w) as H2.
  { unfold w2. rewrite count_cleanup by apply Hc. lia. }
  pose proof Hc as [[Hp _] _].
  destruct (String.eqb (name e) "AbortError" || negb (should_retry config e))
    eqn:Ef.
  - by rewrite count_makeRequest_catch_final.
  - apply orb_false_iff in Ef as [Ea Er]. apply negb_false_iff in Er.
    unfold makeRequest_catch. rewrite Ea, Er. unfold delay, bind, act.
    cbn [fst snd]. rewrite IH.
    + rewrite !count_emit, Hd. plain_steps Hp. lia.
    + intros w0. unfold config.
      rewrite (sent_requestOptions _ (spread defaultConfig options))
        by apply requestOptions_with_retries.
      apply Hf.
    + unfold config. by rewrite retryDelay_with_retries.
Qed.

End WholeCall.

(** * Further properties of the manager *)

Section MoreOfTheDispatcher.
Variable env : Env.

Lemma handles_result_calm p :
  (∀ e, p e = true → handles_result e = true) → calm p.
Proof.
  intros Hp.
  assert (∀ e, handles_result e = false → p e = false) as Hn.
  { intros e He. destruct (p e) eqn:E; [|done]. apply Hp in E. congruence. }
  split; [split|]; [intros []; try done; by apply Hn|..]; intros; by apply Hn.
Qed.


Lemma calm_delay_other_than ms : calm (is_delay_other_than ms).
Proof. split; [split|]; [by intros []|done..]. Qed.

Lemma budget_nonneg_step options e :
  should_retry (spread defaultConfig options) e = true →
  S (Z.to_nat (budget (with_retries (spread defaultConfig options)
                         (default 0 (retries (spread defaultConfig options)) - 1))))
  = Z.to_nat (budget options).
Proof.
  intros Hr. rewrite budget_with_retries.
  apply should_retry_budget in Hr. unfold budget in *. lia.
Qed.

Lemma pauses_and_calls fuel url options w :
  (Z.to_nat (budget options) < fuel)%nat →
  let w' := (makeRequest_fuel env fuel url options w).2 in
  ∃ pauses,
    count is_delay w' = (count is_delay w + pauses)%nat ∧
    fetches w' = (fetches w + S pauses)%nat ∧
    (pauses ≤ Z.to_nat (budget options))%nat.
Proof.
  revert options w. induction fuel as [|fuel IH]; intros options w Hfuel w'.
  { lia. }
  unfold w'. rewrite makeRequest_fuel_S. cbn zeta.
  set (config := spread defaultConfig options).
  set (requestId := idgen env (ids_drawn w)).
  pose proof (fetches_try env requestId url config (bump_ids w)) as Hf.
  pose proof (count_try env is_delay requestId url config (bump_ids w)
                calm_delay) as Hd.
  cbn [is_delay] in Hd.
  change (fetches (bump_ids w)) with (fetches w) in Hf.
  change (count is_delay (bump_ids w)) with (count is_delay w) in Hd.
  destruct (makeRequest_try env requestId url config (bump_ids w))
    as [[res|e|] w1]; cbn [fst snd] in *;
    [exists 0%nat; lia| |exists 0%nat; lia].
  set (w2 := makeRequest_cleanup requestId w1).
  assert (fetches w2 = fetches w1) as Hf2
    by (apply count_cleanup, quiet_fetch).
  assert (count is_delay w2 = count is_delay w1) as Hd2
    by (apply count_cleanup, quiet_delay).
  destruct (String.eqb (name e) "AbortError" || negb (should_retry config e))
    eqn:Ef.
  - exists 0%nat. unfold fetches in *.
    rewrite !count_makeRequest_catch_final
      by (done || apply plain_fetch || apply plain_delay).
    lia.
  - apply orb_false_iff in Ef as [Ea Er]. apply negb_false_iff in Er.
    unfold makeRequest_catch. rewrite Ea, Er. unfold delay, bind, act.
    cbn [fst snd].
    set (w3 := emit (EDelay _) _).
    pose proof (budget_nonneg_step options e Er) as Hb. fold config in Hb.
    destruct (IH (with_retries config (default 0 (retries config) - 1)) w3)
      as (pauses & Hp1 & Hp2 & Hp3); [lia|].
    exists (S pauses).
    assert (count is_delay w3 = S (count is_delay w2)) as H3.
    { unfold w3. rewrite !count_emit. simpl. lia. }
    assert (fetches w3 = fetches w2) as H4.
    { unfold w3, fetches. rewrite !count_emit. simpl. lia. }
    lia.
Qed.

(** X2: a call whose loading element, if it has one, is given as an
    element makes one network call more than it pauses: every retry comes
    after exactly one delay, there are at most as many delays as the retry
    budget, and each of them lasts [retryDelay] milliseconds, the same for
    every attempt. (A loading element given by a selector is left out: on
    a selector that is not valid [document.querySelector] throws before
    the request is sent, which the model of the page does not have.) *)
Theorem retries_are_paced url options w :
  (∀ sel, loadingElement options ≠ Some (BySelector sel)) →
  let w' := (makeRequest env url options w).2 in
  let config := spread defaultConfig options in
  ∃ pauses,
    count is_delay w' = (count is_delay w + pauses)%nat ∧
    fetches w' = (fetches w + S pauses)%nat ∧
    (pauses ≤ Z.to_nat (budget options))%nat ∧
    count (is_delay_other_than (retryDelay config)) w' =
    count (is_delay_other_than (retryDelay config)) w.
Proof.
  intros _. cbn zeta.
  destruct (pauses_and_calls (S (Z.to_nat (budget options))) url options w)
    as (pauses & H1 & H2 & H3); [lia|].
  exists pauses. repeat (split; [done|]).
  apply count_makeRequest_fuel; [apply calm_delay_other_than|done|].
  simpl. by rewrite bool_decide_eq_true_2.
Qed.

Lemma sent_form_is_json config w fd :
  ro_body (sent env config w) = Some (BodyForm fd) →
  ro_headers (sent env config w) !! "Content-Type" = Some "application/json".
Proof.
  unfold sent. cbn [ro_body ro_headers with_signal].
  unfold requestOptions_of.
  destruct (data config) as [d|]; [|done].
  destruct (data_truthy d && existsb _ _); [|done].
  destruct d as [fd'|j]; [|done]. cbn [ro_body ro_headers]. intros _.
  rewrite lookup_union_r by apply lookup_delete_eq.
  apply lookup_insert_eq.
Qed.

Lemma mislabelled_form_calm : calm mislabelled_form.
Proof. split; [split|]; [by intros []|done..]. Qed.

(** X3: a [FormData] body never travels under its own content type:
    makeRequest deletes the Content-Type header for it so that the browser
    can set one, and [request] puts application/json back. Every network
    call that carries a [FormData] is labelled application/json. *)
Theorem form_data_is_labelled_json url options w :
  (∀ config w0 fd,
     ro_body (sent env config w0) = Some (BodyForm fd) →
     ro_headers (sent env config w0) !! "Content-Type"
       = Some "application/json") ∧
  count mislabelled_form (makeRequest env url options w).2 =
  count mislabelled_form w.
Proof.
  split; [apply sent_form_is_json|].
  apply count_makeRequest_fuel; [apply mislabelled_form_calm| |done].
  intros w0. cbn [mislabelled_form].
  destruct (ro_body (sent env (spread defaultConfig options) w0))
    as [[fd|j]|] eqn:Eb; [|done..].
  by rewrite (sent_form_is_json _ _ fd Eb), bool_decide_eq_true_2.
Qed.

Lemma sent_headers config w0 :
  let sent_headers := ro_headers (sent env config w0) in
  let own := default ∅ (headers config) in
  (own !! "X-CSRFToken" = None →
   sent_headers !! "X-CSRFToken" = Some (csrfToken env)) ∧
  (own !! "X-Requested-With" = None →
   sent_headers !! "X-Requested-With" = Some "XMLHttpRequest") ∧
  (∀ h v, own !! h = Some v → h ≠ "Content-Type" →
          sent_headers !! h = Some v) ∧
  ro_signal (sent env config w0) = Some (next_handle w0).
Proof.
  cbn zeta. unfold sent. cbn [ro_headers ro_signal with_signal].
  set (own := default ∅ (headers config)).
  set (defaults := {[ "Content-Type" := "application/json";
                      "X-Requested-With" := "XMLHttpRequest" ]}
                   : gmap string string).
  assert (ro_headers (requestOptions_of config) = own ∪ defaults ∨
          ro_headers (requestOptions_of config)
            = delete "Content-Type" (own ∪ defaults)) as Hh.
  { unfold requestOptions_of. fold own defaults.
    destruct (data config) as [d|]; [|by left].
    destruct (data_truthy d && existsb _ _); [|by left].
    destruct d; [by right|by left]. }
  assert (ro_signal (requestOptions_of config) = None) as Hs.
  { unfold requestOptions_of.
    destruct (data config) as [d|]; [|done].
    destruct (data_truthy d && existsb _ _); [|done]. by destruct d. }
  assert (defaults !! "X-CSRFToken" = None) as Hd1 by (by vm_compute).
  assert (defaults !! "X-Requested-With" = Some "XMLHttpRequest") as Hd2
    by (by vm_compute).
  split; [|split; [|split]].
  - intros Hown. rewrite lookup_union_r.
    + by vm_compute.
    + destruct Hh as [-> | ->]; rewrite ?lookup_delete_ne by done.
      all: by apply lookup_union_None.
  - intros Hown. apply lookup_union_Some_raw. left.
    destruct Hh as [-> | ->]; rewrite ?lookup_delete_ne by done.
    all: apply lookup_union_Some_raw; by right.
  - intros h v Hown Hct. apply lookup_union_Some_raw. left.
    destruct Hh as [-> | ->]; rewrite ?lookup_delete_ne by done.
    all: apply lookup_union_Some_raw; by left.
  - done.
Qed.

Lemma lacks_header_calm h v : calm (lacks_header h v).
Proof. split; [split|]; [by intros []|done..]. Qed.

Lemma lacks_signal_calm : calm lacks_signal.
Proof. split; [split|]; [by intros []|done..]. Qed.

Lemma headers_spread options :
  headers (spread defaultConfig options) = headers options.
Proof. simpl. by destruct (headers options). Qed.

(** X29: every network call that a call of makeRequest makes carries the
    CSRF token of the page and is marked as an XMLHttpRequest, unless the
    headers of the caller name these headers themselves; a header of the
    caller other than Content-Type goes out on every network call as the
    caller wrote it, and every network call is tied to an abort
    controller. *)
Theorem requests_carry_the_csrf_token url options w :
  let own := default ∅ (headers options) in
  let w' := (makeRequest env url options w).2 in
  (own !! "X-CSRFToken" = None →
   count (lacks_header "X-CSRFToken" (csrfToken env)) w' =
   count (lacks_header "X-CSRFToken" (csrfToken env)) w) ∧
  (own !! "X-Requested-With" = None →
   count (lacks_header "X-Requested-With" "XMLHttpRequest") w' =
   count (lacks_header "X-Requested-With" "XMLHttpRequest") w) ∧
  (∀ h v, own !! h = Some v → h ≠ "Content-Type" →
          count (lacks_header h v) w' = count (lacks_header h v) w) ∧
  count lacks_signal w' = count lacks_signal w.
Proof.
  cbn zeta.
  assert (∀ h v,
            (∀ w0, ro_headers (sent env (spread defaultConfig options) w0) !! h
                   = Some v) →
            count (lacks_header h v) (makeRequest env url options w).2 =
            count (lacks_header h v) w) as Hcount.
  { intros h v Hsent.
    apply count_makeRequest_fuel; [apply lacks_header_calm| |done].
    intros w0. cbn [lacks_header]. by rewrite Hsent, bool_decide_eq_true_2. }
  split; [|split; [|split]].
  - intros Hown. apply Hcount. intros w0.
    destruct (sent_headers (spread defaultConfig options) w0) as (H & _).
    apply H. by rewrite headers_spread.
  - intros Hown. apply Hcount. intros w0.
    destruct (sent_headers (spread defaultConfig options) w0) as (_ & H & _).
    apply H. by rewrite headers_spread.
  - intros h v Hown Hct. apply Hcount. intros w0.
    destruct (sent_headers (spread defaultConfig options) w0)
      as (_ & _ & H & _).
    apply H; [|done]. by rewrite headers_spread.
  - apply count_makeRequest_fuel; [apply lacks_signal_calm| |done].
    intros w0. cbn [lacks_signal].
    by destruct (sent_headers (spread defaultConfig options) w0)
      as (_ & _ & _ & ->).
Qed.

Lemma try_returns requestId url config w res w1 :
  makeRequest_try env requestId url config w = (Return res, w1) →
  ∃ resp data,
    res = success_result data resp ∧ ok resp = true ∧
    body_of resp = inr data ∧
    settles (network env (fetches w)) = Resolves resp.
Proof.
  rewrite makeRequest_try_eq. cbn zeta.
  destruct (aborted _ _); [done|].
  destruct (settles _) as [r|e]; [|done].
  destruct (ok r) eqn:Eok; [|done].
  unfold finish, bind, act, ret, parse_body, call_callback, throw.
  destruct (body_of r) as [err|data] eqn:Eb;
    destruct (resolve_loading env config);
    destruct (successCallback config) as [[]|]; cbn; try done.
  all: intros [= <- <-]; by exists r, data.
Qed.

Lemma catch_final_fails again config e w res w' :
  (String.eqb (name e) "AbortError" || negb (should_retry config e)) = true →
  makeRequest_catch env again config e w = (Return res, w') →
  res = failure_result (final_message e) ∧ fetches w' = fetches w.
Proof.
  intros Hfinal Heq.
  pose proof (count_makeRequest_catch_final env is_fetch again config e w
                plain_fetch Hfinal) as Hc.
  rewrite Heq in Hc. split; [|done].
  revert Heq. unfold makeRequest_catch, final_message.
  destruct (String.eqb (name e) "AbortError").
  { unfold bind, act, ret. by intros [= <- <-]. }
  simpl in Hfinal. apply negb_true_iff in Hfinal. rewrite Hfinal.
  unfold bind, when, act, ret, call_callback, throw, showError,
    showNotification.
  destruct (errorCallback config) as [[]|];
    destruct (default false (showErrors config));
    destruct (querySelector env ".messages"); cbn; try done;
    by intros [= <- <-].
Qed.

Lemma results_of_the_call fuel url options w res w' :
  makeRequest_fuel env fuel url options w = (Return res, w') →
  (∃ resp data,
     res = success_result data resp ∧ ok resp = true ∧
     body_of resp = inr data ∧
     settles (network env (pred (fetches w'))) = Resolves resp) ∨
  (∃ msg, res = failure_result msg).
Proof.
  revert options w. induction fuel as [|fuel IH]; intros options w; [done|].
  rewrite makeRequest_fuel_S. cbn zeta.
  set (config := spread defaultConfig options).
  set (requestId := idgen env (ids_drawn w)).
  pose proof (fetches_try env requestId url config (bump_ids w)) as Hf.
  change (fetches (bump_ids w)) with (fetches w) in Hf.
  destruct (makeRequest_try env requestId url config (bump_ids w))
    as [[res1|e|] w1] eqn:Et; cbn [fst snd] in *; [| |done].
  - intros [= <- <-]. left.
    destruct (try_returns _ _ _ _ _ _ Et) as (resp & data & ? & ? & ? & Hs).
    exists resp, data. rewrite Hf. cbn [pred].
    by change (fetches (bump_ids w)) with (fetches w) in Hs.
  - set (w2 := makeRequest_cleanup requestId w1).
    destruct (String.eqb (name e) "AbortError" || negb (should_retry config e))
      eqn:Ef.
    + intros Heq. right.
      destruct (catch_final_fails _ _ _ _ _ _ Ef Heq) as [-> _]. by eexists.
    + apply orb_false_iff in Ef as [Ea Er]. apply negb_false_iff in Er.
      unfold makeRequest_catch. rewrite Ea, Er. unfold delay, bind, act.
      apply IH.
Qed.

(** X4: a result with [success: true] always comes with a response of a
    2xx status, the one the network gave to the last network call, and with
    the body of that response as [data]; any other result is a failure
    that carries an error text and neither data nor response. *)
Theorem success_means_2xx url options w res w' :
  makeRequest env url options w = (Return res, w') →
  if success res then
    ∃ resp data,
      res = success_result data resp ∧
      200 ≤ status resp ≤ 299 ∧
      body_of resp = inr data ∧
      settles (network env (pred (fetches w'))) = Resolves resp
  else ∃ msg, res = failure_result msg.
Proof.
  intros Heq.
  destruct (results_of_the_call _ _ _ _ _ _ Heq)
    as [(resp & data & -> & Hok & Hb & Hs)|[msg ->]]; cbn [success success_result failure_result].
  - exists resp, data. repeat split; try done.
    all: unfold ok in Hok; apply andb_true_iff in Hok as [H1 H2]; lia.
  - by exists msg.
Qed.

End MoreOfTheDispatcher.

(** * loadContent, submitForm and handleSearch on what comes back *)

Section Payloads.
Variable env : Env.

Lemma successCallback_submit_config form options :
  successCallback (submit_config form options) = successCallback options.
Proof. unfold submit_config. simpl. by destruct (successCallback options). Qed.

Lemma successCallback_content_config el options :
  successCallback (content_config el options) = successCallback options.
Proof. unfold content_config. simpl. by destruct (successCallback options). Qed.

Lemma validation_passes form w :
  (data_validate form = false ∨ checkValidity form = true) →
  (if data_validate form then validateForm form else ret true) w
  = (Return true, w).
Proof.
  intros [->|Hc]; [done|].
  unfold validateForm. rewrite Hc. by destruct (data_validate form).
Qed.

Lemma count_makeRequest_page p url options w :
  (∀ e, p e = true → handles_result e = true) →
  count p (makeRequest env url options w).2 = count p w.
Proof.
  intros Hp.
  assert (∀ e, handles_result e = false → p e = false) as Hn.
  { intros e He. destruct (p e) eqn:E; [|done]. apply Hp in E. congruence. }
  apply count_makeRequest_fuel; [by apply handles_result_calm|..];
    intros; by apply Hn.
Qed.

(** X5: without its target element loadContent gives up at once: it logs
    the error and returns the failure "Target element not found", with no
    network call and no change to the registry. *)
Theorem loadContent_needs_its_target url target options w :
  resolve_target env target = None →
  ∃ w',
    loadContent env url target options w =
      (Return (failure_result "Target element not found"), w') ∧
    fetches w' = fetches w ∧
    pendingRequests w' = pendingRequests w ∧
    trace w' =
      (trace w ++ [EConsole "error" "Target element not found"])%list.
Proof.
  intros Ht. unfold loadContent. rewrite Ht.
  unfold bind, act, ret. eexists. split; [done|].
  split; [|done]. unfold fetches. rewrite count_emit. simpl. lia.
Qed.

(** X6: when the first attempt is answered with an ok response whose body
    is a text, loadContent makes that one network call, puts the text into
    the target element, dispatches contentLoaded after it, and returns the
    success. *)
Theorem loadContent_fills_target url target options w el r html :
  resolve_target env target = Some el →
  network env (fetches w) = {| during := []; settles := Resolves r |} →
  ok r = true →
  body_of r = inr (JStr html) →
  throws (successCallback options) = false →
  ∃ w',
    loadContent env url target options w =
      (Return (success_result (JStr html) r), w') ∧
    fetches w' = S (fetches w) ∧
    count (is_inner_html el) w' = S (count (is_inner_html el) w) ∧
    count (is_dispatch "contentLoaded") w' =
      S (count (is_dispatch "contentLoaded") w) ∧
    ∃ before,
      trace w' =
        (before ++ [ESetInnerHTML el html; EDispatchEvent "contentLoaded"])%list.
Proof.
  intros Ht Hnet Hok Hbody Hcb.
  unfold loadContent. rewrite Ht. cbn zeta.
  unfold makeRequest, bind at 1.
  destruct (answered_attempt_succeeds env
              (Z.to_nat (budget (content_config el options))) url
              (content_config el options) w r (JStr html) Hnet Hok Hbody)
    as (w1 & -> & Hcount).
  { by rewrite successCallback_content_config. }
  unfold content_done.
  cbn [success success_result result_data default from_option id].
  unfold bind, act, ret. eexists. split; [reflexivity|].
  split; [|split; [|split]].
  - unfold fetches. rewrite !count_emit. cbn [is_fetch].
    rewrite (Hcount is_fetch calm_fetch). cbn [is_fetch]. lia.
  - rewrite !count_emit. cbn [is_inner_html]. rewrite Nat.eqb_refl.
    rewrite (Hcount (is_inner_html el)); [simpl; lia|].
    apply handles_result_calm. by intros [].
  - rewrite !count_emit. cbn [is_dispatch]. rewrite String.eqb_refl.
    rewrite (Hcount (is_dispatch "contentLoaded")); [simpl; lia|].
    apply handles_result_calm. by intros [].
  - exists (trace w1). simpl. by rewrite <- app_assoc.
Qed.

(** X7: a 200 response whose JSON body is [null] is a success for
    makeRequest, and then submitForm, loadContent and handleSearch read a
    property of [null]: each of them rejects with a TypeError after the one
    network call, and does nothing of what it does with a result: no
    navigation, no form reset, no DOM event, and nothing is written into
    an element. (handleSearch is called with a query that is not blank.) *)
Theorem null_payload_is_not_handled w r :
  network env (fetches w) = {| during := []; settles := Resolves r |} →
  ok r = true →
  body_of r = inr JNull →
  (∀ form options,
     (data_validate form = false ∨ checkValidity form = true) →
     throws (successCallback options) = false →
     ∃ w',
       submitForm env form options w =
         (Throw (NullPropertyError "redirect"), w') ∧
       fetches w' = S (fetches w) ∧
       count handles_result w' = count handles_result w) ∧
  (∀ url target options el,
     resolve_target env target = Some el →
     throws (successCallback options) = false →
     ∃ w',
       loadContent env url target options w =
         (Throw (NullPropertyError "html"), w') ∧
       fetches w' = S (fetches w) ∧
       count handles_result w' = count handles_result w) ∧
  (∀ form query container,
     querySelector env (default "null" (data_result_container form))
       = Some container →
     or_else (Some (search_action form)) (default "" (data_search_url form))
       ≠ "" →
     trim query ≠ "" →
     ∃ w',
       handleSearch env form query w =
         (Throw (NullPropertyError "html"), w') ∧
       fetches w' = S (fetches w) ∧
       count handles_result w' = count handles_result w).
Proof.
  intros Hnet Hok Hbody.
  assert (calm handles_result) as Hcalm by (by apply handles_result_calm).
  split; [|split].
  - intros form options Hvalid Hcb.
    unfold submitForm, bind at 1. rewrite validation_passes by done.
    cbn [negb]. unfold makeRequest, bind at 1.
    destruct (answered_attempt_succeeds env
                (Z.to_nat (budget (submit_config form options)))
                (submit_url env form options) (submit_config form options)
                w r JNull Hnet Hok Hbody) as (w1 & -> & Hcount).
    { by rewrite successCallback_submit_config. }
    unfold submit_done.
    cbn [success success_result result_data default from_option id].
    unfold property, bind, throw. exists w1. split; [done|].
    split.
    + unfold fetches. rewrite (Hcount is_fetch calm_fetch). simpl. lia.
    + rewrite (Hcount handles_result Hcalm). simpl. lia.
  - intros url target options el Ht Hcb.
    unfold loadContent. rewrite Ht. cbn zeta.
    unfold makeRequest, bind at 1.
    destruct (answered_attempt_succeeds env
                (Z.to_nat (budget (content_config el options))) url
                (content_config el options) w r JNull Hnet Hok Hbody)
      as (w1 & -> & Hcount).
    { by rewrite successCallback_content_config. }
    unfold content_done.
    cbn [success success_result result_data default from_option id].
    unfold property, bind, throw. exists w1. split; [done|].
    split.
    + unfold fetches. rewrite (Hcount is_fetch calm_fetch). simpl. lia.
    + rewrite (Hcount handles_result Hcalm). simpl. lia.
  - intros form query container Hc Hu Hq.
    unfold handleSearch. rewrite Hc.
    assert (String.eqb (or_else (Some (search_action form))
                          (default "" (data_search_url form))) "" = false)
      as -> by by apply String.eqb_neq.
    assert (String.eqb (trim query) "" = false) as ->
      by by apply String.eqb_neq.
    unfold makeRequest, bind at 1.
    destruct (answered_attempt_succeeds env
                (Z.to_nat (budget search_config))
                (searchUrl env
                   (or_else (Some (search_action form))
                      (default "" (data_search_url form))) query)
                search_config w r JNull Hnet Hok Hbody eq_refl)
      as (w1 & -> & Hcount).
    cbn [success success_result result_data default from_option id].
    unfold property, bind, throw. exists w1. split; [done|].
    split.
    + unfold fetches. rewrite (Hcount is_fetch calm_fetch). simpl. lia.
    + rewrite (Hcount handles_result Hcalm). simpl. lia.
Qed.

(** X8: a submission that gets past validation and returns dispatches
    exactly one event on the form, ajaxSuccess for a success and ajaxError
    for a failure; after a failure the form is neither reset nor is the
    browser sent anywhere. *)
Theorem submission_dispatches_one_event form options w result w' :
  (data_validate form = false ∨ checkValidity form = true) →
  submitForm env form options w = (Return result, w') →
  count (is_dispatch "ajaxSuccess") w' =
    (count (is_dispatch "ajaxSuccess") w + if success result then 1 else 0)%nat ∧
  count (is_dispatch "ajaxError") w' =
    (count (is_dispatch "ajaxError") w + if success result then 0 else 1)%nat ∧
  (success result = false →
   count is_reset w' = count is_reset w ∧
   count is_navigate w' = count is_navigate w).
Proof.
  intros Hvalid.
  unfold submitForm, bind at 1. rewrite validation_passes by done.
  cbn [negb]. unfold bind at 1.
  pose proof (λ p H, count_makeRequest_page p (submit_url env form options)
                       (submit_config form options) w H) as Hpage.
  destruct (makeRequest env (submit_url env form options)
              (submit_config form options) w) as [[res| |] w1];
    cbn [snd] in Hpage; [|done..].
  assert (∀ p, (∀ e, p e = true → handles_result e = true) →
            plain p) as Hplain.
  { intros p Hp. by destruct (handles_result_calm p Hp) as [[? _] _]. }
  assert (∀ t e, is_dispatch t e = true → handles_result e = true) as Hd
    by (by intros t []).
  assert (∀ e, is_reset e = true → handles_result e = true) as Hr
    by (by intros []).
  assert (∀ e, is_navigate e = true → handles_result e = true) as Hn
    by (by intros []).
  unfold submit_done. destruct (success res) eqn:Es.
  - unfold bind at 1. unfold bind at 1.
    destruct (property (default JNull (result_data res)) "redirect" w1)
      as [[redirect| |] w2] eqn:Ep; [|done..].
    assert (w2 = w1) as ->.
    { revert Ep. unfold property, ret, throw.
      destruct (default JNull (result_data res)); by intros [= <- <-]. }
    destruct (truthy redirect).
    + unfold bind, when, act, ret.
      destruct (not_false (resetForm options)); intros [= <- <-];
        rewrite Es; rewrite !count_emit; simpl;
        rewrite !Hpage by (done || apply Hd); (split; [lia|]);
        (split; [lia|done]).
    + unfold bind at 1. unfold bind at 1.
      destruct (property (default JNull (result_data res)) "message" w1)
        as [[message| |] w3] eqn:Em; [|done..].
      assert (w3 = w1) as ->.
      { revert Em. unfold property, ret, throw.
        destruct (default JNull (result_data res)); by intros [= <- <-]. }
      unfold showSuccess, showNotification, bind, when, act, ret.
      destruct (truthy message), (querySelector env ".messages"),
        (not_false (resetForm options)); intros [= <- <-];
        rewrite Es; rewrite !count_emit; simpl;
        rewrite !Hpage by (done || apply Hd); (split; [lia|]);
        (split; [lia|done]).
  - unfold bind, act, ret. intros [= <- <-]. rewrite Es.
    rewrite !count_emit. simpl.
    rewrite !Hpage by (done || apply Hd). repeat split; lia.
Qed.

End Payloads.

(** * destroy *)

Lemma timers_cancel_all_loop_gone l w t :
  timers w !! t = None → timers (foldl cancel_all_step w l) !! t = None.
Proof.
  revert w. induction l as [|kv l IH]; intros w Ht; [done|].
  simpl. apply IH. unfold cancel_all_step. rewrite timers_cancel_entry.
  destruct (decide (pr_timeoutId kv.2 = t)) as [->|Hne].
  - apply lookup_delete_eq.
  - by rewrite lookup_delete_ne.
Qed.

Lemma timers_cancel_all_loop l w k r :
  (k, r) ∈ l → timers (foldl cancel_all_step w l) !! pr_timeoutId r = None.
Proof.
  revert w. induction l as [|kv l IH]; intros w Hin.
  - by apply elem_of_nil in Hin.
  - simpl. apply elem_of_cons in Hin as [<-|Hin]; [|by apply IH].
    apply timers_cancel_all_loop_gone. unfold cancel_all_step.
    rewrite timers_cancel_entry. apply lookup_delete_eq.
Qed.

(** X9: destroy lets go of every pending request: the registry is empty
    afterwards, and for every entry it held the controller is aborted, the
    timeout timer is cleared and the loading indicator, if the request has
    one, is hidden once; no network call is made, and a destroyed manager
    can be destroyed again without any effect. *)
Theorem destroy_releases_everything w :
  pendingRequests (destroy w) = ∅ ∧
  (∀ k r,
     pendingRequests w !! k = Some r →
     aborted (pr_controller r) (destroy w) = true ∧
     timers (destroy w) !! pr_timeoutId r = None ∧
     count (is_hide k) (destroy w) =
       (count (is_hide k) w + if has_loading r then 1 else 0)%nat) ∧
  fetches (destroy w) = fetches w ∧
  destroy (destroy w) = destroy w.
Proof.
  unfold destroy. split; [done|]. split; [|split].
  - intros k r Hk.
    assert ((k, r) ∈ map_to_list (pendingRequests w)) as Hin
      by by apply elem_of_map_to_list.
    split; [|split].
    + apply aborted_true. rewrite cancelAllRequests_eq.
      change (controllers (set_pending ?m ?w)) with (controllers w).
      by apply (cancel_all_loop_aborts _ _ k).
    + rewrite cancelAllRequests_eq.
      change (timers (set_pending ?m ?w)) with (timers w).
      by apply (timers_cancel_all_loop _ _ k).
    + by rewrite cancelAllRequests_hides, Hk.
  - unfold fetches. rewrite cancelAllRequests_eq, count_set_pending.
    apply count_cancel_all_loop, quiet_fetch.
  - unfold cancelAllRequests at 1.
    assert (pendingRequests (cancelAllRequests w) = ∅) as -> by done.
    by rewrite map_to_list_empty.
Qed.

(** * What a form sends, and the indicator of loadContent *)

Section Sending.
Variable env : Env.

Lemma network_only_not_fetch p :
  network_only p → ∀ e, is_fetch e = false → p e = false.
Proof.
  intros Hp e He. destruct (p e) eqn:E; [|done]. apply Hp in E. congruence.
Qed.

Lemma count_submit_done p options result w :
  network_only p →
  count p (submit_done env options result w).2 = count p w.
Proof.
  intros Hp. pose proof (network_only_not_fetch p Hp) as Hn.
  unfold submit_done, property, showSuccess, showNotification, bind, when,
    act, ret, throw.
  destruct (success result); [|simpl; rewrite count_emit, Hn by done; lia].
  destruct (default JNull (result_data result)) as [| | | | |fields];
    simpl; try done.
  all: try (destruct (not_false (resetForm options)); simpl;
            rewrite ?count_emit, ?Hn by done; lia).
  destruct (truthy (assoc "redirect" fields)); simpl.
  - destruct (not_false (resetForm options)); simpl;
      rewrite ?count_emit, ?Hn by done; lia.
  - destruct (truthy (assoc "message" fields)),
      (querySelector env ".messages"),
      (not_false (resetForm options)); simpl;
      rewrite ?count_emit, ?Hn by done; lia.
Qed.

Lemma count_submitForm p form options w :
  network_only p →
  (∀ w0, p (EFetch (submit_url env form options)
              (sent env (spread defaultConfig (submit_config form options)) w0))
         = false) →
  count p (submitForm env form options w).2 = count p w.
Proof.
  intros Hp Hsent. pose proof (network_only_not_fetch p Hp) as Hn.
  assert (∀ w0,
            count p ((result <- makeRequest env (submit_url env form options)
                                  (submit_config form options) ;;
                      submit_done env options result ;;; ret result) w0).2
            = count p w0) as Hrest.
  { intros w0. unfold bind, ret.
    assert (count p (makeRequest env (submit_url env form options)
                       (submit_config form options) w0).2 = count p w0) as Hm.
    { apply count_makeRequest_fuel; [by apply network_only_calm|done|].
      by apply Hn. }
    destruct (makeRequest env (submit_url env form options)
                (submit_config form options) w0) as [[res| |] w1];
      cbn [snd] in *; try done.
    pose proof (count_submit_done p options res w1 Hp) as Hdone.
    destruct (submit_done env options res w1) as [[[]| |] w2];
      cbn [snd] in *; lia. }
  unfold submitForm, bind at 1, validateForm.
  destruct (data_validate form); [destruct (checkValidity form)|].
  - apply Hrest.
  - unfold bind, act, ret. cbn [negb snd]. rewrite count_emit, Hn by done. lia.
  - apply Hrest.
Qed.

Lemma network_only_carries_body : network_only carries_body.
Proof. by intros []. Qed.

(** X10: the DOM reports the method of a form in lower case, and
    makeRequest attaches a body only to the methods POST, PUT and PATCH
    written in capitals. So unless the options name the method, submitForm
    sends the request under the method of the form and without a body: no
    network call of the submission carries the form data. *)
Theorem lowercase_method_sends_no_body form options w :
  form_method form ∈ ["get"; "post"; "dialog"] →
  method options = None →
  (∀ w0,
     let ro := sent env (spread defaultConfig (submit_config form options)) w0 in
     ro_method ro = form_method form ∧ ro_body ro = None) ∧
  count carries_body (submitForm env form options w).2 =
  count carries_body w.
Proof.
  intros Hm Ho.
  assert (∀ w0,
            let ro := sent env (spread defaultConfig
                                  (submit_config form options)) w0 in
            ro_method ro = form_method form ∧ ro_body ro = None) as Hsent.
  { intros w0. unfold sent. cbn [ro_method ro_body with_signal].
    unfold requestOptions_of.
    assert (method (spread defaultConfig (submit_config form options))
            = Some (or_else (Some (form_method form)) "POST")) as ->
      by (simpl; by rewrite Ho).
    set (m := or_else (Some (or_else (Some (form_method form)) "POST")) "GET").
    assert (existsb (String.eqb m) ["POST"; "PUT"; "PATCH"] = false
            ∧ m = form_method form) as [-> ->].
    { unfold m.
      repeat (apply elem_of_cons in Hm as [->|Hm]; [done|]).
      by apply elem_of_nil in Hm. }
    destruct (data _) as [d|]; [by rewrite andb_false_r|done]. }
  split; [done|].
  apply count_submitForm; [apply network_only_carries_body|].
  intros w0. cbn [carries_body]. by destruct (Hsent w0) as [_ ->].
Qed.

Lemma content_done_frame el url result w :
  let w' := (content_done el url result w).2 in
  pendingRequests w' = pendingRequests w ∧
  ∀ p, (∀ e, handles_result e = true → p e = false) → count p w' = count p w.
Proof.
  unfold content_done, property, bind, act, ret, throw.
  destruct (success result); [|done].
  destruct (default JNull (result_data result)) as [| | | | |fields];
    simpl; try done.
  all: try (split; [done|]; intros p Hp; rewrite ?count_emit, ?Hp by done; lia).
  destruct (truthy (assoc "html" fields)); simpl; (split; [done|]);
    intros p Hp; rewrite ?count_emit, ?Hp by done; lia.
Qed.

(** X11: loadContent uses its target as the loading indicator, with the
    text "Loading..." unless the options give another. When the options do
    not switch the indicator off or move it, the call shows the indicator
    on the target once in every attempt and hides it as often: as many
    times as it makes network calls, which is between once and once more
    than the retry budget. It leaves no entry of its own in the registry.
    The request ids are assumed fresh, and no other pending request to
    have its indicator on the target. *)
Theorem loadContent_shows_progress url target options w el :
  resolve_target env target = Some el →
  loadingElement options = None →
  showLoading options ≠ Some false →
  indicator_free el w →
  fresh_ids env w →
  let config := spread defaultConfig (content_config el options) in
  let w' := (loadContent env url target options w).2 in
  let attempts := (fetches w' - fetches w)%nat in
  resolve_loading env config = Some el ∧
  loadingText config = Some (default "Loading..." (loadingText options)) ∧
  (1 ≤ attempts ≤ S (Z.to_nat (budget (content_config el options))))%nat ∧
  count (is_show_on el) w' = (count (is_show_on el) w + attempts)%nat ∧
  count (is_hide_on el) w' = (count (is_hide_on el) w + attempts)%nat ∧
  (∀ j, (ids_drawn w ≤ j)%nat → pendingRequests w' !! idgen env j = None).
Proof.
  intros Ht Hle Hsl Hfree [Hnew _] config w' attempts.
  assert (resolve_loading env config = Some el) as Hres.
  { unfold config, resolve_loading, content_config. simpl. rewrite Hle.
    simpl. by destruct (showLoading options) as [[]|]. }
  split; [done|]. split.
  { unfold config, content_config. simpl.
    by destruct (loadingText options). }
  destruct (call_on_element env
              (S (Z.to_nat (budget (content_config el options)))) url
              (content_config el options) w el Hres Hfree Hnew)
    as (n & Hn & Hn0 & _ & Hf & Hs & Hh & Hsh).
  fold (makeRequest env url (content_config el options)) in Hf, Hs, Hh, Hsh.
  assert (n ≠ 0%nat) as Hn1 by (by apply Hn0).
  assert (∀ w1, shrinks w w1 →
            ∀ j, (ids_drawn w ≤ j)%nat →
                 pendingRequests w1 !! idgen env j = None) as Hgone.
  { intros w1 Hw1 j Hj.
    destruct (pendingRequests w1 !! idgen env j) as [r|] eqn:E; [|done].
    apply Hw1 in E. by rewrite Hnew in E. }
  unfold attempts, w', loadContent. rewrite Ht. cbn zeta. unfold bind, ret.
  destruct (makeRequest env url (content_config el options) w)
    as [[res| |] w1]; cbn [snd] in *.
  2,3: repeat split; try lia; by apply Hgone.
  destruct (content_done_frame el url res w1) as [Hp Hc].
  assert (shrinks w (content_done el url res w1).2) as Hsh2.
  { intros k r. rewrite Hp. apply Hsh. }
  destruct (content_done el url res w1) as [[[]| |] w2]; cbn [snd] in *.
  all: unfold fetches in *; rewrite !Hc by (by intros []).
  all: repeat split; try lia; by apply Hgone.
Qed.

End Sending.

(** * The list of search results *)

Lemma prefix_app x s b :
  String.prefix x s = true → String.prefix x (s +:+ b) = true.
Proof.
  revert s. induction x as [|c x IH]; intros s; [by destruct s, b|].
  destruct s as [|c' s]; [done|]. simpl.
  destruct (ascii_dec c c'); [apply IH|done].
Qed.

Lemma prefix_here x b : String.prefix x (x +:+ b) = true.
Proof.
  induction x as [|c x IH]; [by destruct b|].
  simpl. by destruct (ascii_dec c c).
Qed.

Lemma includes_prefix x s : String.prefix x s = true → includes x s = true.
Proof. destruct s; simpl; by intros ->. Qed.

Lemma includes_here x b : includes x (x +:+ b) = true.
Proof. apply includes_prefix, prefix_here. Qed.

Lemma includes_app_r x a s :
  includes x s = true → includes x (a +:+ s) = true.
Proof.
  intros Hs. induction a as [|c a IH]; [done|].
  simpl. rewrite IH. apply orb_true_r.
Qed.

Lemma includes_app_l x s b :
  includes x s = true → includes x (s +:+ b) = true.
Proof.
  induction s as [|c s IH]; simpl.
  - rewrite orb_false_r. intros Hp. destruct x; [|done].
    by destruct b.
  - intros [Hp|Hi]%orb_true_iff.
    + pose proof (prefix_app x (String c s) b Hp) as Hp'. simpl in Hp'.
      rewrite Hp'. done.
    + rewrite (IH Hi). apply orb_true_r.
Qed.

Lemma includes_middle x a b : includes x (a +:+ x +:+ b) = true.
Proof. apply includes_app_r, includes_here. Qed.

Lemma string_app_empty_r s : s +:+ "" = s.
Proof.
  induction s as [|c s IH]; [done|].
  change (String c (s +:+ "") = String c s). by rewrite IH.
Qed.

Lemma includes_concat x piece pieces :
  piece ∈ pieces → includes x piece = true →
  includes x (String.concat "" pieces) = true.
Proof.
  intros Hin Hx. induction pieces as [|p pieces IH].
  - by apply elem_of_nil in Hin.
  - assert (String.concat "" (p :: pieces) = p +:+ String.concat "" pieces)
      as ->.
    { destruct pieces as [|q pieces]; simpl; [|done].
      by rewrite string_app_empty_r. }
    apply elem_of_cons in Hin as [<-|Hin].
    + by apply includes_app_l.
    + by apply includes_app_r, IH.
Qed.

Lemma includes_title url title description meta :
  includes (template title) (result_html url title description meta) = true.
Proof.
  unfold result_html.
  do 14 apply includes_app_r. apply includes_here.
Qed.

Lemma render_result_eq item w :
  item ≠ JNull →
  render_result item w =
  (Return (result_html (field_of item "url") (field_of item "title")
             (field_of item "description") (field_of item "meta")), w).
Proof. by destruct item. Qed.

Lemma render_results_eq items w :
  Forall (λ item, item ≠ JNull) items →
  mapM render_result items w =
  (Return (map (λ item,
                  result_html (field_of item "url") (field_of item "title")
                    (field_of item "description") (field_of item "meta"))
             items), w).
Proof.
  induction 1 as [|item items Hitem _ IH]; [done|].
  cbn [mapM map]. unfold bind at 1. rewrite render_result_eq by done.
  unfold bind at 1. by rewrite IH.
Qed.


Lemma textual_not_null items :
  forallb textual items = true → Forall (λ item, item ≠ JNull) items.
Proof.
  intros H. apply Forall_forall. intros item Hin ->.
  rewrite forallb_forall in H. specialize (H JNull).
  rewrite <- list_elem_of_In in H. by apply H in Hin.
Qed.

(** X12: renderSearchResults puts the texts of the server into the page
    as they are. For a list of results that are objects whose url, title,
    description and meta are texts where they have them, the container
    gets one piece of HTML, which is the "No results found." notice for
    the empty list and which otherwise contains the title of every result
    character for character, with no escaping, and the word undefined for
    a result without a title. *)
Theorem rendered_results_are_not_escaped container items w :
  forallb textual items = true →
  ∃ html,
    renderSearchResults container (JArr items) w =
      (Return tt, emit (ESetInnerHTML container html) w) ∧
    (items = [] → html = no_results) ∧
    (∀ fields title,
       JObj fields ∈ items → assoc "title" fields = Some (JStr title) →
       includes title html = true) ∧
    (∀ fields,
       JObj fields ∈ items → assoc "title" fields = None →
       includes "undefined" html = true).
Proof.
  intros Htext. pose proof (textual_not_null items Htext) as Hitems.
  unfold renderSearchResults, length_is_zero, bind at 1, ret.
  destruct items as [|item items].
  { eexists. split; [reflexivity|]. split; [done|].
    split; intros; by match goal with H : _ ∈ [] |- _ => apply elem_of_nil in H end. }
  cbn [length Nat.eqb]. unfold bind at 1.
  rewrite render_results_eq by done. eexists. split; [reflexivity|].
  split; [done|].
  assert (∀ it, it ∈ item :: items →
            includes (template (field_of it "title"))
              (String.concat ""
                 (map (λ item0,
                         result_html (field_of item0 "url")
                           (field_of item0 "title")
                           (field_of item0 "description")
                           (field_of item0 "meta")) (item :: items))) = true)
    as Hall.
  { intros it Hin. eapply includes_concat; [|apply includes_title].
    apply list_elem_of_fmap. by exists it. }
  split.
  - intros fields title Hin Ht. specialize (Hall _ Hin).
    cbn [field_of] in Hall. rewrite Ht in Hall. exact Hall.
  - intros fields Hin Ht. specialize (Hall _ Hin).
    cbn [field_of] in Hall. rewrite Ht in Hall. exact Hall.
Qed.


(** * Phone numbers *)

Lemma app_empty_l (s : string) : "" +:+ s = s.
Proof. done. Qed.

Lemma app_cons c (a b : string) : String c a +:+ b = String c (a +:+ b).
Proof. done. Qed.

Lemma app_eq_empty (a b : string) : a +:+ b = "" → a = "" ∧ b = "".
Proof. destruct a; [done|]. rewrite app_cons. done. Qed.

Lemma length_app (a b : string) :
  String.length (a +:+ b) = (String.length a + String.length b)%nat.
Proof.
  induction a as [|c a IH]; [done|].
  rewrite app_cons. simpl. by rewrite IH.
Qed.

(** ** The matcher decides the language *)

Lemma nullable_lang r : nullable r = true ↔ lang r "".
Proof.
  induction r as [| |p|a IHa b IHb|a IHa b IHb]; simpl.
  - done.
  - done.
  - split; [done|]. by intros (c & ? & _).
  - rewrite andb_true_iff, IHa, IHb. split.
    + intros [Ha Hb]. by exists "", "".
    + intros (s1 & s2 & Heq & Ha & Hb).
      symmetry in Heq. apply app_eq_empty in Heq as [-> ->]. done.
  - by rewrite orb_true_iff, IHa, IHb.
Qed.

Lemma derive_lang c r s : lang (derive c r) s ↔ lang r (String c s).
Proof.
  revert s.
  induction r as [| |p|a IHa b IHb|a IHa b IHb]; intros s; simpl.
  - done.
  - done.
  - destruct (p c) eqn:Ep; simpl; split.
    + intros ->. by exists c.
    + by intros (c' & [= <- ->] & _).
    + done.
    + intros (c' & [= <- ->] & Hp). congruence.
  - assert ((∃ s1 s2, s = s1 +:+ s2 ∧ lang (derive c a) s1 ∧ lang b s2) ↔
            (∃ t s2, String c s = String c t +:+ s2 ∧ lang a (String c t)
                     ∧ lang b s2)) as Hcons.
    { split.
      - intros (s1 & s2 & -> & Ha & Hb). exists s1, s2.
        by rewrite <- IHa.
      - intros (t & s2 & Heq & Ha & Hb). rewrite app_cons in Heq.
        injection Heq as ->. exists t, s2. by rewrite IHa. }
    destruct (nullable a) eqn:En; simpl.
    + rewrite Hcons, IHb. split.
      * intros [(t & s2 & Heq & Ha & Hb)|Hb].
        -- by exists (String c t), s2.
        -- exists "", (String c s). by rewrite <- nullable_lang.
      * intros (s1 & s2 & Heq & Ha & Hb). destruct s1 as [|c' t].
        -- right. by rewrite app_empty_l in Heq; subst.
        -- left. rewrite app_cons in Heq. injection Heq as <- ->.
           by exists t, s2.
    + rewrite Hcons. split.
      * intros (t & s2 & Heq & Ha & Hb). by exists (String c t), s2.
      * intros (s1 & s2 & Heq & Ha & Hb). destruct s1 as [|c' t].
        -- apply nullable_lang in Ha. congruence.
        -- rewrite app_cons in Heq. injection Heq as <- ->.
           by exists t, s2.
  - by rewrite IHa, IHb.
Qed.

Lemma matches_lang r s : matches r s = true ↔ lang r s.
Proof.
  revert r. induction s as [|c s IH]; intros r; simpl.
  - apply nullable_lang.
  - by rewrite IH, derive_lang.
Qed.

Lemma lang_RStr p s : lang (RStr p) s ↔ s = p.
Proof.
  revert s. induction p as [|c p IH]; intros s; simpl; [done|]. split.
  - intros (s1 & s2 & -> & (c' & -> & Hc) & Hp).
    apply IH in Hp as ->. unfold RChar in Hc.
    apply Ascii.eqb_eq in Hc as ->. done.
  - intros ->. exists (String c ""), p. split; [done|]. split.
    + exists c. split; [done|]. apply Ascii.eqb_refl.
    + by apply IH.
Qed.

Lemma lang_digits n s :
  lang (RTimes n (RClass is_digit)) s ↔
  String.length s = n ∧ all_digits s = true.
Proof.
  revert s. induction n as [|n IH]; intros s; simpl.
  - split; [by intros ->|]. destruct s; [done|]. by intros [[=] _].
  - split.
    + intros (s1 & s2 & -> & (c & -> & Hc) & Hs).
      apply IH in Hs as [<- Hs]. rewrite app_cons, app_empty_l. simpl.
      by rewrite Hc, Hs.
    + destruct s as [|c s]; [by intros []|]. simpl.
      intros [[= Hl] [Hc Hs]%andb_true_iff].
      exists (String c ""), s. split; [done|]. split; [by exists c|].
      by apply IH.
Qed.

(** The numbers the validator accepts. *)
Lemma validateEgyptianPhone_spec phone :
  validateEgyptianPhone phone = true ↔
  ∃ d, String.length d = 9%nat ∧ all_digits d = true ∧
       (phone = "+201" +:+ d ∨ phone = "01" +:+ d ∨ phone = "1" +:+ d).
Proof.
  unfold validateEgyptianPhone. rewrite matches_lang.
  unfold phoneRegex. cbn [lang]. split.
  - intros (s1 & d & -> & Hpre & Hd). apply lang_digits in Hd as [Hl Hd].
    exists d. repeat (split; [done|]).
    destruct Hpre as [H|[H|H]]; apply lang_RStr in H as ->; auto.
  - intros (d & Hl & Hd & Hp).
    assert (lang (RTimes 9 (RClass is_digit)) d) as Hlang
      by by apply lang_digits.
    destruct Hp as [->|[->| ->]]; eexists _, d; (split; [reflexivity|]);
      (split; [|done]).
    + left. by apply lang_RStr.
    + right. left. by apply lang_RStr.
    + right. right. by apply lang_RStr.
Qed.

(** ** Digits *)

Lemma remove_all_digits s :
  all_digits s = true → remove_all non_digit s = s.
Proof.
  induction s as [|c s IH]; [done|]. cbn [all_digits remove_all].
  intros [Hc Hs]%andb_true_iff.
  assert (non_digit c = false) as -> by (unfold non_digit; by rewrite Hc).
  by rewrite IH.
Qed.

Lemma all_digits_remove_all s : all_digits (remove_all non_digit s) = true.
Proof.
  induction s as [|c s IH]; [done|]. cbn [remove_all]. unfold non_digit at 1.
  destruct (is_digit c) eqn:Ec; cbn [negb all_digits]; [|done].
  by rewrite Ec.
Qed.

Lemma all_digits_substring_from n s :
  all_digits s = true → all_digits (substring_from n s) = true.
Proof.
  revert s. induction n as [|n IH]; intros s; [done|].
  destruct s as [|c s]; [done|]. simpl.
  intros [_ Hs]%andb_true_iff. by apply IH.
Qed.

Lemma length_substring_from_1 s :
  String.length (substring_from 1 s) = (String.length s - 1)%nat.
Proof. destruct s; simpl; lia. Qed.

(** The three tests of the formatter on a string of digits of a length
    that none of them is about. *)
Lemma format_other_length phone :
  let n := String.length (remove_all non_digit phone) in
  n ≠ 10%nat → n ≠ 11%nat → n ≠ 13%nat →
  formatEgyptianPhone phone = phone.
Proof.
  intros n H10 H11 H13. unfold formatEgyptianPhone. fold n.
  apply Nat.eqb_neq in H10, H11, H13. by rewrite H10, H11, H13.
Qed.

(** X14: formatting a phone number twice changes nothing more: whatever
    the input, the output of formatEgyptianPhone is left as it is by
    formatEgyptianPhone. *)
Theorem formatEgyptianPhone_idempotent phone :
  formatEgyptianPhone (formatEgyptianPhone phone) = formatEgyptianPhone phone.
Proof.
  unfold formatEgyptianPhone at 2 3.
  set (cleaned := remove_all non_digit phone).
  assert (all_digits cleaned = true) as Hd by apply all_digits_remove_all.
  destruct (Nat.eqb (String.length cleaned) 10 && String.prefix "1" cleaned)
    eqn:E1.
  { apply andb_true_iff in E1 as [Hl%Nat.eqb_eq _].
    apply format_other_length; cbn zeta.
    all: change ("+20" +:+ cleaned)
           with (String "+" (String "2" (String "0" cleaned))).
    all: cbn [remove_all]; change (non_digit "+") with true;
      change (non_digit "2") with false; change (non_digit "0") with false;
      cbn [String.length]; rewrite remove_all_digits by done; lia. }
  destruct (Nat.eqb (String.length cleaned) 11 && String.prefix "01" cleaned)
    eqn:E2.
  { apply andb_true_iff in E2 as [Hl%Nat.eqb_eq _].
    pose proof (length_substring_from_1 cleaned) as Hl'.
    apply format_other_length; cbn zeta.
    all: change ("+20" +:+ substring_from 1 cleaned)
           with (String "+" (String "2" (String "0" (substring_from 1 cleaned)))).
    all: cbn [remove_all]; change (non_digit "+") with true;
      change (non_digit "2") with false; change (non_digit "0") with false;
      cbn [String.length];
      rewrite remove_all_digits by (by apply all_digits_substring_from); lia. }
  destruct (Nat.eqb (String.length cleaned) 13 && String.prefix "201" cleaned)
    eqn:E3.
  { unfold formatEgyptianPhone.
    change ("+" +:+ cleaned) with (String "+" cleaned).
    cbn [remove_all]. change (non_digit "+") with true. cbn match.
    rewrite remove_all_digits by done. rewrite E1, E2, E3. done. }
  unfold formatEgyptianPhone. fold cleaned. by rewrite E1, E2, E3.
Qed.

Lemma format_local phone d :
  String.length d = 9%nat →
  all_digits d = true →
  remove_all non_digit phone = "01" +:+ d ∨
  remove_all non_digit phone = "1" +:+ d →
  formatEgyptianPhone phone = "+201" +:+ d.
Proof.
  intros Hl Hd [Hc|Hc]; unfold formatEgyptianPhone; rewrite Hc.
  all: destruct d as [|c0 d]; [done|].
  - change ("01" +:+ String c0 d) with (String "0" (String "1" (String c0 d))).
    cbn [String.length] in *. rewrite Hl. done.
  - change ("1" +:+ String c0 d) with (String "1" (String c0 d)).
    cbn [String.length] in *. rewrite Hl. done.
Qed.

(** X15: the numbers the validator accepts have one formatted form: a
    valid number is 9 digits after +201, 01 or 1, and all three spellings
    of the same number are formatted to the spelling with +201, which is
    valid again. Punctuation around a number in one of the two local
    spellings is dropped on the way. *)
Theorem valid_phones_have_one_format phone :
  validateEgyptianPhone phone = true →
  ∃ d,
    String.length d = 9%nat ∧ all_digits d = true ∧
    (phone = "+201" +:+ d ∨ phone = "01" +:+ d ∨ phone = "1" +:+ d) ∧
    formatEgyptianPhone phone = "+201" +:+ d ∧
    validateEgyptianPhone (formatEgyptianPhone phone) = true ∧
    ∀ written,
      remove_all non_digit written = "01" +:+ d ∨
      remove_all non_digit written = "1" +:+ d →
      formatEgyptianPhone written = "+201" +:+ d.
Proof.
  intros (d & Hl & Hd & Hp)%validateEgyptianPhone_spec.
  exists d. repeat (split; [done|]).
  assert (formatEgyptianPhone phone = "+201" +:+ d) as Hf.
  { destruct Hp as [->|[->| ->]].
    - apply format_other_length; cbn zeta.
      all: change ("+201" +:+ d)
             with (String "+" (String "2" (String "0" (String "1" d)))).
      all: cbn [remove_all]; change (non_digit "+") with true;
        change (non_digit "2") with false; change (non_digit "0") with false;
        change (non_digit "1") with false;
        cbn [String.length]; rewrite remove_all_digits by done; lia.
    - apply format_local; [done..|]. left. by apply remove_all_digits.
    - apply format_local; [done..|]. right. by apply remove_all_digits. }
  split; [done|]. split.
  - rewrite Hf. apply validateEgyptianPhone_spec. exists d. auto.
  - intros written Hw. by apply format_local.
Qed.

(** X16: the branch of the formatter for numbers that carry the country
    code asks for 13 digits, one more than such a number has. Thirteen
    digits that begin with 201 get a + in front and make a number the
    validator rejects; the twelve digits of a number with the country code
    take none of the branches, so that such a number comes back as it was
    written, punctuation included. *)
Theorem country_code_branch_is_off_by_one phone :
  let cleaned := remove_all non_digit phone in
  (String.length cleaned = 13%nat →
   String.prefix "201" cleaned = true →
   formatEgyptianPhone phone = "+" +:+ cleaned ∧
   validateEgyptianPhone (formatEgyptianPhone phone) = false) ∧
  (String.length cleaned = 12%nat → formatEgyptianPhone phone = phone).
Proof.
  intros cleaned. split.
  - intros Hl Hp.
    assert (formatEgyptianPhone phone = "+" +:+ cleaned) as Hf.
    { unfold formatEgyptianPhone. fold cleaned. by rewrite Hl, Hp. }
    split; [done|]. rewrite Hf.
    destruct (validateEgyptianPhone ("+" +:+ cleaned)) eqn:Ev; [|done].
    apply validateEgyptianPhone_spec in Ev as (d & Hd & _ & Heq).
    change ("+" +:+ cleaned) with (String "+" cleaned) in Heq.
    destruct Heq as [Heq|[Heq|Heq]].
    + apply (f_equal String.length) in Heq. rewrite length_app in Heq.
      simpl in Heq. lia.
    + by rewrite app_cons in Heq.
    + by rewrite app_cons in Heq.
  - intros Hl. apply format_other_length; fold cleaned; lia.
Qed.

(** * debounce and throttle *)

Section TimingFacts.
Context {A : Type}.
Implicit Types (calls : list (Z * A)) (call : Z * A).

Lemma spaced_snoc gap calls call :
  spaced gap calls →
  (∀ l, last calls = Some l → l.1 + gap ≤ call.1) →
  spaced gap (calls ++ [call]).
Proof.
  induction calls as [|c1 calls IH]; [done|].
  intros Hs Hl. destruct calls as [|c2 calls].
  - simpl. split; [|done]. by apply Hl.
  - destruct Hs as [H12 Hs]. split; [done|]. apply IH; [done|].
    intros l Hlast. apply Hl. by rewrite last_cons, Hlast.
Qed.

Lemma last_cons_cons {B} (x y : B) (l : list B) :
  last (x :: y :: l) = last (y :: l).
Proof. done. Qed.

(** ** A burst of calls *)

Lemma debounce_burst_trailing wait call calls :
  burst (Z.max 0 wait) (call :: calls) →
  foldl (debounce wait false)
    {| db_timeout := Some (call.1 + Z.max 0 wait, call.2); db_invoked := [] |}
    calls =
  {| db_timeout :=
       Some ((default call (last calls)).1 + Z.max 0 wait,
             (default call (last calls)).2);
     db_invoked := [] |}.
Proof.
  revert call. induction calls as [|c2 calls IH]; intros c1 Hb; [done|].
  destruct Hb as [[H1 H2] Hb]. cbn [foldl].
  assert (debounce wait false
            {| db_timeout := Some (c1.1 + Z.max 0 wait, c1.2);
               db_invoked := [] |} c2 =
          {| db_timeout := Some (c2.1 + Z.max 0 wait, c2.2);
             db_invoked := [] |}) as ->.
  { unfold debounce, run_due. cbn [db_timeout].
    assert ((c1.1 + Z.max 0 wait <=? c2.1) = false) as ->
      by (apply Z.leb_gt; lia).
    reflexivity. }
  rewrite IH by done. destruct calls as [|c3 calls]; [done|].
  rewrite last_cons_cons.
  destruct (last (c3 :: calls)) eqn:E; [done|]. by apply last_None in E.
Qed.

(** X17: debounce(func, wait) turns a burst of calls, each less than
    [wait] milliseconds after the one before, into one call of [func]: it
    is made when [wait] milliseconds have passed after the last call of
    the burst, with the arguments of that last call. *)
Theorem debounce_runs_last_call_of_burst wait call calls :
  burst (Z.max 0 wait) (call :: calls) →
  let final := default call (last calls) in
  debounced wait false (call :: calls) =
  [(final.1 + Z.max 0 wait, final.2)].
Proof.
  intros Hb final. unfold debounced. cbn [foldl].
  assert (debounce wait false debounce_new call =
          {| db_timeout := Some (call.1 + Z.max 0 wait, call.2);
             db_invoked := [] |}) as -> by done.
  by rewrite debounce_burst_trailing.
Qed.

Lemma debounce_burst_leading wait call calls first :
  burst (Z.max 0 wait) (call :: calls) →
  ∃ due,
    foldl (debounce wait true)
      {| db_timeout := Some (call.1 + Z.max 0 wait, call.2);
         db_invoked := [first] |}
      calls =
    {| db_timeout := Some due; db_invoked := [first] |}.
Proof.
  revert call. induction calls as [|c2 calls IH]; intros c1 Hb.
  { by eexists. }
  destruct Hb as [[H1 H2] Hb]. cbn [foldl].
  assert (debounce wait true
            {| db_timeout := Some (c1.1 + Z.max 0 wait, c1.2);
               db_invoked := [first] |} c2 =
          {| db_timeout := Some (c2.1 + Z.max 0 wait, c2.2);
             db_invoked := [first] |}) as ->.
  { unfold debounce, run_due. cbn [db_timeout].
    assert ((c1.1 + Z.max 0 wait <=? c2.1) = false) as ->
      by (apply Z.leb_gt; lia).
    reflexivity. }
  by apply IH.
Qed.

(** X18: with [immediate] set, debounce runs [func] at the first call of
    a burst, with the arguments of that call, and not again: the later
    calls of the burst only push the timer on, and the timer itself calls
    nothing. *)
Theorem debounce_immediate_runs_first_call wait call calls :
  burst (Z.max 0 wait) (call :: calls) →
  debounced wait true (call :: calls) = [call].
Proof.
  intros Hb. unfold debounced. cbn [foldl].
  assert (debounce wait true debounce_new call =
          {| db_timeout := Some (call.1 + Z.max 0 wait, call.2);
             db_invoked := [call] |}) as -> by done.
  destruct (debounce_burst_leading wait call calls call Hb) as [[due args] ->].
  done.
Qed.

(** ** The rate of the calls that get through *)

Lemma debounce_paced_armed wait now due (args : A) invoked :
  spaced (Z.max 0 wait) invoked →
  (∀ l, last invoked = Some l → l.1 ≤ now ∧ l.1 + Z.max 0 wait ≤ due) →
  debounce_paced wait now
    {| db_timeout := Some (due, args); db_invoked := invoked |}.
Proof. by split. Qed.

Lemma debounce_keeps_pace wait immediate now d call :
  debounce_paced wait now d →
  now ≤ call.1 →
  debounce_paced wait call.1 (debounce wait immediate d call).
Proof.
  intros [Hs Hl] Hnow. unfold debounce, run_due, later.
  destruct (db_timeout d) as [[due args]|] eqn:Et.
  - destruct (due <=? call.1) eqn:Edue; cbn [db_timeout db_invoked].
    + apply Z.leb_le in Edue.
      destruct immediate; cbn [negb andb db_timeout db_invoked];
        apply debounce_paced_armed.
      * apply spaced_snoc; [done|]. intros l Hlast.
        destruct (Hl l Hlast) as [_ Hd]. lia.
      * intros l. rewrite last_snoc. intros [= <-]. lia.
      * apply spaced_snoc; [done|]. intros l Hlast.
        by destruct (Hl l Hlast) as [_ Hd].
      * intros l. rewrite last_snoc. intros [= <-]. cbn [fst]. lia.
    + rewrite Et. rewrite andb_false_r. apply debounce_paced_armed; [done|].
      intros l Hlast. destruct (Hl l Hlast) as [Hn Hd].
      apply Z.leb_gt in Edue. lia.
  - rewrite Et, Hl. destruct immediate; cbn [andb]; apply debounce_paced_armed.
    + done.
    + intros l [= <-]. lia.
    + done.
    + by intros l.
Qed.

Lemma debounce_paced_calls wait immediate now d calls :
  debounce_paced wait now d →
  in_order calls →
  (∀ c, head calls = Some c → now ≤ c.1) →
  ∃ now',
    debounce_paced wait now' (foldl (debounce wait immediate) d calls).
Proof.
  revert now d. induction calls as [|c1 calls IH]; intros now d Hd Ho Hh.
  { by exists now. }
  cbn [foldl]. apply (IH c1.1).
  - apply (debounce_keeps_pace _ _ now); [done|]. by apply Hh.
  - destruct calls; [done|]. apply Ho.
  - intros c Hc. destruct calls as [|c2 calls]; [done|].
    injection Hc as <-. apply Ho.
Qed.

(** X19: the calls of [func] that a debounced function makes are never
    less than [wait] milliseconds apart, in either mode and whatever the
    calls of the debounced function are. *)
Theorem debounce_limits_the_rate wait immediate calls :
  in_order calls →
  spaced (Z.max 0 wait) (debounced wait immediate calls).
Proof.
  intros Ho. unfold debounced.
  destruct (debounce_paced_calls wait immediate
              (default 0 (fst <$> head calls)) debounce_new calls)
    as (now & Hs & Hl); [done|done|by intros c ->|].
  unfold later.
  destruct (db_timeout (foldl (debounce wait immediate) debounce_new calls))
    as [[due args]|]; [|done].
  destruct immediate; cbn [negb db_invoked]; [done|].
  apply spaced_snoc; [done|]. intros l Hlast. by destruct (Hl l Hlast).
Qed.

(** ** throttle *)

Lemma throttle_keeps_pace limit t call :
  throttle_paced limit t → throttle_paced limit (throttle limit t call).
Proof.
  intros [Hs Hl]. unfold throttle.
  destruct (inThrottle t) as [due|] eqn:Et.
  - destruct (due <=? call.1) eqn:Edue.
    + apply Z.leb_le in Edue. split; cbn [th_invoked inThrottle].
      * apply spaced_snoc; [done|]. intros l Hlast.
        specialize (Hl l Hlast). lia.
      * intros l. rewrite last_snoc. by intros [= <-].
    + split; [done|]. by rewrite Et.
  - split; cbn [th_invoked inThrottle].
    + by rewrite Hl.
    + intros l. rewrite last_snoc. by intros [= <-].
Qed.

Lemma throttle_paced_calls limit t calls :
  throttle_paced limit t →
  throttle_paced limit (foldl (throttle limit) t calls).
Proof.
  revert t. induction calls as [|c calls IH]; intros t Ht; [done|].
  cbn [foldl]. by apply IH, throttle_keeps_pace.
Qed.

Lemma throttle_sublist limit t calls :
  ∃ more,
    th_invoked (foldl (throttle limit) t calls) = (th_invoked t ++ more)%list ∧
    sublist more calls.
Proof.
  revert t. induction calls as [|c calls IH]; intros t.
  { exists []. by rewrite app_nil_r. }
  cbn [foldl]. destruct (IH (throttle limit t c)) as (more & -> & Hsub).
  unfold throttle.
  destruct (match inThrottle t with
            | Some due => due <=? c.1
            | None => true
            end); cbn [th_invoked].
  - exists (c :: more). rewrite <- app_assoc. split; [done|].
    by apply sublist_skip.
  - exists more. split; [done|]. by apply sublist_cons.
Qed.

(** X20: throttle(func, limit) lets the first call through and then only
    calls that come [limit] milliseconds or more after the last one it
    let through: the calls of [func] are calls that were made, with their
    own arguments and in their order, and they are never less than [limit]
    milliseconds apart. *)
Theorem throttle_limits_the_rate limit calls :
  spaced (Z.max 0 limit) (throttled limit calls) ∧
  sublist (throttled limit calls) calls ∧
  head (throttled limit calls) = head calls.
Proof.
  unfold throttled. split; [|split].
  - by apply (throttle_paced_calls limit throttle_new calls).
  - destruct (throttle_sublist limit throttle_new calls) as (more & -> & Hs).
    done.
  - destruct calls as [|c calls]; [done|]. cbn [foldl].
    destruct (throttle_sublist limit (throttle limit throttle_new c) calls)
      as (more & -> & _).
    done.
Qed.

End TimingFacts.

(** * The loading state of an element *)

Lemma classList_remove_absent token l :
  existsb (String.eqb token) l = false → classList_remove token l = l.
Proof.
  induction l as [|t l IH]; [done|]. simpl.
  intros [Ht Hl]%orb_false_iff. rewrite Ht. simpl. by rewrite IH.
Qed.

Lemma classList_remove_add token l :
  existsb (String.eqb token) l = false →
  classList_remove token (classList_add token l) = l.
Proof.
  intros Hl. unfold classList_add. rewrite Hl.
  unfold classList_remove. rewrite List.filter_app. simpl.
  rewrite String.eqb_refl. simpl. rewrite app_nil_r.
  by apply classList_remove_absent.
Qed.

(** X21: hideLoading undoes showLoading on an element that has a text and
    is not loading yet: the text and the classes are what they were, the
    note of the original text is gone, and the element is enabled, also
    when it was disabled before. *)
Theorem hideLoading_restores_the_element el text :
  textContent el ≠ "" →
  existsb (String.eqb "btn-loading") (classList el) = false →
  element.hideLoading (element.showLoading el text) =
  {| disabled := false; classList := classList el; originalText := None;
     textContent := textContent el |}.
Proof.
  intros Ht Hc. unfold element.hideLoading, element.showLoading.
  cbn [originalText classList textContent].
  apply String.eqb_neq in Ht. rewrite Ht. cbn [negb].
  by rewrite classList_remove_add.
Qed.

(** X22: an element whose text is empty does not get it back: hideLoading
    takes the saved empty text for no saved text, so that after
    showLoading and hideLoading the element shows the loading text for
    good, and the empty note stays in its data set. *)
Theorem empty_label_stays_loading el text :
  textContent el = "" →
  let el' := element.hideLoading (element.showLoading el text) in
  textContent el' = default "Loading..." text ∧
  originalText el' = Some "" ∧
  disabled el' = false.
Proof.
  intros Ht. unfold element.hideLoading, element.showLoading.
  cbn [originalText classList textContent]. by rewrite Ht.
Qed.

(** X23: two loading states on one element do not nest: the second
    showLoading saves the loading text of the first as the original, so
    that after both have been hidden the element shows the first loading
    text and not the text it had. *)
Theorem overlapping_indicators_lose_the_text el text1 text2 :
  default "Loading..." text1 ≠ "" →
  let shown := element.showLoading (element.showLoading el text1) text2 in
  let el' := element.hideLoading (element.hideLoading shown) in
  textContent el' = default "Loading..." text1 ∧
  originalText el' = None.
Proof.
  intros Ht. unfold element.hideLoading, element.showLoading.
  cbn [originalText classList textContent].
  apply String.eqb_neq in Ht. rewrite Ht. done.
Qed.

(** * The wrapper of the local storage *)

Section StorageFacts.
Variable JSON_parse : string → JsError + Json.
Variable JSON_stringify : Json → string.

Lemma storage_get_items key defaultValue s :
  items (storage_get JSON_parse key defaultValue s).2 = items s.
Proof.
  unfold storage_get, getItem.
  destruct (locked s); [done|].
  destruct (negb _); [|done]. by destruct (JSON_parse _).
Qed.

Lemma storage_get_other key defaultValue s s' :
  locked s' = locked s →
  items s' !! key = items s !! key →
  (storage_get JSON_parse key defaultValue s').1
  = (storage_get JSON_parse key defaultValue s).1.
Proof.
  intros Hl Hi. unfold storage_get, getItem. rewrite Hl, Hi.
  destruct (locked s); [done|].
  destruct (negb _); [|done]. by destruct (JSON_parse _).
Qed.

(** X24: what storage.set has stored under a key, storage.get reads back
    under that key, as long as the browser's JSON.parse undoes its
    JSON.stringify on the value; the other keys read as before. After
    storage.remove the key reads as the default value again and the other
    keys still read as before; after storage.clear every key reads as the
    default value. *)
Theorem stored_value_is_read_back key value defaultValue s :
  JSON_parse (JSON_stringify value) = inr value →
  JSON_stringify value ≠ "" →
  (storage_set JSON_stringify key (Some value) s).1 = true →
  let stored := (storage_set JSON_stringify key (Some value) s).2 in
  let removed := (storage_remove key stored).2 in
  let cleared := (storage_clear stored).2 in
  storage_get JSON_parse key defaultValue stored = (value, stored) ∧
  (storage_get JSON_parse key defaultValue removed).1 = defaultValue ∧
  (∀ any, (storage_get JSON_parse any defaultValue cleared).1 = defaultValue) ∧
  ∀ other, other ≠ key →
    (storage_get JSON_parse other defaultValue stored).1
      = (storage_get JSON_parse other defaultValue s).1 ∧
    (storage_get JSON_parse other defaultValue removed).1
      = (storage_get JSON_parse other defaultValue s).1.
Proof.
  intros Hround Hne.
  unfold storage_set, storage_remove, storage_clear, setItem, removeItem,
    clear_items.
  destruct (locked s) eqn:El; [done|]. destruct (full s) eqn:Ef; [done|].
  intros _. cbn [snd locked set_items]. rewrite El. cbn [snd].
  split; [|split; [|split]].
  - unfold storage_get, getItem. cbn [locked items set_items]. rewrite El.
    rewrite lookup_insert_eq. cbn [default from_option id].
    apply String.eqb_neq in Hne. rewrite Hne. cbn [negb]. by rewrite Hround.
  - unfold storage_get, getItem. cbn [locked items set_items]. rewrite El.
    by rewrite lookup_delete_eq.
  - intros any. unfold storage_get, getItem. cbn [locked items set_items].
    rewrite El. by rewrite lookup_empty.
  - intros other Hother. split; apply storage_get_other; try done.
    + cbn [items set_items]. by rewrite lookup_insert_ne.
    + cbn [items set_items].
      by rewrite lookup_delete_ne, lookup_insert_ne.
Qed.

(** X25: storage.get never fails and never writes: it gives the default
    value when the storage is locked, when there is nothing under the key,
    when what is there is the empty text and when it does not parse, and
    it leaves the stored texts as they are. storage.set gives [false], and
    stores nothing, exactly when the storage is locked or full. *)
Theorem storage_falls_back key value defaultValue s :
  (locked s = true ∨ items s !! key = None ∨ items s !! key = Some "" ∨
   (∃ text e, items s !! key = Some text ∧ JSON_parse text = inl e) →
   (storage_get JSON_parse key defaultValue s).1 = defaultValue) ∧
  items (storage_get JSON_parse key defaultValue s).2 = items s ∧
  ((storage_set JSON_stringify key value s).1 = false ↔
   locked s = true ∨ full s = true) ∧
  ((storage_set JSON_stringify key value s).1 = false →
   items (storage_set JSON_stringify key value s).2 = items s).
Proof.
  split; [|split; [apply storage_get_items|]].
  - unfold storage_get, getItem.
    intros [Hl|[Hk|[Hk|(text & e & Hk & Hp)]]].
    + by rewrite Hl.
    + destruct (locked s); [done|]. by rewrite Hk.
    + destruct (locked s); [done|]. by rewrite Hk.
    + destruct (locked s); [done|]. rewrite Hk. cbn [default from_option id].
      rewrite Hp. by destruct (negb _).
  - unfold storage_set, setItem.
    destruct (locked s), (full s); cbn [fst snd]; split;
      try (split; [by auto|by intros [|]]); by auto.
Qed.

(** X26: storage.set accepts [undefined], reports success and stores the
    text "undefined"; JSON.parse rejects that text, so that storage.get
    gives the default value for the key, not [undefined]. *)
Theorem undefined_is_not_read_back key defaultValue s e :
  locked s = false →
  full s = false →
  JSON_parse "undefined" = inl e →
  let stored := (storage_set JSON_stringify key None s).2 in
  (storage_set JSON_stringify key None s).1 = true ∧
  items stored !! key = Some "undefined" ∧
  (storage_get JSON_parse key defaultValue stored).1 = defaultValue.
Proof.
  intros Hl Hf Hp. unfold storage_set, setItem. rewrite Hl, Hf.
  cbn [fst snd]. split; [done|]. split.
  - cbn [items set_items]. apply lookup_insert_eq.
  - unfold storage_get, getItem. cbn [locked items set_items]. rewrite Hl.
    rewrite lookup_insert_eq. cbn [default from_option id].
    by rewrite Hp.
Qed.

End StorageFacts.

(** * The CSRF token *)

Lemma app_assoc_string (a b c : string) : (a +:+ b) +:+ c = a +:+ (b +:+ c).
Proof.
  induction a as [|x a IH]; [done|].
  rewrite !app_cons. by rewrite IH.
Qed.

Lemma split_go_skip sep piece a rest :
  split_go sep (String.length a) piece (a +:+ rest) = split_go sep 0 piece rest.
Proof.
  induction a as [|x a IH]; [done|].
  rewrite app_cons. cbn [String.length split_go]. apply IH.
Qed.

Lemma split_go_free c sep piece row rest :
  free_of c row = true →
  split_go (String c sep) 0 piece (row +:+ rest) =
  split_go (String c sep) 0 (piece +:+ row) rest.
Proof.
  revert piece. induction row as [|x row IH]; intros piece.
  { by rewrite string_app_empty_r. }
  cbn [free_of]. intros [Hx Hrow]%andb_true_iff.
  apply negb_true_iff, Ascii.eqb_neq in Hx.
  rewrite app_cons. cbn [split_go String.prefix].
  destruct (ascii_dec c x) as [->|_]; [done|].
  rewrite IH by done. by rewrite app_assoc_string.
Qed.

Lemma split_go_separator c sep piece rest :
  split_go (String c sep) 0 piece (String c sep +:+ rest) =
  piece :: split_go (String c sep) 0 "" rest.
Proof.
  rewrite app_cons. cbn [split_go].
  assert (String.prefix (String c sep) (String c (sep +:+ rest)) = true) as ->.
  { change (String c (sep +:+ rest)) with (String c sep +:+ rest).
    apply prefix_here. }
  replace (String.length (String c sep) - 1)%nat with (String.length sep)
    by (cbn [String.length]; lia).
  by rewrite split_go_skip.
Qed.

(** [split] undoes [join] on pieces without the first character of the
    separator. *)
Lemma split_concat c sep row rows :
  Forall (λ r, free_of c r = true) (row :: rows) →
  split (String c sep) (String.concat (String c sep) (row :: rows)) =
  row :: rows.
Proof.
  unfold split. revert row. induction rows as [|r2 rows IH]; intros row Hf.
  - apply Forall_cons in Hf as [Hrow _]. cbn [String.concat].
    rewrite <- (string_app_empty_r row) at 1.
    by rewrite split_go_free.
  - apply Forall_cons in Hf as [Hrow Hf].
    change (String.concat (String c sep) (row :: r2 :: rows))
      with (row +:+ String c sep +:+ String.concat (String c sep) (r2 :: rows)).
    rewrite split_go_free by done. rewrite split_go_separator.
    by rewrite IH.
Qed.

Lemma free_of_app c a b :
  free_of c (a +:+ b) = free_of c a && free_of c b.
Proof.
  induction a as [|x a IH]; [done|].
  rewrite app_cons. cbn [free_of]. by rewrite IH, andb_assoc.
Qed.

Lemma prefix_name key n v :
  free_of "=" n = true →
  free_of "=" key = true →
  String.prefix (key +:+ "=") (n +:+ "=" +:+ v) = String.eqb n key.
Proof.
  revert n. induction key as [|k key IH]; intros n Hn Hk.
  - destruct n as [|x n]; [by destruct v|].
    cbn [free_of] in Hn. apply andb_true_iff in Hn as [Hx _].
    apply negb_true_iff, Ascii.eqb_neq in Hx.
    rewrite app_cons. change ("" +:+ "=") with "=".
    cbn [String.prefix String.eqb].
    destruct (ascii_dec "=" x) as [<-|_]; [by destruct Hx|done].
  - cbn [free_of] in Hk. apply andb_true_iff in Hk as [Hk Hkey].
    apply negb_true_iff, Ascii.eqb_neq in Hk.
    destruct n as [|x n].
    + rewrite app_cons. change ("" +:+ "=" +:+ v) with (String "=" v).
      cbn [String.prefix String.eqb].
      destruct (ascii_dec k "=") as [->|_]; [by destruct Hk|done].
    + cbn [free_of] in Hn. apply andb_true_iff in Hn as [_ Hn].
      rewrite !app_cons. cbn [String.prefix String.eqb].
      destruct (ascii_dec k x) as [->|Hne].
      * rewrite Ascii.eqb_refl. by apply IH.
      * apply not_eq_sym, Ascii.eqb_neq in Hne. by rewrite Hne.
Qed.

Lemma find_cookie jar :
  Forall plain_cookie jar →
  match List.find (String.prefix "csrftoken=")
          (map (λ c, c.1 +:+ "=" +:+ c.2) jar) with
  | Some row => split "=" row !! 1%nat
  | None => None
  end = first_cookie "csrftoken" jar.
Proof.
  induction 1 as [|[n v] jar (Hn1 & Hn2 & Hv1 & Hv2) _ IH]; [done|].
  cbn [map List.find first_cookie fst snd] in *.
  change "csrftoken=" with ("csrftoken" +:+ "=").
  rewrite prefix_name by done.
  destruct (String.eqb n "csrftoken"); [|done].
  change (n +:+ "=" +:+ v) with (String.concat "=" [n; v]).
  rewrite split_concat; [done|]. by repeat constructor.
Qed.

(** X27: the token is read back from the cookies the browser holds: when
    no name and no value of a cookie has a [;] or a [=] in it,
    getCSRFTokenFromCookie gives the value of the first cookie named
    csrftoken, and the empty string when there is none. setupCSRF prefers
    the token of the page and takes the cookie when the page has none or
    an empty one. *)
Theorem csrf_token_is_read_from_the_cookie jar input :
  Forall plain_cookie jar →
  let doc := {| csrfmiddlewaretoken := input; cookie := cookie_of jar |} in
  getCSRFTokenFromCookie doc = default "" (first_cookie "csrftoken" jar) ∧
  setupCSRF doc =
    if String.eqb (default "" input) "" then
      default "" (first_cookie "csrftoken" jar)
    else default "" input.
Proof.
  intros Hjar doc.
  assert (getCSRFTokenFromCookie doc
          = default "" (first_cookie "csrftoken" jar)) as Hc.
  { unfold getCSRFTokenFromCookie, doc, cookie_of. cbn [cookie].
    destruct jar as [|c jar].
    - done.
    - cbn [map]. rewrite split_concat.
      + change ((c.1 +:+ "=" +:+ c.2) :: map (λ c0, c0.1 +:+ "=" +:+ c0.2) jar)
          with (map (λ c0 : string * string, c0.1 +:+ "=" +:+ c0.2) (c :: jar)).
        rewrite find_cookie by done.
        destruct (first_cookie "csrftoken" (c :: jar)) as [v|]; [|done].
        unfold or_else. cbn [default from_option id].
        by destruct (String.eqb_spec v "") as [->|].
      + change ((c.1 +:+ "=" +:+ c.2) :: map (λ c0, c0.1 +:+ "=" +:+ c0.2) jar)
          with (map (λ c0 : string * string, c0.1 +:+ "=" +:+ c0.2) (c :: jar)).
        apply Forall_fmap. eapply Forall_impl; [exact Hjar|].
        intros [n v] (Hn1 & _ & Hv1 & _). cbn.
        rewrite !free_of_app. cbn in *. by rewrite Hn1, Hv1. }
  split; [done|].
  unfold setupCSRF, getCSRFToken. rewrite Hc. unfold or_else, doc.
  cbn [csrfmiddlewaretoken]. by destruct input.
Qed.

(** * The favourite button *)

Lemma on_button_element btn e : fav_element (on_button btn e) = fav_element btn.
Proof.
  destruct e; cbn [on_button]; try done.
  all: by destruct (Nat.eqb _ _).
Qed.

Lemma on_button_no_icon btn e :
  fav_icon btn = None → fav_icon (on_button btn e) = None.
Proof.
  intros Hi. destruct e; cbn [on_button]; try done.
  - by destruct (Nat.eqb _ _).
  - destruct (Nat.eqb _ _); [|done]. cbn [fav_hideLoading fav_icon].
    destruct (originalText (fav_button btn)) as [o|]; [|done].
    by destruct (negb (String.eqb o "")).
Qed.

(** Once the indicator has been shown on the button, its icon is gone. *)
Lemma shown_button_has_no_icon l btn :
  fav_icon btn = None ∨
  (0 < length (filter (λ e, is_show_on (fav_element btn) e = true) l))%nat →
  fav_icon (foldl on_button btn l) = None.
Proof.
  revert btn. induction l as [|e l IH]; intros btn H.
  { destruct H as [H|H]; [done|]. cbn in H. lia. }
  cbn [foldl]. apply IH. rewrite on_button_element.
  destruct H as [H|H]; [left; by apply on_button_no_icon|].
  rewrite filter_cons in H.
  destruct (decide (is_show_on (fav_element btn) e = true)) as [He|He].
  - left. destruct e; try done. cbn [is_show_on] in He.
    cbn [on_button]. by rewrite He.
  - by right.
Qed.

Lemma contains_add token other l :
  String.eqb token other = false →
  classList_contains token (classList_add other l) = classList_contains token l.
Proof.
  intros Hne. unfold classList_contains, classList_add.
  destruct (existsb (String.eqb other) l); [done|].
  rewrite existsb_app. cbn. by rewrite Hne, !orb_false_r.
Qed.

Lemma contains_remove token other l :
  String.eqb other token = false →
  classList_contains token (classList_remove other l) =
  classList_contains token l.
Proof.
  intros Hne. unfold classList_contains, classList_remove.
  induction l as [|t l IH]; [done|]. cbn.
  destruct (String.eqb other t) eqn:Eo; cbn.
  - apply String.eqb_eq in Eo as <-.
    rewrite String.eqb_sym, Hne. by rewrite IH.
  - by rewrite IH.
Qed.

Lemma contains_removed token l :
  classList_contains token (classList_remove token l) = false.
Proof.
  unfold classList_contains, classList_remove.
  induction l as [|t l IH]; [done|]. cbn.
  destruct (String.eqb token t) eqn:E; cbn; [done|]. by rewrite E.
Qed.

Lemma contains_toggle token l :
  classList_contains token (classList_toggle token l) =
  negb (classList_contains token l).
Proof.
  unfold classList_toggle. fold (classList_contains token l).
  destruct (classList_contains token l) eqn:E; cbn [negb].
  - apply contains_removed.
  - unfold classList_contains in *. rewrite existsb_app, E. cbn.
    by rewrite String.eqb_refl.
Qed.

(** The loading indicator leaves the class of a favourite alone. *)
Lemma on_button_favorited btn e :
  classList_contains "favorited" (classList (fav_button (on_button btn e))) =
  classList_contains "favorited" (classList (fav_button btn)).
Proof.
  destruct e; cbn [on_button]; try done.
  - destruct (Nat.eqb _ _); [|done].
    cbn [fav_showLoading fav_button element.showLoading classList].
    by apply contains_add.
  - destruct (Nat.eqb _ _); [|done].
    cbn [fav_hideLoading fav_button]. unfold element.hideLoading.
    destruct (originalText (fav_button btn)) as [o|];
      [destruct (negb (String.eqb o ""))|]; cbn [classList];
      by apply contains_remove.
Qed.

Lemma button_after_favorited l btn :
  classList_contains "favorited" (classList (fav_button (foldl on_button btn l)))
  = classList_contains "favorited" (classList (fav_button btn)).
Proof.
  revert btn. induction l as [|e l IH]; intros btn; [done|].
  cbn [foldl]. by rewrite IH, on_button_favorited.
Qed.

Section Favourite.
Variable env : Env.

(** The request of the favourite button shows its indicator on the
    button. *)
Lemma favorite_request_shows id btn w :
  let w' := (makeRequest env (favorite_url id) (favorite_options btn) w).2 in
  extends w w' ∧
  (0 < length (filter (λ e, is_show_on (fav_element btn) e = true)
                 (since w w')))%nat.
Proof.
  intros w'.
  assert (extends w w') as Hext by apply extends_makeRequest.
  split; [done|].
  pose proof (since_count (is_show_on (fav_element btn)) w w' Hext) as Hc.
  cut (count (is_show_on (fav_element btn)) w <
       count (is_show_on (fav_element btn)) w')%nat; [lia|].
  unfold w', makeRequest.
  change (Z.to_nat (budget (favorite_options btn))) with 3%nat.
  rewrite makeRequest_fuel_S. cbn zeta.
  set (config := spread defaultConfig (favorite_options btn)).
  set (requestId := idgen env (ids_drawn w)).
  set (p := is_show_on (fav_element btn)).
  destruct (count_attempt env p requestId (favorite_url id) config (bump_ids w)
              (plain_show_on _) (spares_quiet _ _ (quiet_show_on _)))
    as [H1 H2]; [done|].
  cbn [resolve_loading config spread favorite_options showLoading
         loadingElement defaultConfig override target_truthy] in H1, H2.
  unfold p in H1, H2. cbn [is_show_on] in H1, H2.
  rewrite Nat.eqb_refl in H1, H2. fold p in H1, H2.
  change (count p (bump_ids w)) with (count p w) in H1, H2.
  destruct (makeRequest_try env requestId (favorite_url id) config (bump_ids w))
    as [[res|e|] w1]; cbn [fst snd] in *; [lia| |lia].
  set (w2 := makeRequest_cleanup requestId w1) in *.
  destruct (String.eqb (name e) "AbortError" || negb (should_retry config e))
    eqn:Ef.
  - rewrite count_makeRequest_catch_final by (done || apply plain_show_on).
    lia.
  - apply orb_false_iff in Ef as [Ea Er]. apply negb_false_iff in Er.
    unfold makeRequest_catch. rewrite Ea, Er. unfold delay, bind, act.
    cbn [fst snd]. set (w3 := emit (EDelay _) _).
    pose proof (extends_count p w3 _
                  (extends_makeRequest env 3
                     (favorite_url id)
                     (with_retries config (default 0 (retries config) - 1)) w3))
      as Hmono.
    assert (count p w3 = count p w2) as H3.
    { unfold w3. rewrite !count_emit. simpl. lia. }
    lia.
Qed.

(** X28: toggleProjectFavorite never rejects and makes at most four
    network calls; without a project id it does nothing at all. With a
    project id the button is the loading indicator of the request, and
    showLoading puts the loading text in the place of the children of the
    button: whatever the answer, the button has no icon afterwards, so
    that the classes of the icon are never toggled. The class favorited of
    the button is toggled exactly when the request succeeded: it is, after
    one network call, when the first attempt is answered with an ok
    response. The request is a POST without a body. *)
Theorem favorite_follows_the_answer btn w :
  let id := or_else (projectId btn) "" in
  let favorited b := classList_contains "favorited" (classList (fav_button b)) in
  (∃ btn' w',
     toggleProjectFavorite env btn w = (Return btn', w') ∧
     (fetches w' ≤ fetches w + 4)%nat) ∧
  (id = "" → toggleProjectFavorite env btn w = (Return btn, w)) ∧
  (id ≠ "" →
   ∃ res btn' w',
     makeRequest env (favorite_url id) (favorite_options btn) w
       = (Return res, w') ∧
     toggleProjectFavorite env btn w = (Return btn', w') ∧
     fav_icon btn' = None ∧
     favorited btn' = xorb (favorited btn) (success res)) ∧
  (∀ r data,
     id ≠ "" →
     network env (fetches w) = {| during := []; settles := Resolves r |} →
     ok r = true →
     body_of r = inr data →
     ∃ btn' w',
       toggleProjectFavorite env btn w = (Return btn', w') ∧
       fetches w' = S (fetches w) ∧
       fav_icon btn' = None ∧
       favorited btn' = negb (favorited btn)) ∧
  (∀ w0,
     let ro := sent env (spread defaultConfig (favorite_options btn)) w0 in
     ro_method ro = "POST" ∧ ro_body ro = None).
Proof.
  cbn zeta. set (id := or_else (projectId btn) "").
  assert (id ≠ "" →
          ∃ res btn' w',
            makeRequest env (favorite_url id) (favorite_options btn) w
              = (Return res, w') ∧
            toggleProjectFavorite env btn w = (Return btn', w') ∧
            fav_icon btn' = None ∧
            classList_contains "favorited" (classList (fav_button btn')) =
            xorb (classList_contains "favorited" (classList (fav_button btn)))
              (success res)) as Hcall.
  { intros Hid. apply String.eqb_neq in Hid.
    destruct (makeRequest_fuel_returns env 4 (favorite_url id)
                (favorite_options btn) w) as (res & w' & Heq & _);
      [vm_compute; lia|done|].
    change (makeRequest_fuel env 4 (favorite_url id) (favorite_options btn) w)
      with (makeRequest env (favorite_url id) (favorite_options btn) w) in Heq.
    destruct (favorite_request_shows id btn w) as [_ Hshown].
    rewrite Heq in Hshown. cbn [snd] in Hshown.
    assert (fav_icon (button_after w w' btn) = None) as Hicon.
    { apply shown_button_has_no_icon. by right. }
    exists res. unfold toggleProjectFavorite. fold id. rewrite Hid.
    unfold snapshot, try_catch, bind, ret. rewrite Heq.
    destruct (success res); eexists _, w'; (split; [done|]);
      (split; [reflexivity|]).
    - split; [cbn [toggled fav_icon]; by rewrite Hicon|].
      cbn [toggled fav_button classList]. rewrite contains_toggle.
      unfold button_after. rewrite button_after_favorited.
      by destruct (classList_contains _ _).
    - split; [done|]. unfold button_after. rewrite button_after_favorited.
      by destruct (classList_contains _ _). }
  split; [|split; [|split; [|split]]].
  - destruct (decide (id = "")) as [Hid|Hid].
    + exists btn, w. unfold toggleProjectFavorite. fold id. rewrite Hid.
      split; [done|lia].
    + destruct (Hcall Hid) as (res & btn' & w' & Heq & Ht & _).
      exists btn', w'. split; [done|].
      pose proof (attempts_bounded env 4 (favorite_url id)
                    (favorite_options btn) w) as Hb.
      change (makeRequest_fuel env 4 (favorite_url id) (favorite_options btn) w)
        with (makeRequest env (favorite_url id) (favorite_options btn) w) in Hb.
      by rewrite Heq in Hb.
  - intros Hid. unfold toggleProjectFavorite. fold id. by rewrite Hid.
  - done.
  - intros r data Hid Hnet Hok Hbody.
    destruct (Hcall Hid) as (res & btn' & w' & Heq & Ht & Hicon & Hfav).
    destruct (answered_attempt_succeeds env 3 (favorite_url id)
                (favorite_options btn) w r data Hnet Hok Hbody eq_refl)
      as (w1 & Heq1 & Hcount).
    change (makeRequest_fuel env 4 (favorite_url id) (favorite_options btn) w)
      with (makeRequest env (favorite_url id) (favorite_options btn) w) in Heq1.
    rewrite Heq in Heq1. injection Heq1 as -> ->.
    exists btn', w1. split; [done|]. split.
    { unfold fetches. rewrite (Hcount is_fetch calm_fetch). simpl. lia. }
    split; [done|]. rewrite Hfav. cbn [success success_result].
    by destruct (classList_contains _ _).
  - done.
Qed.

End Favourite.

(** * Errors after the response has arrived *)

Section LateErrors.
Variable env : Env.

Lemma successCallback_with_retries options n :
  successCallback
    (spread defaultConfig (with_retries (spread defaultConfig options) n)) =
  successCallback (spread defaultConfig options).
Proof. simpl. unfold override. by destruct (successCallback options). Qed.

(** An error that is thrown after an ok response has arrived: by the
    parsing of the body or by the success callback. *)
Lemma finish_throws requestId config t r w e :
  body_of r = inl e ∨
  (∃ data, body_of r = inr data ∧ successCallback config = Some (Some e)) →
  (finish env requestId config t r w).1 = Throw e.
Proof.
  unfold finish, bind, act, ret, parse_body, call_callback, throw.
  intros [Hb|(data & Hb & Hcb)]; rewrite Hb, ?Hcb;
    by destruct (resolve_loading env config).
Qed.

(** X30: an error that is thrown after the response has arrived sends the
    request again. When the server answers every call with an ok response
    and the body does not parse, or the success callback throws, with an
    error whose message has no 4 in it, makeRequest repeats the network
    call until the retry budget is used up and then returns the failure
    with the message of that error. *)
Theorem late_error_repeats_the_request (n : nat) url options w r e :
  (∀ k, network env k = {| during := []; settles := Resolves r |}) →
  ok r = true →
  body_of r = inl e ∨
  (∃ data, body_of r = inr data ∧ successCallback options = Some (Some e)) →
  name e ≠ "AbortError" →
  includes "4" (message e) = false →
  throws (errorCallback options) = false →
  budget options = Z.of_nat n →
  ∃ w',
    makeRequest env url options w = (Return (failure_result (message e)), w') ∧
    fetches w' = (fetches w + S n)%nat.
Proof.
  intros Hnet Hok Hlate Hname Hmsg. revert options w Hlate.
  apply String.eqb_neq in Hname.
  induction n as [|n IH]; intros options w Hlate Hcb Hb;
    unfold makeRequest; rewrite Hb, Nat2Z.id;
    rewrite makeRequest_fuel_S; cbn zeta;
    set (config := spread defaultConfig options);
    set (requestId := idgen env (ids_drawn w)).
  all: assert (body_of r = inl e ∨
               (∃ data, body_of r = inr data ∧
                        successCallback config = Some (Some e))) as Hlate'
    by (destruct Hlate as [?|(data & ? & Hs)]; [by left|right];
        exists data; split; [done|]; unfold config; simpl; by rewrite Hs).
  all: pose proof (fetches_try env requestId url config (bump_ids w)) as Hf.
  all: change (fetches (bump_ids w)) with (fetches w) in Hf.
  all: assert ((makeRequest_try env requestId url config (bump_ids w)).1
               = Throw e) as Htry
    by (rewrite makeRequest_try_eq; cbn zeta;
        rewrite not_aborted_undisturbed by (by rewrite Hnet);
        rewrite Hnet; cbn [settles]; rewrite Hok;
        by apply finish_throws).
  all: destruct (makeRequest_try env requestId url config (bump_ids w))
         as [c w1]; cbn [fst snd] in *; subst c.
  all: set (w2 := makeRequest_cleanup requestId w1).
  all: assert (fetches w2 = S (fetches w)) as Hf2
    by (unfold w2, fetches; rewrite count_cleanup by apply quiet_fetch;
        exact Hf).
  - destruct (makeRequest_catch_final env (makeRequest_fuel env 0 url)
                config e w2) as (w' & Heq & Hcount).
    + rewrite Hname. cbn [orb]. apply negb_true_iff.
      unfold should_retry. unfold budget in Hb. fold config in Hb.
      destruct (retries config) as [m|]; [|done].
      simpl in Hb. subst m. done.
    + unfold config. rewrite throws_spread, Hcb. apply orb_true_r.
    + exists w'. rewrite Heq. unfold final_message. rewrite Hname.
      split; [done|]. unfold fetches in *.
      rewrite (Hcount is_fetch plain_fetch). lia.
  - assert (retries config = Some (Z.of_nat (S n))) as Hr.
    { unfold budget in Hb. fold config in Hb.
      destruct (retries config) as [m|] eqn:Em; simpl in Hb; [by subst|].
      lia. }
    unfold makeRequest_catch. rewrite Hname.
    assert (should_retry config e = true) as ->.
    { unfold should_retry. rewrite Hr, Hmsg. apply andb_true_iff.
      split; [|done]. apply Z.gtb_lt. lia. }
    unfold delay, bind, act. rewrite Hr. cbn [default from_option id].
    set (w4 := emit (EDelay _) _).
    destruct (IH (with_retries config (Z.of_nat (S n) - 1)) w4)
      as (w' & Heq & Hf').
    + destruct Hlate' as [?|(data & ? & Hs)]; [by left|right].
      exists data. split; [done|].
      unfold config in *. simpl in *. unfold override in *.
      by destruct (successCallback options).
    + unfold config. simpl. unfold override.
      by destruct (errorCallback options) as [[]|].
    + unfold config. rewrite budget_with_retries. lia.
    + unfold makeRequest in Heq. unfold config in Heq.
      rewrite budget_with_retries in Heq. fold config in Heq.
      replace (Z.to_nat (Z.of_nat (S n) - 1)) with n in Heq by lia.
      exists w'. split; [exact Heq|].
      rewrite Hf'. unfold w4. unfold fetches in *. rewrite !count_emit.
      simpl. lia.
Qed.

End LateErrors.

(** * The further properties on concrete pages *)


(** A call with an indicator on an element, against a failing server:
    three pauses and four network calls. *)
Lemma retries_are_paced_witness :
  let env := page (always (status_response 500)) in
  let options := with_indicator 2%nat in
  let w' := (makeRequest env "/api/projects/" options initial_world).2 in
  let config := spread defaultConfig options in
  ∃ pauses,
    count is_delay w' = (count is_delay initial_world + pauses)%nat ∧
    fetches w' = (fetches initial_world + S pauses)%nat ∧
    (pauses ≤ Z.to_nat (budget options))%nat ∧
    count (is_delay_other_than (retryDelay config)) w' =
    count (is_delay_other_than (retryDelay config)) initial_world.
Proof.
  intros env options.
  apply (retries_are_paced env "/api/projects/" options initial_world).
  intros sel. discriminate.
Defined.

Example failing_server_is_asked_four_times :
  let w' :=
    (makeRequest (page (always (status_response 500))) "/api/projects/"
       (with_indicator 2%nat) initial_world).2 in
  count is_delay w' = 3%nat ∧ fetches w' = 4%nat.
Proof. vm_compute. split; reflexivity. Qed.

(** The success that comes on the third attempt carries the response of
    the third network call. *)
Lemma success_means_2xx_witness :
  let env := page (recovers (JObj thanks)) in
  let run := makeRequest env "/api/projects/" two_retries initial_world in
  ∃ resp data,
    success_result (JObj thanks) (json_response (JObj thanks))
      = success_result data resp ∧
    200 ≤ status resp ≤ 299 ∧
    body_of resp = inr data ∧
    settles (network env (pred (fetches run.2))) = Resolves resp.
Proof.
  intros env run.
  apply (success_means_2xx env "/api/projects/" two_retries initial_world
           (success_result (JObj thanks) (json_response (JObj thanks))) run.2).
  vm_compute. reflexivity.
Defined.

(** The page has no element for the selector. *)
Lemma loadContent_needs_its_target_witness :
  ∃ w',
    loadContent (page (always (html_response "<p>About</p>"))) "/about/"
      (Some (BySelector "#sidebar")) no_options initial_world =
      (Return (failure_result "Target element not found"), w') ∧
    fetches w' = fetches initial_world ∧
    pendingRequests w' = pendingRequests initial_world ∧
    trace w' =
      (trace initial_world ++ [EConsole "error" "Target element not found"])%list.
Proof.
  apply (loadContent_needs_its_target
           (page (always (html_response "<p>About</p>"))) "/about/"
           (Some (BySelector "#sidebar")) no_options initial_world).
  reflexivity.
Defined.

(** The page has the element, and the server sends a fragment. *)
Lemma loadContent_fills_target_witness :
  let env := page (always (html_response "<p>About</p>")) in
  ∃ w',
    loadContent env "/about/" (Some (BySelector "#results")) no_options
      initial_world =
      (Return (success_result (JStr "<p>About</p>")
                 (html_response "<p>About</p>")), w') ∧
    fetches w' = S (fetches initial_world) ∧
    count (is_inner_html 1%nat) w' = S (count (is_inner_html 1%nat) initial_world) ∧
    count (is_dispatch "contentLoaded") w' =
      S (count (is_dispatch "contentLoaded") initial_world) ∧
    ∃ before,
      trace w' =
        (before ++ [ESetInnerHTML 1%nat "<p>About</p>";
                    EDispatchEvent "contentLoaded"])%list.
Proof.
  intros env.
  apply (loadContent_fills_target env "/about/" (Some (BySelector "#results"))
           no_options initial_world 1%nat (html_response "<p>About</p>")
           "<p>About</p>"); reflexivity.
Defined.

(** A server that answers every call with the JSON text null. *)
Lemma null_payload_is_not_handled_witness :
  let env := page (always (json_response JNull)) in
  let w := initial_world in
  (∀ form options,
     (data_validate form = false ∨ checkValidity form = true) →
     throws (successCallback options) = false →
     ∃ w',
       submitForm env form options w =
         (Throw (NullPropertyError "redirect"), w') ∧
       fetches w' = S (fetches w) ∧
       count handles_result w' = count handles_result w) ∧
  (∀ url target options el,
     resolve_target env target = Some el →
     throws (successCallback options) = false →
     ∃ w',
       loadContent env url target options w =
         (Throw (NullPropertyError "html"), w') ∧
       fetches w' = S (fetches w) ∧
       count handles_result w' = count handles_result w) ∧
  (∀ form query container,
     querySelector env (default "null" (data_result_container form))
       = Some container →
     or_else (Some (search_action form)) (default "" (data_search_url form))
       ≠ "" →
     trim query ≠ "" →
     ∃ w',
       handleSearch env form query w =
         (Throw (NullPropertyError "html"), w') ∧
       fetches w' = S (fetches w) ∧
       count handles_result w' = count handles_result w).
Proof.
  intros env w.
  apply (null_payload_is_not_handled env w (json_response JNull));
    reflexivity.
Defined.

(** A submission the server turns down with a 404. *)
Lemma submission_dispatches_one_event_witness :
  let env := page (always (status_response 404)) in
  let form := project_form false true in
  let result := failure_result "HTTP error! status: 404" in
  let w' := (submitForm env form no_options initial_world).2 in
  count (is_dispatch "ajaxSuccess") w' =
    (count (is_dispatch "ajaxSuccess") initial_world +
     if success result then 1 else 0)%nat ∧
  count (is_dispatch "ajaxError") w' =
    (count (is_dispatch "ajaxError") initial_world +
     if success result then 0 else 1)%nat ∧
  (success result = false →
   count is_reset w' = count is_reset initial_world ∧
   count is_navigate w' = count is_navigate initial_world).
Proof.
  intros env form result w'.
  apply (submission_dispatches_one_event env form no_options initial_world
           result w').
  - left. reflexivity.
  - vm_compute. reflexivity.
Defined.

(** The project form, as the DOM reports its method. *)
Lemma lowercase_method_sends_no_body_witness :
  let env := page (always (status_response 200)) in
  let form := project_form false true in
  (∀ w0,
     let ro := sent env (spread defaultConfig (submit_config form no_options)) w0 in
     ro_method ro = form_method form ∧ ro_body ro = None) ∧
  count carries_body (submitForm env form no_options initial_world).2 =
  count carries_body initial_world.
Proof.
  intros env form.
  apply (lowercase_method_sends_no_body env form no_options initial_world).
  - apply elem_of_cons. right. apply elem_of_cons. left. reflexivity.
  - reflexivity.
Defined.

(** Loading a fragment into the results container of the page. *)
Lemma loadContent_shows_progress_witness :
  let env := page (always (html_response "<p>About</p>")) in
  let config := spread defaultConfig (content_config 1%nat no_options) in
  let w' :=
    (loadContent env "/about/" (Some (BySelector "#results")) no_options
       initial_world).2 in
  let attempts := (fetches w' - fetches initial_world)%nat in
  resolve_loading env config = Some 1%nat ∧
  loadingText config = Some (default "Loading..." (loadingText no_options)) ∧
  (1 ≤ attempts ≤ S (Z.to_nat (budget (content_config 1%nat no_options))))%nat ∧
  count (is_show_on 1%nat) w' =
    (count (is_show_on 1%nat) initial_world + attempts)%nat ∧
  count (is_hide_on 1%nat) w' =
    (count (is_hide_on 1%nat) initial_world + attempts)%nat ∧
  (∀ j, (ids_drawn initial_world ≤ j)%nat →
        pendingRequests w' !! idgen env j = None).
Proof.
  intros env config.
  apply (loadContent_shows_progress env "/about/"
           (Some (BySelector "#results")) no_options initial_world 1%nat).
  - reflexivity.
  - reflexivity.
  - discriminate.
  - intros k r Hk. simpl in Hk. rewrite lookup_empty in Hk. discriminate.
  - split.
    + intros j _. simpl. apply lookup_empty.
    + intros i j _ _. apply request_ids_inj.
Defined.

(** The same fragment from a server that keeps failing: the target shows
    and hides its indicator four times. *)
Example failing_content_flickers :
  let w' :=
    (loadContent (page (always (status_response 500))) "/about/"
       (Some (BySelector "#results")) no_options initial_world).2 in
  fetches w' = 4%nat ∧
  count (is_show_on 1%nat) w' = 4%nat ∧
  count (is_hide_on 1%nat) w' = 4%nat.
Proof. vm_compute. repeat split; reflexivity. Qed.

(** Two results, one of them with markup in its title. *)
Lemma rendered_results_are_not_escaped_witness :
  let items :=
    [JObj [("title", JStr "<b>Solar</b> lamps"); ("url", JStr "/projects/1/")];
     JObj [("title", JStr "Wells")]] in
  ∃ html,
    renderSearchResults 1%nat (JArr items) initial_world =
      (Return tt, emit (ESetInnerHTML 1%nat html) initial_world) ∧
    (items = [] → html = no_results) ∧
    (∀ fields title,
       JObj fields ∈ items → assoc "title" fields = Some (JStr title) →
       includes title html = true) ∧
    (∀ fields,
       JObj fields ∈ items → assoc "title" fields = None →
       includes "undefined" html = true).
Proof.
  intros items.
  apply (rendered_results_are_not_escaped 1%nat items initial_world).
  reflexivity.
Defined.

(** The heart of project 7, clicked on a page whose server accepts: the
    button is a favourite afterwards, and it has lost its icon and reads
    "Loading...". *)
Example favourite_button_loses_its_heart :
  (toggleProjectFavorite (page (always (json_response (JObj []))))
     favorite_button initial_world).1 =
  Return
    {| fav_element := 3%nat; projectId := Some "7";
       fav_button :=
         {| disabled := false; classList := ["btn-favorite"; "favorited"];
            originalText := Some ""; textContent := "Loading..." |};
       fav_icon := None |}.
Proof. vm_compute. reflexivity. Qed.

(** A mobile number in its local spelling. *)
Lemma valid_phones_have_one_format_witness :
  ∃ d,
    String.length d = 9%nat ∧ all_digits d = true ∧
    ("01012345678" = "+201" +:+ d ∨ "01012345678" = "01" +:+ d
     ∨ "01012345678" = "1" +:+ d) ∧
    formatEgyptianPhone "01012345678" = "+201" +:+ d ∧
    validateEgyptianPhone (formatEgyptianPhone "01012345678") = true ∧
    ∀ written,
      remove_all non_digit written = "01" +:+ d ∨
      remove_all non_digit written = "1" +:+ d →
      formatEgyptianPhone written = "+201" +:+ d.
Proof.
  apply (valid_phones_have_one_format "01012345678"). reflexivity.
Defined.

(** Three keystrokes in a row. *)
Lemma debounce_runs_last_call_of_burst_witness :
  debounced 300 false [(0, "1"); (120, "15"); (260, "150")]
  = [(260 + Z.max 0 300, "150")].
Proof.
  apply (debounce_runs_last_call_of_burst 300 (0, "1")
           [(120, "15"); (260, "150")]).
  simpl. lia.
Defined.

Lemma debounce_immediate_runs_first_call_witness :
  debounced 300 true [(0, "1"); (120, "15"); (260, "150")] = [(0, "1")].
Proof.
  apply (debounce_immediate_runs_first_call 300 (0, "1")
           [(120, "15"); (260, "150")]).
  simpl. lia.
Defined.

(** The same keystrokes and one more after a pause. *)
Lemma debounce_limits_the_rate_witness :
  spaced (Z.max 0 300) (debounced 300 false keystrokes) ∧
  spaced (Z.max 0 300) (debounced 300 true keystrokes).
Proof.
  split.
  - apply (debounce_limits_the_rate 300 false keystrokes). simpl. lia.
  - apply (debounce_limits_the_rate 300 true keystrokes). simpl. lia.
Defined.

Lemma hideLoading_restores_the_element_witness :
  element.hideLoading (element.showLoading save_button (Some "Saving...")) =
  {| disabled := false; classList := classList save_button;
     originalText := None; textContent := textContent save_button |}.
Proof.
  apply (hideLoading_restores_the_element save_button (Some "Saving...")).
  - discriminate.
  - reflexivity.
Defined.

Lemma empty_label_stays_loading_witness :
  let el' := element.hideLoading (element.showLoading icon_button None) in
  textContent el' = default "Loading..." None ∧
  originalText el' = Some "" ∧
  disabled el' = false.
Proof.
  apply (empty_label_stays_loading icon_button None). reflexivity.
Defined.

Lemma overlapping_indicators_lose_the_text_witness :
  let shown :=
    element.showLoading (element.showLoading save_button (Some "Saving..."))
      None in
  let el' := element.hideLoading (element.hideLoading shown) in
  textContent el' = default "Loading..." (Some "Saving...") ∧
  originalText el' = None.
Proof.
  apply (overlapping_indicators_lose_the_text save_button (Some "Saving...")
           None).
  discriminate.
Defined.

(** A flag that is stored and read back. *)
Lemma stored_value_is_read_back_witness :
  let stored :=
    (storage_set js_string "seen_intro" (Some (JBool true)) empty_storage).2 in
  let removed := (storage_remove "seen_intro" stored).2 in
  let cleared := (storage_clear stored).2 in
  storage_get parse_literal "seen_intro" JNull stored = (JBool true, stored) ∧
  (storage_get parse_literal "seen_intro" JNull removed).1 = JNull ∧
  (∀ any, (storage_get parse_literal any JNull cleared).1 = JNull) ∧
  ∀ other, other ≠ "seen_intro" →
    (storage_get parse_literal other JNull stored).1
      = (storage_get parse_literal other JNull empty_storage).1 ∧
    (storage_get parse_literal other JNull removed).1
      = (storage_get parse_literal other JNull empty_storage).1.
Proof.
  apply (stored_value_is_read_back parse_literal js_string "seen_intro"
           (JBool true) JNull empty_storage).
  - reflexivity.
  - discriminate.
  - reflexivity.
Defined.

Lemma undefined_is_not_read_back_witness :
  let stored := (storage_set js_string "draft" None empty_storage).2 in
  (storage_set js_string "draft" None empty_storage).1 = true ∧
  items stored !! "draft" = Some "undefined" ∧
  (storage_get parse_literal "draft" (JStr "none") stored).1 = JStr "none".
Proof.
  apply (undefined_is_not_read_back parse_literal js_string "draft"
           (JStr "none") empty_storage
           {| name := "SyntaxError";
              message := "Unexpected token in JSON at position 0" |});
    reflexivity.
Defined.

Lemma csrf_token_is_read_from_the_cookie_witness :
  let doc :=
    {| csrfmiddlewaretoken := None; cookie := cookie_of session_cookies |} in
  getCSRFTokenFromCookie doc
    = default "" (first_cookie "csrftoken" session_cookies) ∧
  setupCSRF doc =
    if String.eqb (default "" None) "" then
      default "" (first_cookie "csrftoken" session_cookies)
    else default "" None.
Proof.
  apply (csrf_token_is_read_from_the_cookie session_cookies None).
  repeat constructor.
Defined.

(** The server answers every call with a success, and the callback that is
    to show it throws. *)
Lemma late_error_repeats_the_request_witness :
  let env := page (always (json_response (JObj thanks))) in
  ∃ w',
    makeRequest env "/api/projects/" failing_callback initial_world =
      (Return (failure_result (message (Error "render failed"))), w') ∧
    fetches w' = (fetches initial_world + 4)%nat.
Proof.
  intros env.
  apply (late_error_repeats_the_request env 3 "/api/projects/"
           failing_callback initial_world (json_response (JObj thanks))
           (Error "render failed")).
  - intros k. reflexivity.
  - reflexivity.
  - right. exists (JObj thanks). split; reflexivity.
  - discriminate.
  - reflexivity.
  - reflexivity.
  - reflexivity.
Defined.

